(* ===== verification/_CoqProject ===== *)
-Q . S2P
Prelude.v
Json.v
Emitter.v
Subscription.v
EventLoop.v
Lifecycle.v
Codec.v
Bounds.v
Contract.v
Progress.v
Failures.v
Reentrant.v
Hub.v
Types.v
