(* ===== verification/Prelude.v ===== *)
(** * A verification development of mydb's live-document subscription

    The program is [src/subscription.js] of mydb (158 lines). It defines a
    [Subscription] object that inherits from node's [EventEmitter].
    [new Subscription(server, id)] does four things: it asks redis for the
    metadata of [id] ([get]), subscribes to the redis channel [id]
    ([subscribe]), fetches the document from mongo ([fetch]), and then
    re-emits every message published on the channel as an [op] event
    ([onMessage]). Messages that arrive before the document are buffered in
    [this.ops]. A [once('payload', emitOps)] listener replays them when the
    document arrives. [destroy] unsubscribes.

    The program talks to four parties, and the model treats each as follows:
    - redis (connection [server.redis]): [get(id, cb)]. Its reply is an input
      of the model.
    - redis pub/sub (connection [server.redisSub]): [subscribe],
      [unsubscribe], and the shared ['message'] listener. Replies on this
      connection come back in the order the commands were sent (redis
      protocol), so the two acks are a FIFO queue. Messages are inputs that
      may arrive whenever the listener is attached.
    - mongo: [findById(id, {fields}, cb)]. Its reply is an input that may
      come at any time after the request.
    - the caller: it registers its [payload], [op] and [error] listeners
      right after construction and may call [destroy()] at any time.

    Files, in dependency order:
    - [Prelude] (this file): the result type [res] of code that may throw a
      JS exception, with its bind notation in [js_scope]; the hint
      databases [mydb] (resolve) and [mydb_rw] (rewrite); the tactic
      [res_inv].
    - [Json]: the values [JSON.parse] produces ([json]), JS truthiness
      ([truthy], [js_or]), string coercion ([js_to_string]) and property
      access on a string primitive ([string_prop]). It also holds the
      interface [JsonParse] of [JSON.parse], a class with one law.
      [JSON.parse] is a platform builtin, so the model is generic in it.
      A small parser ([MiniJson]) implements the class; only the witnesses
      use it.
    - [Emitter]: node's [EventEmitter] as this code uses it: the listener
      registry ([on], [once], [removeListener]) and the dispatch
      [emit_with]. Both sit in Sections that are generic in the listener
      and state types. The class [HasRegistry] is the interface to the
      object that inherits from the emitter.
    - [Subscription]: the object of [src/subscription.js]. The Record
      [subscription] holds the fields of [this] ([readyState], [oid],
      [fields], [col], [ops], [payload], the registry [events]). It also
      holds the redis ['message'] listener ([listening]), the requests in
      flight ([inflight]) and the events delivered to the caller
      ([emitted]). Each method and each callback is one Definition named
      after the source: [Subscription] (constructor, lines 17-27), [get]
      and [get_cb] (41-57), [subscribe] and [subscribe_cb] (65-74),
      [fetch] and [fetch_cb] (82-96), [onMessage] (104-122), [emitOps] and
      its loop [emit_ops_loop] (130-137), [destroy] and [unsubscribe_cb]
      (145-159). [emit] is the inherited dispatch with fuel;
      [open_subscription] is the caller: it constructs the object and
      attaches the listeners.
    - [EventLoop]: the single-threaded event loop (spec section 5).
      [input] lists the turns, [step] runs one of them ([None] when it
      cannot arrive), [exec] runs a sequence, and [reachable] is the set of
      states reached from [open_subscription]. The invariant [live] of a
      subscription that has not been destroyed and replay completeness
      are proved here, with the spec's scenario C (a failed metadata
      lookup) for every id and every later input.
    - [Lifecycle]: the invariant [phase_inv] of every reachable state,
      proved by rule induction. It relates [readyState] to the requests in
      flight and fixes the shape of every fetch request. On top of it:
      the [lifecycle] relation of [readyState], [unsubscribed] as a
      terminal state, quiescence after [destroy] ([quiet]), and the crash
      after a late subscribe ack.
    - [Codec]: [JSON.stringify] for compact JSON ([print]) and its round
      trip through [MiniJson.parse], a test harness for the witnesses,
      and the lemma [onMessage_ok] that [Hub] uses.
    - [Bounds]: a counting invariant ([budget]). It counts the requests
      still pending that can lead to a [payload] event, plus the [payload]
      events delivered. No turn raises it.
    - [Contract]: the abstract contract of the spec (sections 4 and 7), a
      state machine [c_step] that gives the snapshot, then the ops in
      arrival order. A forward simulation [sim] relates every reachable
      state of the code to the contract's state, step by step (the
      simulation diagram of a compiler-correctness proof). The relation is
      proved on well-formed metadata and successful redis replies
      ([ok_input]).
    - [Progress]: teardown completes. After [destroy], the acks of the
      pub/sub commands in flight lead to [unsubscribed].
    - [Failures]: a refused [SUBSCRIBE]. The state it leaves ([stuck]) has
      nothing in flight and keeps its ['message'] listener. Also a
      [destroy()] during the metadata lookup, which is forgotten.
    - [Reentrant]: a caller whose [op] listener calls [destroy()]
      ([call_destroying]). The emitter [emit_destroying] is built from
      the same [emit_with], [emitOps], [emit_ops_loop] and [destroy].
    - [Hub]: the server, modelled from the spec because it is not in this
      repository. It holds several subscriptions on one shared redis
      connection: the commands of all subscriptions go on one FIFO queue,
      the connection has a set of subscribed channels, and each ['message'] is
      delivered to the listeners attached at that time. Its invariant
      ([hub_inv]) keeps every subscription a state of the single model
      and ties the listener list to each subscription's [listening].
    - [Types]: the type of every field of the object in every reachable
      state ([typed]).

    What the theorems show (PROJECT.json lists them as claims C1-C30):
    - replay ([EventLoop.replay_complete], C1): with no [destroy], under
      every interleaving, the ops delivered to the caller followed by the
      ops still buffered are exactly the parsed messages of the channel,
      in arrival order.
    - refinement ([Contract.code_refines_contract], C2, and
      [Contract.state_refines_contract], C8): under every interleaving of
      successful replies, the code's output equals the contract's. The
      one exception is the [payload] event, which the code delivers after
      the buffered ops instead of before them ([reordered]). Without
      [destroy], the code's state maps onto the contract's.
    - the order the caller observes
      ([Subscription.fetch_cb_ops_before_payload], C3): the replay listener
      is registered before the caller's, so the buffered ops reach the
      caller BEFORE the [payload] event. The spec says payload first; this
      is a divergence.
    - the state machine ([Lifecycle], C4-C6, C11, C12): the allowed
      transitions, the terminal [unsubscribed] state, that nothing but
      errors follows a [destroy] in [subscribed], the shape of every fetch
      request, and the crash after a late subscribe ack.
    - bounds ([Bounds.payload_at_most_once], C7): [payload] is delivered at
      most once and at most one [findById] is in flight, on every path.
    - liveness ([Progress.destroy_completes], C9): [destroy] in
      [subscribing] or [subscribed] reaches [unsubscribed] once redis acks
      the commands in flight, a late subscribe ack included.
    - the server ([Hub.publish_never_throws], C10): a publish never throws
      in any run of the server, because [destroy] detaches [onMessage] in
      the turn in which it nulls the buffer.
    - the guards and operations ([Subscription], C13-C24): foreign
      channels are ignored, a stale fetch result is dropped, [destroy] is
      idempotent and tears down as the spec says, the not-found error,
      the metadata defects, and the equivalence of the [emitOps] loop
      with a reference replay.
    - termination ([Lifecycle.reachable_emit_terminates], C25): in every
      reachable state the emitter's recursion has depth at most 2.
    - the failed metadata lookup ([EventLoop.metadata_error_terminal],
      C26): one [error], then no input changes the state.
    - types ([Types.reachable_typed], C27).
    - failed subscribe ([Failures.failed_subscribe_not_terminal], C28):
      the code has no [failed] state. After the error, the subscription
      stays in [subscribing] and buffers every message of its channel
      without bound, and [destroy()] still unsubscribes. The spec makes
      [failed] terminal.
    - re-entrancy ([Reentrant.destroy_in_replay_throws], C29): a caller
      that calls [destroy()] from its [op] listener during the replay
      makes the loop of [emitOps] throw on [null.length].
    - the discovery race ([Failures.destroy_during_discovery_forgotten],
      C30): a [destroy()] during the metadata lookup is lost, and the
      document is still delivered.
    - defects: [get] never copies the metadata (it reads [data.i],
      [data.f], [data.c] off the raw string), so every fetch is
      [findById(id, {fields: {}})] on collection [undefined]; a missing
      redis key throws; the catch block emits [null]; a subscribe ack
      after [destroy] revives the subscription and a later fetch reply
      throws on [this.ops.length].

    Bounds and fuel. [emit] recurses only through the replay listener: a
    [payload] event runs [emitOps], which emits [op] events whose listeners
    are the caller's. The depth is therefore 2. The callbacks run [emit]
    with [emit_fuel = 2], and [reachable_emit_terminates] shows that no fuel of at
    least 2 changes the result and that [RangeError] (out of fuel) never
    happens. The [for] loop of [emitOps] runs with the buffer's length at
    entry plus one as its bound: one test of [i < this.ops.length] per
    op, and the final test. The JS loop stops there too, because a
    listener can null the buffer (then the test throws) but never grows
    it ([emitOps_reference]).

    Assumptions of the model. The caller registers its three listeners
    right after construction, and they only record what they receive
    (except in [Reentrant]).
    Replies on the pub/sub connection come in command order (redis
    protocol). Every other reply and message may arrive in any order.

    The parser of [MiniJson] runs with the length of its input as fuel.
    Every node of a value takes at least one character
    ([Codec.length_print]), so that fuel covers the nesting and the
    number of elements.

    Coverage. Every statement of [src/subscription.js] is the source of
    a mapped definition. The lines the map leaves out are the file's
    comments and blank lines, and the two [require] calls of lines 6-7:
    the [EventEmitter] they import is modelled in [Emitter], and [debug]
    only logs.

    Not modelled: debug logging (pure output, lines 7, 92, 157); the
    [server] object beyond its three connections (its delivery of
    messages is modelled from the spec in [Hub]); the redis and mongo
    clients, whose replies are the inputs of the model; JS numbers beyond
    integers; escapes in JSON strings; caller listeners that do anything
    but record, except the [destroy()] of [Reentrant]; the timing of
    turns, since only their order matters to the code. The ['message']
    listener of a subscription is one flag ([listening]): the code calls
    [subscribe], and so [sub.on('message')], at most once per object
    (only the single redis [GET] reply leads there), so the model cannot
    express a listener attached twice. *)

From stdpp Require Export base list strings.
From Stdlib Require Export String ZArith.

Declare Scope js_scope.
Delimit Scope js_scope with js.

(** ** Results of code that may throw

    A JS function either returns (here, the next state) or throws an
    exception out of the callback. *)

Inductive res (X A : Type) : Type :=
| Ok (a : A)
| Throw (x : X).
Arguments Ok {X A} a.
Arguments Throw {X A} x.

Definition res_bind {X A B : Type} (m : res X A) (k : A -> res X B) : res X B :=
  match m with
  | Ok a => k a
  | Throw x => Throw x
  end.

Notation "x <- m ;; k" := (res_bind m (fun x => k))
  (at level 100, m at next level, right associativity) : js_scope.

Open Scope js_scope.

Create HintDb mydb discriminated.
Create Rewrite HintDb mydb_rw.

Section ResLemmas.
  Context {X A B : Type}.

Lemma res_bind_ok (a : A) (k : A -> res X B) : res_bind (Ok a) k = k a.
  Proof. reflexivity. Qed.

Lemma res_bind_throw (x : X) (k : A -> res X B) : res_bind (Throw x) k = Throw x.
  Proof. reflexivity. Qed.

Lemma res_bind_ok_inv (m : res X A) (k : A -> res X B) (b : B) :
    res_bind m k = Ok b -> exists a, m = Ok a /\ k a = Ok b.
  Proof. destruct m; simpl; [eauto | discriminate]. Qed.

Lemma res_bind_assoc {C} (m : res X A) (k : A -> res X B) (k' : B -> res X C) :
    res_bind (res_bind m k) k' = res_bind m (fun a => res_bind (k a) k').
  Proof. by destruct m. Qed.
End ResLemmas.

#[export] Hint Rewrite @res_bind_ok @res_bind_throw @res_bind_assoc : mydb_rw.

(** [res_inv] takes apart every hypothesis [res_bind m k = Ok b]. *)
Ltac res_inv :=
  repeat match goal with
  | H : res_bind _ _ = Ok _ |- _ =>
      let a := fresh "a" in
      let Ha := fresh "Ha" in
      apply res_bind_ok_inv in H as (a & Ha & H)
  | H : Ok _ = Ok _ |- _ => injection H as H; subst
  | H : Throw _ = Ok _ |- _ => discriminate H
  end.

(** ** Lists and options shared by the components *)

#[export] Hint Rewrite @omap_app : mydb_rw.
