(* ===== verification/Json.v ===== *)
(** * Json: JS values that the subscription handles

    [JSON.parse] returns a value of [json]. The code reads properties of a
    string primitive ([data.i] on the raw redis reply), tests values for
    truthiness ([if (this.payload)], [if (!doc)], [data.f || {}]) and
    coerces them to strings (the not-found message concatenates
    [self.col]). This file
    defines those three JS operations. It also states the interface of
    [JSON.parse]: a class [JsonParse] with its one law (the text [null]
    parses to [null]). A small parser for a subset of JSON implements it;
    only the witnesses use it. *)

From S2P Require Import Prelude.
From Stdlib Require Import Ascii DecimalString.

(** JSON values. JS numbers are modelled as integers. *)
#[warnings="-register-all"]
Inductive json : Type :=
| JNull
| JBool (b : bool)
| JNum (n : Z)
| JStr (s : string)
| JArr (items : list json)
| JObj (members : list (string * json)).

(** The double-quote character. *)
Definition quote_char : ascii := Ascii.ascii_of_nat 34.

(** A JS value that may be [undefined] ([None]). *)
Abbreviation jsval := (option json).

(** ToBoolean: [undefined], [null], [false], [0] and the empty string are falsy;
    objects and arrays are truthy. *)
Definition truthy (v : jsval) : bool :=
  match v with
  | None | Some JNull => false
  | Some (JBool b) => b
  | Some (JNum n) => negb (Z.eqb n 0)
  | Some (JStr s) => negb (String.eqb s EmptyString)
  | Some (JArr _) | Some (JObj _) => true
  end.

(** [a || b] *)
Definition js_or (a b : jsval) : jsval := if truthy a then a else b.

Fixpoint json_to_string (j : json) : string :=
  match j with
  | JNull => "null"
  | JBool true => "true"
  | JBool false => "false"
  | JNum n => NilZero.string_of_int (Z.to_int n)
  | JStr s => s
  | JArr items =>
      (fix join (l : list json) : string :=
         match l with
         | [] => EmptyString
         | [x] => json_to_string x
         | x :: l' => json_to_string x +:+ "," +:+ join l'
         end) items
  | JObj _ => "[object Object]"
  end.

(** ToString, as used by [+] on a string: [String(undefined)] is
    ["undefined"]. *)
Definition js_to_string (v : jsval) : string :=
  match v with
  | None => "undefined"
  | Some j => json_to_string j
  end.

(** The array index a property key denotes, when it is a canonical decimal
    numeral (["0"], ["12"], not ["012"]). *)
Definition array_index (key : string) : option nat :=
  match NilZero.uint_of_string key with
  | Some u =>
      let n := Nat.of_uint u in
      if String.eqb (NilZero.string_of_uint (Nat.to_uint n)) key then Some n else None
  | None => None
  end.

(** Property access [s[key]] on a string primitive: [length], the
    characters by index, and [undefined] for every other key. *)
Definition string_prop (s key : string) : jsval :=
  if String.eqb key "length" then Some (JNum (Z.of_nat (String.length s)))
  else match array_index key with
       | Some n =>
           match String.get n s with
           | Some c => Some (JStr (String c EmptyString))
           | None => None
           end
       | None => None
       end.

(** ** The interface of [JSON.parse]

    [json_parse s = None] means [JSON.parse(s)] throws a SyntaxError.
    [JSON.parse(null)] coerces its argument to the text ["null"]; the law
    says that text parses to [null]. *)
Class JsonParse := {
  json_parse : string -> option json;
  json_parse_null : json_parse "null" = Some JNull
}.

(** ** A parser for compact JSON, used by the witnesses

    It reads JSON without white space: [null], [true], [false], integers,
    strings without escapes, arrays and objects. The fuel is the length of
    the input, which bounds the nesting. *)
Module MiniJson.

Definition is_digit (c : ascii) : bool :=
    let n := Ascii.nat_of_ascii c in Nat.leb 48 n && Nat.leb n 57.

Fixpoint digits (acc : Z) (s : string) : Z * string :=
    match s with
    | String c s' =>
        if is_digit c then digits (acc * 10 + Z.of_nat (Ascii.nat_of_ascii c - 48)) s'
        else (acc, s)
    | EmptyString => (acc, s)
    end.

Definition number (s : string) : option (json * string) :=
    match s with
    | String "-" (String c s') =>
        if is_digit c then let '(n, r) := digits 0 (String c s') in Some (JNum (- n), r)
        else None
    | String c _ =>
        if is_digit c then let '(n, r) := digits 0 s in Some (JNum n, r) else None
    | EmptyString => None
    end.

  (** The characters up to the closing quote. *)
Fixpoint str_body (s : string) : option (string * string) :=
    match s with
    | String c s' =>
        if Ascii.eqb c quote_char then Some (EmptyString, s')
        else if Ascii.eqb c "\"%char then None
        else match str_body s' with
             | Some (b, r) => Some (String c b, r)
             | None => None
             end
    | EmptyString => None
    end.

  (** The elements of an array after its [[]: values separated by [,] up
      to []]. [g] bounds their number; [value] reads one element. *)
Fixpoint items (value : string -> option (json * string)) (g : nat) (r : string)
    (acc : list json) : option (json * string) :=
    match g with
    | O => None
    | S g' =>
        match value r with
        | Some (v, String "," r') => items value g' r' (acc ++ [v])
        | Some (v, String "]" r') => Some (JArr (acc ++ [v]), r')
        | _ => None
        end
    end.

  (** The members of an object after its [{]: [key:value] pairs separated
      by [,] up to [}]. *)
Fixpoint members (value : string -> option (json * string)) (g : nat) (r : string)
    (acc : list (string * json)) : option (json * string) :=
    match g with
    | O => None
    | S g' =>
        match r with
        | String q r0 =>
            if negb (Ascii.eqb q quote_char) then None else
            match str_body r0 with
            | Some (k, String ":" r1) =>
                match value r1 with
                | Some (v, String "," r') => members value g' r' (acc ++ [(k, v)])
                | Some (v, String "}" r') => Some (JObj (acc ++ [(k, v)]), r')
                | _ => None
                end
            | _ => None
            end
        | _ => None
        end
    end.

Fixpoint value (fuel : nat) (s : string) : option (json * string) :=
    match fuel with
    | O => None
    | S f =>
        match s with
        | String "n" (String "u" (String "l" (String "l" r))) => Some (JNull, r)
        | String "t" (String "r" (String "u" (String "e" r))) => Some (JBool true, r)
        | String "f" (String "a" (String "l" (String "s" (String "e" r)))) =>
            Some (JBool false, r)
        | String "[" (String "]" r) => Some (JArr [], r)
        | String "[" r => items (value f) f r []
        | String "{" (String "}" r) => Some (JObj [], r)
        | String "{" r => members (value f) f r []
        | String q r =>
            if Ascii.eqb q quote_char then
              match str_body r with Some (b, r') => Some (JStr b, r') | None => None end
            else number s
        | EmptyString => None
        end
    end.

  (** The JSON text of a string without escapes, for building inputs. *)
Definition quoted (s : string) : string :=
    String quote_char (s +:+ String quote_char EmptyString).

Definition parse (s : string) : option json :=
    match value (String.length s) s with
    | Some (v, EmptyString) => Some v
    | _ => None
    end.

#[export] Instance mini_json : JsonParse :=
    {| json_parse := parse; json_parse_null := eq_refl |}.

End MiniJson.
