(* ===== verification/Emitter.v ===== *)
(** * Emitter: node's EventEmitter as [src/subscription.js] uses it

    [Subscription.prototype.__proto__ = EventEmitter.prototype] (line 33)
    makes every subscription an emitter. The code uses [once] (line 26) and
    [emit] (lines 45-133); the caller uses [on]. This file models the
    registry of listeners (node's [this._events]) as one list of
    registrations in the order they were added, and [emit] as node's
    dispatch. [emit] takes a snapshot of the listeners of the event. For a
    [once] listener it removes the registration before calling it. It calls
    the listeners in order. With no listener, emitting [error] throws.

    The state that holds the registry is abstract: a class [HasRegistry]
    with its lens laws is the interface between this file and the object
    that inherits from the emitter. *)

From S2P Require Import Prelude.

(** The event names [subscription.js] emits. *)
Inductive name : Type := NPayload | NOp | NError.

#[export] Instance name_eq_dec : EqDecision name.
Proof. solve_decision. Defined.

(** One call of [on(name, fn)] or [once(name, fn)]. *)
Record reg (L : Type) : Type := Reg {
  reg_name : name;
  reg_fn : L;
  reg_once : bool
}.
Arguments Reg {L} reg_name reg_fn reg_once.
Arguments reg_name {L} r.
Arguments reg_fn {L} r.
Arguments reg_once {L} r.

(** The state that carries an emitter's registry. *)
Class HasRegistry (S L : Type) := {
  regs_of : S -> list (reg L);
  set_regs : list (reg L) -> S -> S;
  regs_of_set_regs rs s : regs_of (set_regs rs s) = rs;
  set_regs_regs_of s : set_regs (regs_of s) s = s
}.

Section Registry.
  Context {L : Type} `{EqDecision L}.

  (** [addListener] appends ([on]); [once] appends a registration that
      removes itself when called. *)
Definition on (n : name) (f : L) (rs : list (reg L)) : list (reg L) :=
    rs ++ [Reg n f false].

Definition once (n : name) (f : L) (rs : list (reg L)) : list (reg L) :=
    rs ++ [Reg n f true].

  (** The listeners of one event, in registration order. *)
Definition listeners (n : name) (rs : list (reg L)) : list (reg L) :=
    filter (fun r => reg_name r = n) rs.

  (** [removeListener(n, f)] removes the most recently added registration
      of [f] for [n]. *)
Fixpoint removeListener (n : name) (f : L) (rs : list (reg L)) : list (reg L) :=
    match rs with
    | [] => []
    | r :: rs' =>
        if decide (reg_name r = n /\ reg_fn r = f /\
                   Forall (fun r' => ~ (reg_name r' = n /\ reg_fn r' = f)) rs')
        then rs'
        else r :: removeListener n f rs'
    end.

End Registry.

(** ** Dispatch *)
Section Dispatch.
  Context {L S Ev X : Type} `{EqDecision L} `{HasRegistry S L}.
  (** The event's name, and the exception an unhandled [error] throws. *)
  Context (name_of : Ev -> name) (unhandled : Ev -> X).

  (** Calls the snapshot [rs] in order; a [once] registration is removed
      from the live registry just before its call. *)
Fixpoint dispatch (call : L -> Ev -> S -> res X S) (e : Ev)
      (rs : list (reg L)) (s : S) : res X S :=
    match rs with
    | [] => Ok s
    | r :: rs' =>
        let s1 := if reg_once r
                  then set_regs (removeListener (reg_name r) (reg_fn r) (regs_of s)) s
                  else s in
        s2 <- call (reg_fn r) e s1 ;;
        dispatch call e rs' s2
    end.

  (** [EventEmitter.prototype.emit]: with no listener, an [error] event
      throws and any other event does nothing. *)
Definition emit_with (call : L -> Ev -> S -> res X S) (e : Ev) (s : S) : res X S :=
    match listeners (name_of e) (regs_of s) with
    | [] => if decide (name_of e = NError) then Throw (unhandled e) else Ok s
    | rs => dispatch call e rs s
    end.

End Dispatch.

(** ** Lemmas *)
Section RegistryLemmas.
  Context {L : Type} `{EqDecision L}.

Lemma listeners_app (n : name) (rs1 rs2 : list (reg L)) :
    listeners n (rs1 ++ rs2) = listeners n rs1 ++ listeners n rs2.
  Proof. apply filter_app. Qed.

  (** Removing the only registration of [f] under [n] that comes first. *)
Lemma removeListener_head (n : name) (f : L) (b : bool) (rs : list (reg L)) :
    Forall (fun r' => ~ (reg_name r' = n /\ reg_fn r' = f)) rs ->
    removeListener n f (Reg n f b :: rs) = rs.
  Proof. intros Hrs. simpl. by rewrite decide_True. Qed.
End RegistryLemmas.

#[export] Hint Rewrite @listeners_app : mydb_rw.

Section DispatchLemmas.
  Context {L S Ev X : Type} `{EqDecision L} `{HasRegistry S L}.

Lemma dispatch_cons (call : L -> Ev -> S -> res X S) (e : Ev) (r : reg L)
      (rs : list (reg L)) (s : S) :
    dispatch call e (r :: rs) s =
    (s2 <- call (reg_fn r) e
            (if reg_once r
             then set_regs (removeListener (reg_name r) (reg_fn r) (regs_of s)) s
             else s) ;;
     dispatch call e rs s2).
  Proof. reflexivity. Qed.

Lemma dispatch_app (call : L -> Ev -> S -> res X S) (e : Ev) (rs1 rs2 : list (reg L)) (s : S) :
    dispatch call e (rs1 ++ rs2) s = (s' <- dispatch call e rs1 s ;; dispatch call e rs2 s').
  Proof.
    revert s. induction rs1 as [|r rs1 IH]; intros s; simpl; [done|].
    destruct (call _ _ _); simpl; [apply IH | done].
  Qed.
End DispatchLemmas.
