(* ===== verification/Subscription.v ===== *)
(** * Subscription: the object of [src/subscription.js]

    The Record [subscription] holds the fields of [this] that the code
    reads or writes. It also holds three parts of the outside world that
    the methods act on:
    - whether [this.onMessage] is attached to [server.redisSub]
      ([listening]);
    - the requests sent to redis and mongo whose replies have not arrived
      ([inflight]), in the order they were sent;
    - the events the caller's listeners received ([emitted]).
    Every method is one Definition named after the source. Every
    asynchronous callback is its own Definition ([get_cb], [subscribe_cb],
    [fetch_cb], [unsubscribe_cb]), which the event loop of [EventLoop]
    runs when the reply arrives. A callback that throws returns [Throw].

    The file also proves the functional behaviour of each operation on
    each branch, under the registries the object can have. *)

From S2P Require Import Prelude Json Emitter.
From Stdlib Require Import Ascii.

(** ** Data *)

(** The values of [this.readyState]; [Discoverying] keeps the source's
    spelling. *)
Inductive ready_state : Type :=
| Discoverying | Subscribing | Subscribed | Unsubscribing | Unsubscribed.

#[export] Instance ready_state_eq_dec : EqDecision ready_state.
Proof. solve_decision. Defined.

(** The value passed to [emit('error', _)]. *)
Inductive err : Type :=
| ErrValue (e : string)      (** an error reported by redis or mongo, passed on *)
| ErrNull                    (** the [err] variable of [get]'s catch block: [null] *)
| ErrSyntax (text : string)  (** the SyntaxError of [JSON.parse(message)] *)
| ErrNotFound (msg : string). (** [new Error('Document ... not found')] *)

(** What the emitter's listeners receive. *)
Inductive event : Type :=
| EvPayload (doc : json)
| EvOp (op : json)
| EvError (e : err).

Definition event_name (e : event) : name :=
  match e with
  | EvPayload _ => NPayload
  | EvOp _ => NOp
  | EvError _ => NError
  end.

(** Exceptions that escape a callback. *)
Inductive exn : Type :=
| TypeError (msg : string)
| Unhandled (e : event) (** [emit('error', _)] with no listener: it throws *)
| RangeError.           (** call stack exhausted ([emit] out of fuel) *)

(** Requests sent to the collaborators. *)
Inductive cmd : Type :=
| RedisGet (key : string)
| Subscribe (channel : string)
| Unsubscribe (channel : string)
| FindById (col : jsval) (doc_id : string) (fields : jsval).

(** The listeners that can be registered on the subscription: the replay
    [this.emitOps.bind(this)] and the caller's recording listener. *)
Inductive listener : Type := EmitOps | Caller.

#[export] Instance listener_eq_dec : EqDecision listener.
Proof. solve_decision. Defined.

Record subscription : Type := mkSub {
  id : string;
  readyState : option ready_state;   (** [undefined] before [get()] *)
  oid : jsval;
  fields : jsval;
  col : jsval;
  ops : option (list json);         (** the buffer, [null] after [destroy] *)
  payload : jsval;                  (** the document; [null] after [destroy] *)
  events : list (reg listener);     (** the emitter registry [this._events] *)
  listening : bool;                 (** [this.onMessage] on [server.redisSub] *)
  inflight : list cmd;
  emitted : list event
}.

(** Field updates. *)
Definition set_readyState (r : ready_state) (s : subscription) : subscription :=
  mkSub (id s) (Some r) (oid s) (fields s) (col s) (ops s) (payload s) (events s)
    (listening s) (inflight s) (emitted s).
Definition set_meta (o f c : jsval) (s : subscription) : subscription :=
  mkSub (id s) (readyState s) o f c (ops s) (payload s) (events s)
    (listening s) (inflight s) (emitted s).
Definition set_ops (b : option (list json)) (s : subscription) : subscription :=
  mkSub (id s) (readyState s) (oid s) (fields s) (col s) b (payload s) (events s)
    (listening s) (inflight s) (emitted s).
Definition set_payload (p : jsval) (s : subscription) : subscription :=
  mkSub (id s) (readyState s) (oid s) (fields s) (col s) (ops s) p (events s)
    (listening s) (inflight s) (emitted s).
Definition set_events (rs : list (reg listener)) (s : subscription) : subscription :=
  mkSub (id s) (readyState s) (oid s) (fields s) (col s) (ops s) (payload s) rs
    (listening s) (inflight s) (emitted s).
Definition set_listening (b : bool) (s : subscription) : subscription :=
  mkSub (id s) (readyState s) (oid s) (fields s) (col s) (ops s) (payload s) (events s)
    b (inflight s) (emitted s).
Definition set_inflight (q : list cmd) (s : subscription) : subscription :=
  mkSub (id s) (readyState s) (oid s) (fields s) (col s) (ops s) (payload s) (events s)
    (listening s) q (emitted s).
Definition set_emitted (t : list event) (s : subscription) : subscription :=
  mkSub (id s) (readyState s) (oid s) (fields s) (col s) (ops s) (payload s) (events s)
    (listening s) (inflight s) t.

(** Sending a request. *)
Definition send (c : cmd) (s : subscription) : subscription :=
  set_inflight (inflight s ++ [c]) s.

#[export] Instance subscription_registry : HasRegistry subscription listener.
Proof.
  refine {| regs_of := events; set_regs := set_events |}; by intros; destruct s.
Defined.

(** ** Messages of the exceptions the code can throw *)
Definition null_length : string := "Cannot read properties of null (reading 'length')".
Definition null_push : string := "Cannot read properties of null (reading 'push')".
Definition null_i : string := "Cannot read properties of null (reading 'i')".

(** ** Emitting

    The caller's listener records the event. The replay listener runs
    [emitOps] with the emitter itself. [emit] carries fuel for that
    recursion: the callbacks run it with [emit_fuel], which the
    termination theorems show is enough. *)

(** [emitOps] (lines 130-137). The [for] loop reads [this.ops] and its
    length again at every test [i < this.ops.length]. Its bound is the
    length at entry plus one: the test runs once more after the last op,
    and a listener that nulled [this.ops] makes it throw. *)
Fixpoint emit_ops_loop (emit : event -> subscription -> res exn subscription)
    (bound i : nat) (s : subscription) : res exn subscription :=
  match bound with
  | O => Ok s
  | S b =>
      match ops s with
      | None => Throw (TypeError null_length)
      | Some l =>
          match l !! i with
          | None => Ok s
          | Some o => s' <- emit (EvOp o) s ;; emit_ops_loop emit b (S i) s'
          end
      end
  end.

Definition emitOps (emit : event -> subscription -> res exn subscription)
    (s : subscription) : res exn subscription :=
  match ops s with
  | None => Throw (TypeError null_length)
  | Some [] => Ok s
  | Some l =>
      s' <- emit_ops_loop emit (S (List.length l)) 0 s ;;
      Ok (set_ops (Some []) s')
  end.

Definition record (e : event) (s : subscription) : subscription :=
  set_emitted (emitted s ++ [e]) s.

Definition call_listener (emit : event -> subscription -> res exn subscription)
    (l : listener) (e : event) (s : subscription) : res exn subscription :=
  match l with
  | Caller => Ok (record e s)
  | EmitOps => emitOps emit s
  end.

Fixpoint emit (fuel : nat) (e : event) (s : subscription) : res exn subscription :=
  match fuel with
  | O => Throw RangeError
  | S f => emit_with event_name Unhandled (call_listener (emit f)) e s
  end.

Definition emit_fuel : nat := 2.

Abbreviation js_emit := (emit emit_fuel).

(** ** Methods and callbacks *)

(** [Subscription.prototype.get] (lines 41-44): sets the state and sends
    the redis [GET]. *)
Definition get (s : subscription) : subscription :=
  send (RedisGet (id s)) (set_readyState Discoverying s).

(** [Subscription.prototype.subscribe] (lines 65-74): sets the state,
    sends [SUBSCRIBE] and attaches [this.onMessage] to [server.redisSub]. *)
Definition subscribe (s : subscription) : subscription :=
  let s1 := set_readyState Subscribing s in
  set_listening true (send (Subscribe (id s1)) s1).

(** [Subscription.prototype.fetch] (lines 82-85): [findById(this.id,
    {fields: this.fields})] on the collection [this.col]. *)
Definition fetch (s : subscription) : subscription :=
  send (FindById (col s) (id s) (fields s)) s.

(** The callback of [sub.subscribe] (lines 68-72). *)
Definition subscribe_cb (error : option string) (s : subscription) : res exn subscription :=
  match error with
  | Some e => js_emit (EvError (ErrValue e)) s
  | None => Ok (fetch (set_readyState Subscribed s))
  end.

(** The reply of [findById]: an error, or the document ([null] or
    [undefined] when there is none). *)
Inductive find_reply : Type :=
| FindError (e : string)
| FindDoc (doc : jsval).

(** ['Document "' + self.col + '.' + self.id + '" not found'] *)
Definition not_found_message (s : subscription) : string :=
  "Document " +:+ String quote_char (js_to_string (col s) +:+ "." +:+ id s +:+
  String quote_char " not found").

(** The callback of [findById] (lines 85-95). *)
Definition fetch_cb (r : find_reply) (s : subscription) : res exn subscription :=
  if bool_decide (readyState s <> Some Subscribed) then Ok s else
  match r with
  | FindError e => js_emit (EvError (ErrValue e)) s
  | FindDoc doc =>
      if negb (truthy doc) then js_emit (EvError (ErrNotFound (not_found_message s))) s
      else match doc with
           | Some d => js_emit (EvPayload d) (set_payload doc s)
           | None => Ok s
           end
  end.

(** [Subscription.prototype.destroy] (lines 145-158). *)
Definition destroy (s : subscription) : subscription :=
  if bool_decide (readyState s = Some Subscribing \/ readyState s = Some Subscribed) then
    let s1 := set_payload (Some JNull) (set_ops None (set_readyState Unsubscribing s)) in
    set_listening false (send (Unsubscribe (id s1)) s1)
  else s.

(** The callback of [sub.unsubscribe] (lines 151-154). *)
Definition unsubscribe_cb (error : option string) (s : subscription) : res exn subscription :=
  match error with
  | Some e => js_emit (EvError (ErrValue e)) s
  | None => Ok (set_readyState Unsubscribed s)
  end.

(** The constructor (lines 17-27): [this.get()], [this.ops = []], then
    [this.once('payload', this.emitOps.bind(this))]. *)
Definition Subscription (sid : string) : subscription :=
  let s1 := get (mkSub sid None None None None None None [] false [] []) in
  let s2 := set_ops (Some []) s1 in
  set_events (once NPayload EmitOps (events s2)) s2.

(** The reference for [emitOps]: emit each buffered op in order, then
    empty the buffer. *)
Fixpoint emit_all (emit : event -> subscription -> res exn subscription)
    (l : list json) (s : subscription) : res exn subscription :=
  match l with
  | [] => Ok s
  | o :: l' => s' <- emit (EvOp o) s ;; emit_all emit l' s'
  end.

(** The caller ([open(id)] in the spec): constructs the subscription and
    attaches its [payload], [op] and [error] listeners. *)
Definition open_subscription (sid : string) : subscription :=
  let s := Subscription sid in
  set_events (on NError Caller (on NOp Caller (on NPayload Caller (events s)))) s.

(** ** The code that calls [JSON.parse]

    It is generic in the parser, through the interface [JsonParse]. *)
Section WithParser.
  Context `{JsonParse}.

(** The callback of [redis.get] (lines 44-56). [JSON.parse(data)] parses
    [String(data)]; its result is not used. The fields are then read from
    [data] itself, the raw reply. *)
Definition get_cb (error : option string) (data : option string) (s : subscription)
    : res exn subscription :=
  match error with
  | Some e => js_emit (EvError (ErrValue e)) s
  | None =>
      match json_parse (match data with Some d => d | None => "null" end) with
      | None => js_emit (EvError ErrNull) s
      | Some _ =>
          match data with
          | None => Throw (TypeError null_i)
          | Some d =>
              Ok (subscribe (set_meta (string_prop d "i")
                                      (js_or (string_prop d "f") (Some (JObj [])))
                                      (string_prop d "c") s))
          end
      end
  end.

(** [Subscription.prototype.onMessage] (lines 104-122). *)
Definition onMessage (channel message : string) (s : subscription) : res exn subscription :=
  if bool_decide (id s = channel) then
    match json_parse message with
    | None => js_emit (EvError (ErrSyntax message)) s
    | Some obj =>
        if truthy (payload s) then js_emit (EvOp obj) s
        else match ops s with
             | Some l => Ok (set_ops (Some (l ++ [obj])) s)
             | None => Throw (TypeError null_push)
             end
    end
  else Ok s.

End WithParser.

(** ** The registries the object can have

    After [open_subscription], the registry is [regs_open]: the replay
    listener, then the caller's three listeners. Once the replay listener
    has run, it is [regs_caller]. *)
Definition regs_caller : list (reg listener) :=
  [Reg NPayload Caller false; Reg NOp Caller false; Reg NError Caller false].

Definition regs_open : list (reg listener) := Reg NPayload EmitOps true :: regs_caller.

(** The [op] and [error] listeners of a registry are the caller's alone. *)
Definition caller_only (rs : list (reg listener)) : Prop :=
  listeners NOp rs = [Reg NOp Caller false] /\ listeners NError rs = [Reg NError Caller false].

(** ** Lemmas on field updates *)

Lemma set_emitted_same s : set_emitted (emitted s) s = s.
Proof. by destruct s. Qed.

Lemma set_emitted_record t e s : set_emitted t (record e s) = set_emitted t s.
Proof. by destruct s. Qed.

Lemma set_ops_same s l : ops s = Some l -> set_ops (Some l) s = s.
Proof. destruct s; simpl; by intros ->. Qed.

#[export] Hint Rewrite set_emitted_same set_emitted_record : mydb_rw.

Lemma listeners_payload_open :
  listeners NPayload regs_open = [Reg NPayload EmitOps true; Reg NPayload Caller false].
Proof. reflexivity. Qed.

Lemma removeListener_open : removeListener NPayload EmitOps regs_open = regs_caller.
Proof. reflexivity. Qed.

Lemma caller_only_open : caller_only regs_open.
Proof. split; reflexivity. Qed.

Lemma caller_only_caller : caller_only regs_caller.
Proof. split; reflexivity. Qed.

#[export] Hint Resolve caller_only_open caller_only_caller : mydb.

(** ** Emitting to the caller *)

Lemma emit_S f e s :
  emit (S f) e s = emit_with event_name Unhandled (call_listener (emit f)) e s.
Proof. reflexivity. Qed.

(** An event whose only listener is the caller's is recorded. *)
Lemma emit_caller f e s :
  listeners (event_name e) (events s) = [Reg (event_name e) Caller false] ->
  emit (S f) e s = Ok (record e s).
Proof. intros H. simpl. unfold emit_with. cbn [regs_of subscription_registry]. by rewrite H. Qed.

Lemma emit_op f o s : caller_only (events s) -> emit (S f) (EvOp o) s = Ok (record (EvOp o) s).
Proof. intros [H _]. by apply emit_caller. Qed.

Lemma emit_error f x s :
  caller_only (events s) -> emit (S f) (EvError x) s = Ok (record (EvError x) s).
Proof. intros [_ H]. by apply emit_caller. Qed.

(** The replay loop delivers the rest of the buffer from index [i]. *)
Lemma emit_ops_loop_caller f k i s l :
  caller_only (events s) -> ops s = Some l -> List.length l <= i + k ->
  emit_ops_loop (emit (S f)) k i s = Ok (set_emitted (emitted s ++ map EvOp (drop i l)) s).
Proof.
  revert i s. induction k as [|k IH]; intros i s Hc Hops Hlen; cbn [emit_ops_loop].
  - by rewrite drop_ge, app_nil_r, set_emitted_same by lia.
  - rewrite Hops. destruct (l !! i) as [o|] eqn:Hi.
    + rewrite emit_op, res_bind_ok by done. rewrite IH by (simpl; done || lia).
      rewrite set_emitted_record. cbn [emitted record set_emitted].
      by rewrite (drop_S _ _ _ Hi), <- app_assoc.
    + apply lookup_ge_None_1 in Hi.
      by rewrite drop_ge, app_nil_r, set_emitted_same by lia.
Qed.

(** ** The replay loop *)

Lemma emit_ops_loop_all (em : event -> subscription -> res exn subscription) k i s l :
  (forall e s s', em e s = Ok s' -> ops s' = ops s) ->
  ops s = Some l -> List.length l <= i + k ->
  emit_ops_loop em k i s = emit_all em (drop i l) s.
Proof.
  intros Hem. revert i s. induction k as [|k IH]; intros i s Hops Hlen; cbn [emit_ops_loop].
  - by rewrite drop_ge by lia.
  - rewrite Hops. destruct (l !! i) as [o|] eqn:Hi.
    + rewrite (drop_S _ _ _ Hi). simpl. destruct (em (EvOp o) s) as [s'|x] eqn:He; [|done].
      simpl. apply IH; [rewrite (Hem _ _ _ He); done | lia].
    + apply lookup_ge_None_1 in Hi. by rewrite drop_ge by lia.
Qed.

(** C13 (equivalence). The indexed [for] loop of [emitOps] (lines
    130-137), which reads [this.ops[i]] at each iteration, behaves like
    the reference [emit_all]: it emits the buffered ops in FIFO order and
    then empties the buffer, provided that emitting an op leaves the
    buffer alone. *)
Theorem emitOps_reference (em : event -> subscription -> res exn subscription) s l :
  (forall e s s', em e s = Ok s' -> ops s' = ops s) ->
  ops s = Some l ->
  emitOps em s = (s' <- emit_all em l s ;; Ok (set_ops (Some []) s')).
Proof.
  intros Hem Hops. unfold emitOps. rewrite Hops. destruct l as [|o l].
  - simpl. by rewrite set_ops_same.
  - by rewrite (emit_ops_loop_all em _ 0 s (o :: l)) by (done || lia).
Qed.

(** [emitOps] with the caller's [op] listener. *)
Lemma emitOps_caller f s l :
  caller_only (events s) -> ops s = Some l ->
  emitOps (emit (S f)) s = Ok (set_ops (Some []) (set_emitted (emitted s ++ map EvOp l) s)).
Proof.
  intros Hc Hops. unfold emitOps. rewrite Hops. destruct l as [|o l].
  - by rewrite app_nil_r, set_emitted_same, set_ops_same.
  - by rewrite emit_ops_loop_caller with (l := o :: l) by (done || simpl; lia).
Qed.

(** Emitting [payload] with the registry [regs_open]: the replay listener
    removes itself and delivers the buffer, then the caller gets the
    document. *)
Lemma emit_payload_open f d s l :
  events s = regs_open -> ops s = Some l ->
  emit (S (S f)) (EvPayload d) s =
  Ok (record (EvPayload d)
        (set_ops (Some []) (set_emitted (emitted s ++ map EvOp l) (set_events regs_caller s)))).
Proof.
  intros Hev Hops. rewrite emit_S. unfold emit_with. cbn [regs_of subscription_registry].
  rewrite Hev. cbn [event_name]. rewrite listeners_payload_open, !dispatch_cons.
  cbn [reg_once reg_fn reg_name regs_of set_regs subscription_registry].
  rewrite Hev, removeListener_open. cbn [call_listener].
  rewrite emitOps_caller with (l := l) by (done || by destruct s).
  rewrite !res_bind_ok. by destruct s.
Qed.

(** Emitting [payload] after [destroy] cleared the buffer: the replay
    listener throws on [this.ops.length]. *)
Lemma emit_payload_destroyed f d s :
  events s = regs_open -> ops s = None ->
  emit (S f) (EvPayload d) s = Throw (TypeError null_length).
Proof.
  intros Hev Hops. rewrite emit_S. unfold emit_with. cbn [regs_of subscription_registry].
  rewrite Hev. cbn [event_name]. rewrite listeners_payload_open, dispatch_cons.
  cbn [reg_once reg_fn reg_name regs_of set_regs subscription_registry call_listener].
  unfold emitOps. by destruct s; cbn in *; subst.
Qed.

(** ** The fetch callback *)

Lemma fetch_cb_subscribed r s :
  readyState s = Some Subscribed ->
  fetch_cb r s =
  match r with
  | FindError e => js_emit (EvError (ErrValue e)) s
  | FindDoc doc =>
      if negb (truthy doc) then js_emit (EvError (ErrNotFound (not_found_message s))) s
      else match doc with
           | Some d => js_emit (EvPayload d) (set_payload doc s)
           | None => Ok s
           end
  end.
Proof. intros H. unfold fetch_cb. rewrite bool_decide_false; [done|]. rewrite H. by intros Hne. Qed.

(** C3 (functional; spec divergence). When the document arrives, the
    caller's [op] listener receives every buffered op, in order, BEFORE
    its [payload] listener receives the document. The replay listener
    [once('payload', emitOps)] is registered in the constructor, ahead of
    any listener of the caller, and [emit] calls listeners in
    registration order. Afterwards the buffer is empty and the replay
    listener is gone. The spec (section 4.1) promises [payload] first,
    then the ops. *)
Theorem fetch_cb_ops_before_payload s l d :
  readyState s = Some Subscribed -> events s = regs_open -> ops s = Some l ->
  truthy (Some d) = true ->
  exists s', fetch_cb (FindDoc (Some d)) s = Ok s' /\
    emitted s' = emitted s ++ map EvOp l ++ [EvPayload d] /\
    payload s' = Some d /\ ops s' = Some [] /\ events s' = regs_caller.
Proof.
  intros Hrs Hev Hops Hd. rewrite fetch_cb_subscribed by done. rewrite Hd. simpl negb. cbv iota.
  unfold emit_fuel. rewrite emit_payload_open with (l := l) by (done || by destruct s).
  eexists; split; [reflexivity|]. simpl. by rewrite <- app_assoc.
Qed.

(** C16 (safety). A fetch reply that arrives when the state is no longer
    [subscribed] is dropped: nothing is emitted and nothing changes. *)
Theorem fetch_cb_stale r s : readyState s <> Some Subscribed -> fetch_cb r s = Ok s.
Proof. intros H. unfold fetch_cb. by rewrite bool_decide_true. Qed.

(** C20 (error). A fetch that finds no document emits exactly one
    [error] event, with the not-found message, and nothing else: no
    [payload], no change of [readyState] (the code has no failed state),
    the buffer is kept. *)
Theorem fetch_cb_not_found s doc :
  readyState s = Some Subscribed -> caller_only (events s) -> truthy doc = false ->
  fetch_cb (FindDoc doc) s = Ok (record (EvError (ErrNotFound (not_found_message s))) s).
Proof.
  intros Hrs Hc Hd. rewrite fetch_cb_subscribed by done. rewrite Hd. simpl negb. cbv iota.
  unfold emit_fuel. by apply emit_error.
Qed.

(** ** [destroy] *)

(** C17 (functional). [destroy] is idempotent: a second call does nothing. *)
Theorem destroy_idempotent s : destroy (destroy s) = destroy s.
Proof.
  unfold destroy.
  destruct (decide (readyState s = Some Subscribing \/ readyState s = Some Subscribed)) as [H|H].
  - rewrite (bool_decide_true _ H). rewrite bool_decide_false; [done|]. simpl. naive_solver.
  - by rewrite !(bool_decide_false _ H).
Qed.

(** C18 (functional). From [subscribing] or [subscribed], [destroy] moves to
    [unsubscribing], sets the buffer and the payload to [null], sends
    [UNSUBSCRIBE] for the channel and detaches the message listener. It
    emits nothing and keeps the emitter registry. *)
Theorem destroy_teardown s :
  readyState s = Some Subscribing \/ readyState s = Some Subscribed ->
  readyState (destroy s) = Some Unsubscribing /\ ops (destroy s) = None /\
  payload (destroy s) = Some JNull /\ listening (destroy s) = false /\
  inflight (destroy s) = inflight s ++ [Unsubscribe (id s)] /\
  emitted (destroy s) = emitted s /\ events (destroy s) = events s /\ id (destroy s) = id s.
Proof. intros H. unfold destroy. rewrite bool_decide_true by done. by destruct s. Qed.

(** C19 (functional). In every other state, [discoverying] included,
    [destroy] does nothing (spec section 9 calls the [discoverying] case a
    known limitation). *)
Theorem destroy_noop s :
  ~ (readyState s = Some Subscribing \/ readyState s = Some Subscribed) -> destroy s = s.
Proof. intros H. unfold destroy. by rewrite bool_decide_false. Qed.

(** ** The callbacks that parse JSON *)
Section ParserLemmas.
  Context `{JsonParse}.

  (** [data.i], [data.f] and [data.c] on a string are [undefined]. *)
Lemma string_prop_meta d :
    string_prop d "i" = None /\ string_prop d "f" = None /\ string_prop d "c" = None.
  Proof. split_and!; reflexivity. Qed.

  (** C21 (functional; defect). When the redis reply parses, [get]'s
      callback never uses the parsed metadata: whatever the reply holds,
      [oid] and [col] become [undefined] and [fields] becomes [{}],
      because the fields are read from the raw string [data] instead of
      the parsed [obj]. It then subscribes. *)
Theorem get_cb_ignores_metadata s d v :
    json_parse d = Some v ->
    get_cb None (Some d) s = Ok (subscribe (set_meta None (Some (JObj [])) None s)).
  Proof.
    intros Hp. unfold get_cb. rewrite Hp.
    by destruct (string_prop_meta d) as (-> & -> & ->).
  Qed.

  (** C22 (error; defect). A key that is missing in redis ([data] is
      [null]) makes the callback throw: [JSON.parse(null)] succeeds with
      [null], then [data.i] reads a property of [null]. No [error] event
      is emitted. *)
Theorem get_cb_missing_key s : get_cb None None s = Throw (TypeError null_i).
  Proof. unfold get_cb. by rewrite json_parse_null. Qed.

  (** C23 (error; defect). When the metadata does not parse, the [error]
      event carries [null], the [err] of the enclosing callback, and not
      the SyntaxError that was caught. *)
Theorem get_cb_parse_error s d :
    json_parse d = None -> caller_only (events s) ->
    get_cb None (Some d) s = Ok (record (EvError ErrNull) s).
  Proof. intros Hp Hc. unfold get_cb. rewrite Hp. by apply emit_error. Qed.

  (** C14 (safety). A message on another channel of the shared connection
      is ignored: nothing is emitted and nothing changes. *)
Theorem onMessage_foreign_channel s ch m : id s <> ch -> onMessage ch m s = Ok s.
  Proof. intros Hne. unfold onMessage. by rewrite bool_decide_false. Qed.

  (** C15 (functional). A message on the subscription's channel that
      parses is buffered at the end of [this.ops] while there is no
      payload, and delivered to the caller's [op] listener once there is
      one. *)
Theorem onMessage_own s m o l :
    json_parse m = Some o -> caller_only (events s) -> ops s = Some l ->
    onMessage (id s) m s =
    Ok (if truthy (payload s) then record (EvOp o) s else set_ops (Some (l ++ [o])) s).
  Proof.
    intros Hp Hc Hops. unfold onMessage. rewrite bool_decide_true, Hp by done.
    destruct (truthy (payload s)); [by apply emit_op | by rewrite Hops].
  Qed.

  (** C24 (error; spec divergence). A message that does not parse emits an
      [error] event and changes nothing else. The subscription goes on,
      so a second bad message emits a second [error]. The spec says
      [error] fires at most once and ends the stream. *)
Theorem onMessage_parse_error s m :
    json_parse m = None -> caller_only (events s) ->
    onMessage (id s) m s = Ok (record (EvError (ErrSyntax m)) s).
  Proof.
    intros Hp Hc. unfold onMessage. rewrite bool_decide_true, Hp by done.
    by apply emit_error.
  Qed.
End ParserLemmas.

(** ** What [emit] can change

    Whatever the fuel, [emit] on a registry of the object only records
    events, empties the buffer (replay) and drops the replay listener. *)

Lemma listeners_open_op : listeners NOp regs_open = [Reg NOp Caller false].
Proof. reflexivity. Qed.
Lemma listeners_open_error : listeners NError regs_open = [Reg NError Caller false].
Proof. reflexivity. Qed.
Lemma listeners_caller_payload : listeners NPayload regs_caller = [Reg NPayload Caller false].
Proof. reflexivity. Qed.
Lemma listeners_caller_op : listeners NOp regs_caller = [Reg NOp Caller false].
Proof. reflexivity. Qed.
Lemma listeners_caller_error : listeners NError regs_caller = [Reg NError Caller false].
Proof. reflexivity. Qed.

#[export] Hint Rewrite listeners_payload_open listeners_open_op listeners_open_error
  listeners_caller_payload listeners_caller_op listeners_caller_error : mydb_rw.

Section EmitInvariant.
  Variable Q : subscription -> Prop.
  Hypothesis Q_record : forall e s, Q s -> Q (record e s).
  Hypothesis Q_clear : forall s, Q s -> Q (set_ops (Some []) s).
  Hypothesis Q_drop_replay : forall s, Q s -> events s = regs_open -> Q (set_events regs_caller s).
  Hypothesis Q_regs : forall s, Q s -> events s = regs_open \/ events s = regs_caller.

Lemma emit_ops_loop_inv em k i s s' :
    (forall o s s', Q s -> em (EvOp o) s = Ok s' -> Q s') ->
    Q s -> emit_ops_loop em k i s = Ok s' -> Q s'.
  Proof.
    intros Hem. revert i s. induction k as [|k IH]; intros i s Hq Hl; cbn [emit_ops_loop] in Hl.
    - by injection Hl as <-.
    - destruct (ops s) as [l|]; [|discriminate]. destruct (l !! i) as [o|].
      + res_inv. eauto.
      + by injection Hl as <-.
  Qed.

Lemma emitOps_inv em s s' :
    (forall o s s', Q s -> em (EvOp o) s = Ok s' -> Q s') ->
    Q s -> emitOps em s = Ok s' -> Q s'.
  Proof.
    intros Hem Hq He. unfold emitOps in He. destruct (ops s) as [[|o l]|]; try discriminate.
    - by injection He as <-.
    - res_inv. eauto using emit_ops_loop_inv.
  Qed.

Lemma emit_inv f e s s' : Q s -> emit f e s = Ok s' -> Q s'.
  Proof.
    revert e s s'. induction f as [|f IH]; intros e s s' Hq He; [discriminate|].
    rewrite emit_S in He. unfold emit_with in He. cbn [regs_of subscription_registry] in He.
    destruct (Q_regs s Hq) as [Hr|Hr]; rewrite Hr in He;
      destruct e; cbn [event_name] in He; autorewrite with mydb_rw in He;
      rewrite ?dispatch_cons in He; cbn [dispatch reg_once reg_fn reg_name] in He; res_inv;
      cbn [call_listener] in *; res_inv; auto.
    cbn [regs_of set_regs subscription_registry] in Ha. rewrite Hr, removeListener_open in Ha.
    apply Q_record. eapply emitOps_inv; [|apply Q_drop_replay; eauto|exact Ha].
    intros o s1 s2 Hq1 He1. eauto.
  Qed.
End EmitInvariant.

(** The bound on the emitter's recursion: on the
    registries the object can have, any fuel of at least 2 gives the same
    result as [emit_fuel], and with [emit_fuel] the dispatch never runs
    out ([RangeError]). *)
Theorem emit_fuel_enough f e s :
  events s = regs_open \/ events s = regs_caller ->
  emit (S (S f)) e s = js_emit e s /\ js_emit e s <> Throw RangeError.
Proof.
  unfold emit_fuel. intros [Hr|Hr].
  - destruct e as [d|o|x].
    + destruct (ops s) as [l|] eqn:Hops.
      * by rewrite !emit_payload_open with (l := l).
      * by rewrite !emit_payload_destroyed.
    + rewrite !emit_op by (rewrite Hr; auto with mydb). done.
    + rewrite !emit_error by (rewrite Hr; auto with mydb). done.
  - destruct e as [d|o|x]; rewrite !emit_caller by (by rewrite Hr); done.
Qed.

(** ** Witnesses

    Each theorem with hypotheses applied to a concrete object: a
    subscription on [doc1] in [subscribed] with two buffered ops, whose
    fetch is in flight; JSON is parsed by [MiniJson]. *)
Import MiniJson.

Lemma fetch_cb_ops_before_payload_witness :
  let s := mkSub "doc1" (Some Subscribed) None (Some (JObj [])) None (Some [JNum 1; JNum 2])
             None regs_open true [] [] in
  let d := JObj [("name", JStr "x")] in
  readyState s = Some Subscribed /\ events s = regs_open /\ ops s = Some [JNum 1; JNum 2] /\
  truthy (Some d) = true /\
  exists s', fetch_cb (FindDoc (Some d)) s = Ok s' /\
    emitted s' = emitted s ++ map EvOp [JNum 1; JNum 2] ++ [EvPayload d] /\
    payload s' = Some d /\ ops s' = Some [] /\ events s' = regs_caller.
Proof.
  intros s d. split_and!; try reflexivity.
  apply fetch_cb_ops_before_payload; reflexivity.
Defined.

Lemma emitOps_reference_witness :
  let s := mkSub "doc1" (Some Subscribed) None (Some (JObj [])) None (Some [JNum 1; JNum 2])
             None regs_open true [] [] in
  let em : event -> subscription -> res exn subscription := fun e t => Ok (record e t) in
  (forall e t t', em e t = Ok t' -> ops t' = ops t) /\ ops s = Some [JNum 1; JNum 2] /\
  emitOps em s = (s' <- emit_all em [JNum 1; JNum 2] s ;; Ok (set_ops (Some []) s')).
Proof.
  intros s em.
  assert (Hem : forall e t t', em e t = Ok t' -> ops t' = ops t) by (intros e t t' [= <-]; by destruct t).
  split_and!; [exact Hem | reflexivity | apply emitOps_reference; [exact Hem | reflexivity]].
Defined.

Lemma fetch_cb_stale_witness :
  let s := mkSub "doc1" (Some Unsubscribing) None (Some (JObj [])) None None (Some JNull)
             regs_open false [Unsubscribe "doc1"] [] in
  readyState s <> Some Subscribed /\ fetch_cb (FindDoc (Some (JObj []))) s = Ok s.
Proof. intros s. split; [discriminate | apply fetch_cb_stale; discriminate]. Defined.

Lemma fetch_cb_not_found_witness :
  let s := mkSub "doc1" (Some Subscribed) None (Some (JObj [])) None (Some []) None
             regs_open true [] [] in
  readyState s = Some Subscribed /\ caller_only (events s) /\ truthy None = false /\
  fetch_cb (FindDoc None) s = Ok (record (EvError (ErrNotFound (not_found_message s))) s) /\
  not_found_message s = "Document " +:+ quoted "undefined.doc1" +:+ " not found".
Proof.
  intros s. split; [reflexivity|]. split; [exact caller_only_open|]. split; [reflexivity|].
  split.
  - apply fetch_cb_not_found; [reflexivity | exact caller_only_open | reflexivity].
  - vm_compute. reflexivity.
Defined.

Lemma destroy_teardown_witness :
  let s := mkSub "doc1" (Some Subscribed) None (Some (JObj [])) None (Some []) None
             regs_open true [] [] in
  (readyState s = Some Subscribing \/ readyState s = Some Subscribed) /\
  readyState (destroy s) = Some Unsubscribing /\ ops (destroy s) = None /\
  payload (destroy s) = Some JNull /\ listening (destroy s) = false /\
  inflight (destroy s) = inflight s ++ [Unsubscribe (id s)] /\
  emitted (destroy s) = emitted s /\ events (destroy s) = events s /\ id (destroy s) = id s.
Proof. intros s. split; [right; reflexivity | apply destroy_teardown; right; reflexivity]. Defined.

Lemma destroy_noop_witness :
  let s := mkSub "doc1" (Some Discoverying) None None None (Some []) None
             regs_open false [RedisGet "doc1"] [] in
  ~ (readyState s = Some Subscribing \/ readyState s = Some Subscribed) /\ destroy s = s.
Proof.
  intros s. assert (H : ~ (readyState s = Some Subscribing \/ readyState s = Some Subscribed))
    by (simpl; intros [[=] | [=]]).
  split; [exact H | apply destroy_noop; exact H].
Defined.

Lemma get_cb_ignores_metadata_witness :
  let s := Subscription "doc1" in
  let meta := "{" +:+ quoted "i" +:+ ":" +:+ quoted "doc1" +:+ "," +:+ quoted "c" +:+ ":" +:+
              quoted "users" +:+ "}" in
  json_parse meta = Some (JObj [("i", JStr "doc1"); ("c", JStr "users")]) /\
  get_cb None (Some meta) s = Ok (subscribe (set_meta None (Some (JObj [])) None s)).
Proof.
  intros s meta. split; [vm_compute; reflexivity|].
  apply (get_cb_ignores_metadata s meta (JObj [("i", JStr "doc1"); ("c", JStr "users")])).
  vm_compute. reflexivity.
Defined.

Lemma get_cb_parse_error_witness :
  let s := open_subscription "doc1" in
  json_parse "{i:1}" = None /\ caller_only (events s) /\
  get_cb None (Some "{i:1}") s = Ok (record (EvError ErrNull) s).
Proof.
  intros s. split; [reflexivity|]. split; [exact caller_only_open|].
  apply get_cb_parse_error; [reflexivity | exact caller_only_open].
Defined.

Lemma onMessage_foreign_channel_witness :
  let s := open_subscription "doc1" in
  id s <> "doc2" /\ onMessage "doc2" "1" s = Ok s.
Proof.
  intros s. assert (H : id s <> "doc2") by (simpl; discriminate).
  split; [exact H | apply onMessage_foreign_channel; exact H].
Defined.

Lemma onMessage_own_witness :
  let s := mkSub "doc1" (Some Subscribed) None (Some (JObj [])) None (Some [JNum 1]) None
             regs_open true [] [] in
  json_parse "2" = Some (JNum 2) /\ caller_only (events s) /\ ops s = Some [JNum 1] /\
  onMessage (id s) "2" s =
  Ok (if truthy (payload s) then record (EvOp (JNum 2)) s else set_ops (Some ([JNum 1] ++ [JNum 2])) s).
Proof.
  intros s. split; [reflexivity|]. split; [exact caller_only_open|]. split; [reflexivity|].
  apply onMessage_own; [reflexivity | exact caller_only_open | reflexivity].
Defined.

Lemma onMessage_parse_error_witness :
  let s := mkSub "doc1" (Some Subscribed) None (Some (JObj [])) None (Some []) (Some (JObj []))
             regs_caller true [] [EvError (ErrSyntax "{")] in
  json_parse "{" = None /\ caller_only (events s) /\
  onMessage (id s) "{" s = Ok (record (EvError (ErrSyntax "{")) s).
Proof.
  intros s. split; [reflexivity|]. split; [exact caller_only_caller|].
  apply onMessage_parse_error; [reflexivity | exact caller_only_caller].
Defined.

