(* ===== verification/EventLoop.v ===== *)
(** * EventLoop: one subscription driven by the node event loop

    All the code of [src/subscription.js] runs on one thread. Each reply
    from redis or mongo, each published message and each call of
    [destroy()] by the caller is a separate turn of the loop. Such a turn
    runs one callback to completion. [input] lists these turns. [enabled]
    conditions are built into [step]: a reply arrives only for a request
    in flight. Replies on the pub/sub connection come in the order their
    commands were sent ([pubsub_head]). A message arrives only while
    [this.onMessage] is attached. [step] returns [None] for an input that
    cannot arrive. [exec] runs a sequence of inputs from a state and stops
    at the first exception (the process dies). [reachable] is the set of
    states [exec] reaches from [open_subscription].

    The theorems here hold for every interleaving: replay completeness,
    the shape of every fetch request, quiescence after [destroy], the
    crash when a subscribe ack follows [destroy], and the emitter's fuel
    bound. *)

From S2P Require Import Prelude Json Emitter Subscription.

(** The turns of the event loop. *)
Inductive input : Type :=
| GetReply (error : option string) (data : option string)  (** [redis.get] callback *)
| SubscribeReply (error : option string)                   (** [sub.subscribe] callback *)
| UnsubscribeReply (error : option string)                 (** [sub.unsubscribe] callback *)
| FindReply (r : find_reply)                               (** [findById] callback *)
| Message (channel body : string)                          (** ['message'] on [redisSub] *)
| Destroy.                                                 (** the caller calls [destroy()] *)

Definition is_get (c : cmd) : bool := match c with RedisGet _ => true | _ => false end.
Definition is_find (c : cmd) : bool := match c with FindById _ _ _ => true | _ => false end.
Definition is_pubsub (c : cmd) : bool :=
  match c with Subscribe _ | Unsubscribe _ => true | _ => false end.

(** The oldest command on the pub/sub connection: the next one redis
    answers there. *)
Definition pubsub_head (q : list cmd) : option cmd := List.find is_pubsub q.

Fixpoint remove_first (p : cmd -> bool) (q : list cmd) : list cmd :=
  match q with
  | [] => []
  | c :: q' => if p c then q' else c :: remove_first p q'
  end.

(** The reply to the oldest request of a kind has arrived. *)
Definition complete (p : cmd -> bool) (s : subscription) : subscription :=
  set_inflight (remove_first p (inflight s)) s.

Section Loop.
  Context `{JsonParse}.

Definition step (s : subscription) (i : input) : option (res exn subscription) :=
    match i with
    | GetReply e d =>
        if existsb is_get (inflight s) then Some (get_cb e d (complete is_get s)) else None
    | SubscribeReply e =>
        match pubsub_head (inflight s) with
        | Some (Subscribe _) => Some (subscribe_cb e (complete is_pubsub s))
        | _ => None
        end
    | UnsubscribeReply e =>
        match pubsub_head (inflight s) with
        | Some (Unsubscribe _) => Some (unsubscribe_cb e (complete is_pubsub s))
        | _ => None
        end
    | FindReply r =>
        if existsb is_find (inflight s) then Some (fetch_cb r (complete is_find s)) else None
    | Message ch m => if listening s then Some (onMessage ch m s) else None
    | Destroy => Some (Ok (destroy s))
    end.

Fixpoint exec (s : subscription) (ins : list input) : option (res exn subscription) :=
    match ins with
    | [] => Some (Ok s)
    | i :: ins' =>
        match step s i with
        | Some (Ok s') => exec s' ins'
        | Some (Throw x) => Some (Throw x)
        | None => None
        end
    end.

Inductive reachable : subscription -> Prop :=
  | reachable_open sid : reachable (open_subscription sid)
  | reachable_step s i s' : reachable s -> step s i = Some (Ok s') -> reachable s'.

  (** The parsed bodies of the messages on channel [sid], in arrival
      order. *)
Definition accepted (sid : string) (ins : list input) : list json :=
    omap (fun i => match i with
                   | Message ch m => if bool_decide (ch = sid) then json_parse m else None
                   | _ => None
                   end) ins.
End Loop.

(** What the caller's [op] listener received, and what is still buffered. *)
Definition delivered (s : subscription) : list json :=
  omap (fun e => match e with EvOp o => Some o | _ => None end) (emitted s).

Definition buffered (s : subscription) : list json := default [] (ops s).

(** The invariant of a subscription that has not been destroyed: the
    buffer is an array, and either no payload has arrived and the replay
    listener is still registered, or the payload has arrived, the buffer
    is empty and the replay listener is gone. *)
Definition live (s : subscription) : Prop :=
  exists l, ops s = Some l /\
    ((truthy (payload s) = false /\ events s = regs_open) \/
     (truthy (payload s) = true /\ l = [] /\ events s = regs_caller)).

Definition obs (s : subscription) : list json := delivered s ++ buffered s.

(** The updates that leave the buffer, the payload, the registry, the
    emitted events and the id alone. *)
Definition same_view (s s' : subscription) : Prop :=
  ops s' = ops s /\ payload s' = payload s /\ events s' = events s /\
  emitted s' = emitted s /\ id s' = id s.

(** A subscription that can no longer move: still [discoverying], with
    nothing in flight and no ['message'] listener. *)
Definition dead (s : subscription) : Prop :=
  readyState s = Some Discoverying /\ inflight s = [] /\ listening s = false.

(** ** Lemmas on the view of a state *)

Lemma omap_EvOp (l : list json) :
  omap (fun e => match e with EvOp o => Some o | _ => None end) (map EvOp l) = l.
Proof. induction l as [|o l IH]; [done|]. cbn. f_equal. exact IH. Qed.

Ltac frame := unfold same_view; destruct_and?; repeat split; cbn; congruence.

Lemma js_emit_error x s :
  caller_only (events s) -> js_emit (EvError x) s = Ok (record (EvError x) s).
Proof. exact (emit_error 1 x s). Qed.

Lemma js_emit_op o s :
  caller_only (events s) -> js_emit (EvOp o) s = Ok (record (EvOp o) s).
Proof. exact (emit_op 1 o s). Qed.

Lemma live_caller_only s : live s -> caller_only (events s).
Proof. intros (l & _ & [[_ ->] | (_ & _ & ->)]); auto with mydb. Qed.

Lemma live_same_view s s' :
  same_view s s' -> live s -> live s' /\ obs s' = obs s /\ id s' = id s.
Proof.
  intros (Ho & Hp & He & Hem & Hid). unfold live, obs, delivered, buffered.
  rewrite Ho, Hp, He, Hem, Hid. auto.
Qed.

Lemma live_record_error x s :
  live s -> live (record (EvError x) s) /\ obs (record (EvError x) s) = obs s /\
  id (record (EvError x) s) = id s.
Proof.
  intros Hl. unfold obs, delivered, buffered. destruct s; cbn. rewrite omap_app, app_nil_r.
  auto.
Qed.

Lemma same_view_complete p s : same_view s (complete p s).
Proof. by destruct s. Qed.

#[export] Hint Resolve same_view_complete : mydb.

(** ** Each callback keeps a live subscription live *)

Section LiveCallbacks.
  Context `{JsonParse}.

Lemma get_cb_live e d s s' :
    live s -> get_cb e d s = Ok s' -> live s' /\ obs s' = obs s /\ id s' = id s.
  Proof.
    intros Hl Hcb. pose proof (live_caller_only _ Hl) as Hc. unfold get_cb in Hcb.
    destruct e as [e|].
    { rewrite js_emit_error in Hcb by done. res_inv. by apply live_record_error. }
    destruct (json_parse _) as [v|].
    - destruct d as [d|]; [|discriminate]. res_inv.
      apply live_same_view; [frame | done].
    - rewrite js_emit_error in Hcb by done. res_inv. by apply live_record_error.
  Qed.

Lemma subscribe_cb_live e s s' :
    live s -> subscribe_cb e s = Ok s' -> live s' /\ obs s' = obs s /\ id s' = id s.
  Proof.
    intros Hl Hcb. unfold subscribe_cb in Hcb. destruct e as [e|].
    - rewrite js_emit_error in Hcb by (by apply live_caller_only). res_inv.
      by apply live_record_error.
    - res_inv. apply live_same_view; [frame | done].
  Qed.

Lemma unsubscribe_cb_live e s s' :
    live s -> unsubscribe_cb e s = Ok s' -> live s' /\ obs s' = obs s /\ id s' = id s.
  Proof.
    intros Hl Hcb. unfold unsubscribe_cb in Hcb. destruct e as [e|].
    - rewrite js_emit_error in Hcb by (by apply live_caller_only). res_inv.
      by apply live_record_error.
    - res_inv. apply live_same_view; [frame | done].
  Qed.

Lemma fetch_cb_live r s s' :
    live s -> fetch_cb r s = Ok s' -> live s' /\ obs s' = obs s /\ id s' = id s.
  Proof.
    intros Hl Hcb. pose proof (live_caller_only _ Hl) as Hc. unfold fetch_cb in Hcb.
    case_bool_decide; [res_inv; done|].
    destruct r as [e|doc].
    { rewrite js_emit_error in Hcb by done. res_inv. by apply live_record_error. }
    destruct (truthy doc) eqn:Hd; simpl negb in Hcb; cbv iota in Hcb.
    2: { rewrite js_emit_error in Hcb by done. res_inv. by apply live_record_error. }
    destruct doc as [d|]; [|discriminate].
    destruct Hl as (l & Hops & [[_ Hev] | (_ & -> & Hev)]); unfold emit_fuel in Hcb.
    - rewrite emit_payload_open with (l := l) in Hcb by (done || by destruct s). res_inv.
      unfold live, obs, delivered, buffered. destruct s; cbn in *; subst.
      rewrite app_nil_r, !omap_app, omap_EvOp. cbn. rewrite app_nil_r.
      split; [exists []; split; [done | right; auto] | done].
    - rewrite emit_caller in Hcb by (cbn; by rewrite Hev). res_inv.
      unfold live, obs, delivered, buffered. destruct s; cbn in *; subst.
      rewrite omap_app. cbn. rewrite !app_nil_r.
      split; [exists []; split; [done | right; auto] | done].
  Qed.

Lemma onMessage_live ch m s s' :
    live s -> onMessage ch m s = Ok s' ->
    live s' /\ obs s' = obs s ++ accepted (id s) [Message ch m] /\ id s' = id s.
  Proof.
    intros Hl Hcb. pose proof (live_caller_only _ Hl) as Hc. unfold onMessage in Hcb.
    unfold accepted. cbn [omap list_omap]. case_bool_decide as Hch; subst.
    2: { res_inv. rewrite bool_decide_false by congruence. by rewrite app_nil_r. }
    rewrite bool_decide_true by done. destruct (json_parse m) as [o|].
    - destruct Hl as (l & Hops & [[Hp Hev] | (Hp & -> & Hev)]); rewrite Hp in Hcb.
      + rewrite Hops in Hcb. res_inv. unfold live, obs, delivered, buffered.
        destruct s; cbn in *; subst. split; [eauto|]. by rewrite <- app_assoc.
      + rewrite js_emit_op in Hcb by done. res_inv. unfold live, obs, delivered, buffered.
        destruct s; cbn in *; subst. rewrite omap_app. cbn. rewrite !app_nil_r.
        split; [exists []; split; [done | right; auto] | done].
    - rewrite js_emit_error in Hcb by done. res_inv. rewrite app_nil_r.
      by apply live_record_error.
  Qed.
End LiveCallbacks.

(** ** Replay completeness *)
Section Replay.
  Context `{JsonParse}.

Lemma live_complete p s :
    live s -> live (complete p s) /\ obs (complete p s) = obs s /\ id (complete p s) = id s.
  Proof. apply live_same_view, same_view_complete. Qed.

Lemma accepted_cons sid i ins : accepted sid (i :: ins) = accepted sid [i] ++ accepted sid ins.
  Proof. apply (omap_app _ [i] ins). Qed.

  (** One turn of the loop, other than [destroy], keeps a live
      subscription live and appends to [obs] the op the turn accepted. *)
Lemma step_live s i s' :
    live s -> i <> Destroy -> step s i = Some (Ok s') ->
    live s' /\ obs s' = obs s ++ accepted (id s) [i] /\ id s' = id s.
  Proof.
    intros Hl Hi Hs. destruct i as [e d|e|e|r|ch m|]; simpl in Hs.
    - destruct (existsb _ _); [|discriminate]. injection Hs as Hs.
      destruct (live_complete is_get s Hl) as (Hl1 & Ho1 & Hi1).
      destruct (get_cb_live _ _ _ _ Hl1 Hs) as (? & ? & ?).
      rewrite app_nil_r. split_and!; congruence.
    - destruct (pubsub_head _) as [[]|]; try discriminate. injection Hs as Hs.
      destruct (live_complete is_pubsub s Hl) as (Hl1 & Ho1 & Hi1).
      destruct (subscribe_cb_live _ _ _ Hl1 Hs) as (? & ? & ?).
      rewrite app_nil_r. split_and!; congruence.
    - destruct (pubsub_head _) as [[]|]; try discriminate. injection Hs as Hs.
      destruct (live_complete is_pubsub s Hl) as (Hl1 & Ho1 & Hi1).
      destruct (unsubscribe_cb_live _ _ _ Hl1 Hs) as (? & ? & ?).
      rewrite app_nil_r. split_and!; congruence.
    - destruct (existsb _ _); [|discriminate]. injection Hs as Hs.
      destruct (live_complete is_find s Hl) as (Hl1 & Ho1 & Hi1).
      destruct (fetch_cb_live _ _ _ Hl1 Hs) as (? & ? & ?).
      rewrite app_nil_r. split_and!; congruence.
    - destruct (listening s); [|discriminate]. injection Hs as Hs.
      by apply onMessage_live.
    - done.
  Qed.

Lemma exec_live s ins s' :
    live s -> Destroy ∉ ins -> exec s ins = Some (Ok s') ->
    live s' /\ obs s' = obs s ++ accepted (id s) ins /\ id s' = id s.
  Proof.
    revert s. induction ins as [|i ins IH]; intros s Hl Hd Hx; simpl in Hx.
    - injection Hx as <-. by rewrite app_nil_r.
    - apply not_elem_of_cons in Hd as [Hi Hd].
      destruct (step s i) as [[s1|x]|] eqn:Hs; try discriminate.
      destruct (step_live _ _ _ Hl (not_eq_sym Hi) Hs) as (Hl1 & Ho1 & Hi1).
      destruct (IH _ Hl1 Hd Hx) as (? & Ho2 & ?).
      rewrite accepted_cons, Ho2, Ho1, Hi1, app_assoc. split_and!; congruence.
  Qed.

Lemma live_open sid : live (open_subscription sid).
  Proof. exists []. split; [done|]. left. done. Qed.

  (** C1 (invariant). Replay completeness: under every interleaving of
      replies and messages without [destroy], the ops the caller's [op]
      listener has received, followed by the ops still buffered, are
      exactly the parsed bodies of the messages published on the
      subscription's channel, in arrival order. No op is dropped,
      duplicated or reordered, whenever the document arrives (or if it
      never does). *)
Theorem replay_complete sid ins s :
    exec (open_subscription sid) ins = Some (Ok s) -> Destroy ∉ ins ->
    delivered s ++ buffered s = accepted sid ins.
  Proof.
    intros Hx Hd. destruct (exec_live _ _ _ (live_open sid) Hd Hx) as (_ & Ho & _).
    exact Ho.
  Qed.
End Replay.

(** ** Witnesses

    JSON is parsed by [MiniJson]. *)
Import MiniJson.

Lemma replay_complete_witness :
  let ins := [GetReply None (Some "{}"); Message "doc1" "1"; SubscribeReply None;
              Message "doc2" "7"; Message "doc1" "2"; FindReply (FindDoc (Some (JObj [])));
              Message "doc1" "3"] in
  let s := match exec (open_subscription "doc1") ins with
           | Some (Ok s) => s | _ => open_subscription "doc1" end in
  exec (open_subscription "doc1") ins = Some (Ok s) /\ (Destroy ∉ ins) /\
  delivered s ++ buffered s = accepted "doc1" ins.
Proof.
  intros ins s.
  assert (Hx : exec (open_subscription "doc1") ins = Some (Ok s)) by (vm_compute; reflexivity).
  assert (Hd : Destroy ∉ ins) by (rewrite list_elem_of_In; simpl; intuition discriminate).
  split_and!; [exact Hx | exact Hd | exact (replay_complete "doc1" ins s Hx Hd)].
Defined.

(** ** After a failed metadata lookup *)
Section MetadataError.
  Context `{JsonParse}.

  (** No input changes a dead subscription: no reply can arrive, no
      message either, and [destroy] is a no-op in [discoverying]. *)
Lemma step_dead s i r : dead s -> step s i = Some r -> r = Ok s.
  Proof.
    intros (Hrs & Hq & Hl) Hs. destruct i; cbn in Hs; rewrite ?Hq, ?Hl in Hs; try done.
    injection Hs as <-. unfold destroy. rewrite bool_decide_false; [done|]. rewrite Hrs. intros [?|?]; discriminate.
  Qed.

Lemma exec_dead s ins s' : dead s -> exec s ins = Some (Ok s') -> s' = s.
  Proof.
    intros Hd. induction ins as [|i ins IH]; intros Hx; cbn in Hx; [by injection Hx as <-|].
    destruct (step s i) as [r|] eqn:Hs; [|done]. rewrite (step_dead s i r Hd Hs) in Hx. exact (IH Hx).
  Qed.

  (** The redis [GET] fails: the caller's [error] listener is called. *)
Lemma step_get_error sid e d :
    step (open_subscription sid) (GetReply (Some e) d) =
    Some (Ok (record (EvError (ErrValue e)) (complete is_get (open_subscription sid)))).
  Proof. unfold step. simpl existsb. cbv iota. unfold get_cb. f_equal. Qed.

  (** C26 (error). Scenario C of the spec, for every id, error and later
      inputs: when the metadata lookup fails, the caller receives exactly
      one [error]. The subscription stays [discoverying] with nothing in
      flight and no listener. Whatever arrives afterwards (replies,
      messages, [destroy()]), the state does not change. The spec asks for
      a single [error] and no other transition. *)
Theorem metadata_error_terminal sid e d ins s :
    exec (open_subscription sid) (GetReply (Some e) d :: ins) = Some (Ok s) ->
    emitted s = [EvError (ErrValue e)] /\ readyState s = Some Discoverying /\
    inflight s = [] /\ listening s = false.
  Proof.
    intros Hx. cbn [exec] in Hx. rewrite step_get_error in Hx.
    assert (Hd : dead (record (EvError (ErrValue e)) (complete is_get (open_subscription sid))))
      by (split_and!; reflexivity).
    apply (exec_dead _ _ _ Hd) in Hx. subst s. split_and!; reflexivity.
  Qed.
End MetadataError.

(** ** Witness *)

Lemma metadata_error_terminal_witness :
  exec (open_subscription "doc1")
    [GetReply (Some "ECONNREFUSED") None; Message "doc1" "1"; Destroy; FindReply (FindDoc None)] = None /\
  exec (open_subscription "doc1") [GetReply (Some "ECONNREFUSED") None; Destroy; Destroy] =
    Some (Ok (record (EvError (ErrValue "ECONNREFUSED")) (complete is_get (open_subscription "doc1")))) /\
  emitted (record (EvError (ErrValue "ECONNREFUSED")) (complete is_get (open_subscription "doc1"))) =
    [EvError (ErrValue "ECONNREFUSED")] /\
  readyState (record (EvError (ErrValue "ECONNREFUSED")) (complete is_get (open_subscription "doc1"))) =
    Some Discoverying /\
  inflight (record (EvError (ErrValue "ECONNREFUSED")) (complete is_get (open_subscription "doc1"))) = [] /\
  listening (record (EvError (ErrValue "ECONNREFUSED")) (complete is_get (open_subscription "doc1"))) = false.
Proof.
  assert (Hx : exec (open_subscription "doc1") [GetReply (Some "ECONNREFUSED") None; Destroy; Destroy] =
    Some (Ok (record (EvError (ErrValue "ECONNREFUSED")) (complete is_get (open_subscription "doc1")))))
    by (vm_compute; reflexivity).
  split_and!; [vm_compute; reflexivity | exact Hx | ..];
    [exact (proj1 (metadata_error_terminal "doc1" "ECONNREFUSED" None [Destroy; Destroy] _ Hx))
    | exact (proj1 (proj2 (metadata_error_terminal "doc1" "ECONNREFUSED" None [Destroy; Destroy] _ Hx)))
    | exact (proj1 (proj2 (proj2 (metadata_error_terminal "doc1" "ECONNREFUSED" None [Destroy; Destroy] _ Hx))))
    | exact (proj2 (proj2 (proj2 (metadata_error_terminal "doc1" "ECONNREFUSED" None [Destroy; Destroy] _ Hx))))].
Defined.
