(* ===== verification/Lifecycle.v ===== *)
(** * Lifecycle: the state machine of a subscription

    This file proves invariants of every state reachable from
    [open_subscription] under the event loop of [EventLoop]:
    - [phase_inv] relates [readyState] to the requests in flight. In
      [discoverying] only the redis [GET] is pending. The pub/sub
      connection carries at most one [SUBSCRIBE], and it comes before any
      [UNSUBSCRIBE]. Once [discoverying] is left, [fields] is [{}]. [col]
      and [oid] stay [undefined]. Every [findById] request names the
      subscription id.
    - [lifecycle] lists the transitions of [readyState] the code can make.
      It includes the late subscribe ack that moves [unsubscribing] back
      to [subscribed].
    The theorems built on them: the shape of every fetch request, the
    allowed transitions, that [unsubscribed] is terminal, that nothing but
    errors is emitted after [destroy] in [subscribed], and the crash when
    [destroy] comes while the subscribe ack is pending. *)

From S2P Require Import Prelude Json Emitter Subscription EventLoop.

Definition is_unsub (c : cmd) : bool := match c with Unsubscribe _ => true | _ => false end.

(** The pub/sub commands in flight, oldest first. *)
Definition pubsub_cmds (q : list cmd) : list cmd := List.filter is_pubsub q.

(** The pub/sub commands allowed in each state. *)
Definition pubsub_ok (sid : string) (rs : option ready_state) (p : list cmd) : Prop :=
  match rs with
  | Some Discoverying => p = []
  | Some Subscribing => p = [] \/ p = [Subscribe sid]
  | Some Subscribed | Some Unsubscribed => Forall (fun c => c = Unsubscribe sid) p
  | Some Unsubscribing =>
      Forall (fun c => c = Unsubscribe sid) p \/
      exists p', p = Subscribe sid :: p' /\ Forall (fun c => c = Unsubscribe sid) p'
  | None => False
  end.

(** The registries the object can have. *)
Definition regs_ok (s : subscription) : Prop :=
  events s = regs_open \/ events s = regs_caller.

(** The only fetch request the code can send for [sid]. *)
Definition fetch_request (sid : string) : cmd := FindById None sid (Some (JObj [])).

Definition phase_inv (s : subscription) : Prop :=
  pubsub_ok (id s) (readyState s) (pubsub_cmds (inflight s)) /\
  (readyState s = Some Discoverying -> inflight s = [RedisGet (id s)] \/ inflight s = []) /\
  (readyState s <> Some Discoverying ->
     Forall (fun c => is_get c = false) (inflight s) /\ fields s = Some (JObj [])) /\
  Forall (fun c => is_find c = true -> c = fetch_request (id s)) (inflight s) /\
  col s = None /\ oid s = None /\ regs_ok s.

(** The transitions of [readyState]. *)
Inductive lifecycle : option ready_state -> option ready_state -> Prop :=
| lc_stay r : lifecycle r r
| lc_discovered : lifecycle (Some Discoverying) (Some Subscribing)
| lc_acked : lifecycle (Some Subscribing) (Some Subscribed)
| lc_destroy_subscribing : lifecycle (Some Subscribing) (Some Unsubscribing)
| lc_destroy_subscribed : lifecycle (Some Subscribed) (Some Unsubscribing)
| lc_unsubscribed : lifecycle (Some Unsubscribing) (Some Unsubscribed)
  (** a subscribe ack that arrives after [destroy] (defect) *)
| lc_late_ack : lifecycle (Some Unsubscribing) (Some Subscribed)
  (** the unsubscribe ack that follows a late subscribe ack *)
| lc_late_unsubscribed : lifecycle (Some Subscribed) (Some Unsubscribed).

(** The fields that only the lifecycle changes. *)
Definition keeps (s s' : subscription) : Prop :=
  id s' = id s /\ readyState s' = readyState s /\ oid s' = oid s /\ fields s' = fields s /\
  col s' = col s /\ listening s' = listening s /\ inflight s' = inflight s.

(** The state after [destroy]: nothing but errors can follow. *)
Definition quiet (s : subscription) : Prop :=
  listening s = false /\
  (readyState s = Some Unsubscribing \/ readyState s = Some Unsubscribed) /\
  Forall (fun c => is_find c = true \/ is_unsub c = true) (inflight s) /\ regs_ok s.

Definition is_error_event (e : event) : Prop := match e with EvError _ => True | _ => False end.

(** ** Frames: what each callback keeps *)

Ltac unfold_frames := unfold keeps, regs_ok in *.

Lemma keeps_refl s : keeps s s.
Proof. unfold keeps. tauto. Qed.

Lemma keeps_trans s1 s2 s3 : keeps s1 s2 -> keeps s2 s3 -> keeps s1 s3.
Proof. unfold keeps. intuition congruence. Qed.

#[export] Hint Resolve keeps_refl : mydb.

Lemma emit_keeps f e s s' : regs_ok s -> emit f e s = Ok s' -> keeps s s' /\ regs_ok s'.
Proof.
  intros Hr He. refine (emit_inv (fun t => keeps s t /\ regs_ok t) _ _ _ _ f e s s' _ He).
  - intros e' t [Hk Hr']. unfold_frames. destruct t; cbn in *; tauto.
  - intros t [Hk Hr']. unfold_frames. destruct t; cbn in *; tauto.
  - intros t [Hk _] _. unfold_frames. destruct t; cbn in *; tauto.
  - by intros t [_ Hr'].
  - auto with mydb.
Qed.

Section Callbacks.
  Context `{JsonParse}.

Lemma get_cb_cases e d s s' :
    regs_ok s -> get_cb e d s = Ok s' ->
    (keeps s s' /\ regs_ok s') \/ s' = subscribe (set_meta None (Some (JObj [])) None s).
  Proof.
    intros Hr Hcb. unfold get_cb in Hcb. destruct e as [e|]; [left; eauto using emit_keeps|].
    destruct (json_parse _); [|left; eauto using emit_keeps].
    destruct d as [d|]; [|discriminate]. right. res_inv.
    by destruct (string_prop_meta d) as (-> & -> & ->).
  Qed.

Lemma subscribe_cb_cases e s s' :
    regs_ok s -> subscribe_cb e s = Ok s' ->
    (keeps s s' /\ regs_ok s') \/ s' = fetch (set_readyState Subscribed s).
  Proof.
    intros Hr Hcb. unfold subscribe_cb in Hcb. destruct e as [e|]; [left; eauto using emit_keeps|].
    right. by res_inv.
  Qed.

Lemma unsubscribe_cb_cases e s s' :
    regs_ok s -> unsubscribe_cb e s = Ok s' ->
    (keeps s s' /\ regs_ok s') \/ s' = set_readyState Unsubscribed s.
  Proof.
    intros Hr Hcb. unfold unsubscribe_cb in Hcb. destruct e as [e|]; [left; eauto using emit_keeps|].
    right. by res_inv.
  Qed.

Lemma fetch_cb_keeps r s s' : regs_ok s -> fetch_cb r s = Ok s' -> keeps s s' /\ regs_ok s'.
  Proof.
    intros Hr Hcb. unfold fetch_cb in Hcb. case_bool_decide; [res_inv; auto with mydb|].
    destruct r as [e|doc]; [eauto using emit_keeps|].
    destruct (negb (truthy doc)); [eauto using emit_keeps|].
    destruct doc as [d|]; [|res_inv; auto with mydb].
    apply emit_keeps in Hcb as [Hk Hr']; [|by destruct s].
    split; [|done]. eapply keeps_trans; [|exact Hk]. unfold keeps. by destruct s.
  Qed.

Lemma onMessage_keeps ch m s s' :
    regs_ok s -> onMessage ch m s = Ok s' -> keeps s s' /\ regs_ok s'.
  Proof.
    intros Hr Hcb. unfold onMessage in Hcb. case_bool_decide; [|res_inv; auto with mydb].
    destruct (json_parse m); [|eauto using emit_keeps].
    destruct (truthy (payload s)); [eauto using emit_keeps|].
    destruct (ops s); [|discriminate]. res_inv. unfold_frames. by destruct s.
  Qed.
End Callbacks.

(** ** The queue of pub/sub commands *)

Lemma pubsub_cmds_app q q' : pubsub_cmds (q ++ q') = pubsub_cmds q ++ pubsub_cmds q'.
Proof. unfold pubsub_cmds. by rewrite List.filter_app. Qed.

Lemma pubsub_head_cmds q : pubsub_head q = head (pubsub_cmds q).
Proof. induction q as [|c q IH]; [done|]. simpl. by destruct (is_pubsub c). Qed.

Lemma pubsub_cmds_remove_pubsub q :
  pubsub_cmds (remove_first is_pubsub q) = tail (pubsub_cmds q).
Proof. induction q as [|c q IH]; [done|]. simpl. destruct (is_pubsub c) eqn:E; simpl; by rewrite ?E. Qed.

Lemma pubsub_cmds_remove_other p q :
  (forall c, p c = true -> is_pubsub c = false) ->
  pubsub_cmds (remove_first p q) = pubsub_cmds q.
Proof.
  intros Hp. induction q as [|c q IH]; [done|]. simpl.
  destruct (p c) eqn:E; simpl.
  - by rewrite (Hp c E).
  - unfold pubsub_cmds in *. simpl. by rewrite IH.
Qed.

Lemma Forall_remove_first (P : cmd -> Prop) p q : Forall P q -> Forall P (remove_first p q).
Proof. induction 1 as [|c q Hc Hq IH]; simpl; [constructor|]. destruct (p c); auto. Qed.

#[export] Hint Resolve Forall_remove_first : mydb.
#[export] Hint Rewrite pubsub_cmds_app pubsub_cmds_remove_pubsub : mydb_rw.

Lemma is_get_not_pubsub c : is_get c = true -> is_pubsub c = false.
Proof. by destruct c. Qed.

Lemma is_find_not_pubsub c : is_find c = true -> is_pubsub c = false.
Proof. by destruct c. Qed.

(** ** The phase invariant *)

Lemma phase_keeps s s' : phase_inv s -> keeps s s' -> regs_ok s' -> phase_inv s'.
Proof.
  intros (H1 & H2 & H3 & H4 & H5 & H6 & _) (Hid & Hrs & Hoid & Hf & Hc & _ & Hq) Hr.
  unfold phase_inv. rewrite Hid, Hrs, Hoid, Hf, Hc, Hq. tauto.
Qed.

Lemma phase_open sid : phase_inv (open_subscription sid).
Proof.
  unfold phase_inv. cbn. split_and!; auto; try (intros; congruence); try by left.
  repeat constructor. done.
Qed.

Lemma existsb_Forall_false (p : cmd -> bool) q :
  existsb p q = true -> ~ Forall (fun c => p c = false) q.
Proof.
  intros Hx Hf. apply existsb_exists in Hx as (c & Hin & Hc).
  rewrite List.Forall_forall in Hf. rewrite (Hf c Hin) in Hc. discriminate.
Qed.

(** Closes the goals of [phase_inv] on a concrete state. *)
Ltac phase_close :=
  split_and!; auto;
  try match goal with
  | |- _ <> _ -> _ => let H := fresh in intros H; try (exfalso; congruence)
  end;
  try split_and!; try congruence; try (by left); try (by right);
  repeat constructor; try done.

Section PhaseSteps.
  Context `{JsonParse}.

Lemma phase_get_reply s e d s' :
    phase_inv s -> existsb is_get (inflight s) = true ->
    get_cb e d (complete is_get s) = Ok s' -> phase_inv s'.
  Proof.
    intros Hp Hg Hcb. pose proof Hp as (_ & Hdisc & Hnd & _ & Hcol & Hoid & Hr).
    destruct (decide (readyState s = Some Discoverying)) as [Hrs|Hne];
      [|by destruct (existsb_Forall_false _ _ Hg (proj1 (Hnd Hne)))].
    destruct (Hdisc Hrs) as [Hq|Hq]; [|by rewrite Hq in Hg].
    apply get_cb_cases in Hcb as [[Hk Hr']| ->]; [| |by destruct s].
    - eapply phase_keeps; [|exact Hk|exact Hr']. unfold phase_inv, regs_ok in *.
      destruct s; cbn in *; subst. phase_close.
    - unfold phase_inv, regs_ok in *. destruct s; cbn in *; subst. phase_close.
  Qed.

  (** The pub/sub queue when the subscribe ack is next. *)
Lemma pubsub_subscribe_next s x :
    pubsub_ok (id s) (readyState s) (pubsub_cmds (inflight s)) ->
    head (pubsub_cmds (inflight s)) = Some (Subscribe x) ->
    (readyState s = Some Subscribing /\ pubsub_cmds (inflight s) = [Subscribe (id s)]) \/
    (readyState s = Some Unsubscribing /\ exists p',
       pubsub_cmds (inflight s) = Subscribe (id s) :: p' /\ Forall (fun c => c = Unsubscribe (id s)) p').
  Proof.
    unfold pubsub_ok. destruct (pubsub_cmds (inflight s)) as [|c p]; [done|].
    intros Hok [= ->]. destruct (readyState s) as [[]|]; try done.
    - destruct Hok as [[=]|[= -> ->]]. by left.
    - by apply Forall_cons_1 in Hok as [? _].
    - destruct Hok as [Hf|(p' & [= -> ->] & Hf)].
      + by apply Forall_cons_1 in Hf as [? _].
      + right. eauto.
    - by apply Forall_cons_1 in Hok as [? _].
  Qed.

  (** The pub/sub queue when an unsubscribe ack is next. *)
Lemma pubsub_unsubscribe_next s x :
    pubsub_ok (id s) (readyState s) (pubsub_cmds (inflight s)) ->
    head (pubsub_cmds (inflight s)) = Some (Unsubscribe x) ->
    (readyState s = Some Subscribed \/ readyState s = Some Unsubscribing \/
     readyState s = Some Unsubscribed) /\
    Forall (fun c => c = Unsubscribe (id s)) (pubsub_cmds (inflight s)).
  Proof.
    unfold pubsub_ok. destruct (pubsub_cmds (inflight s)) as [|c p]; [done|].
    intros Hok [= ->]. destruct (readyState s) as [[]|]; try done.
    - by destruct Hok as [[=]|[=]].
    - auto.
    - destruct Hok as [Hf|(p' & [= ] & _)]. auto.
    - auto.
  Qed.

Lemma phase_subscribe_reply s e x s' :
    phase_inv s -> pubsub_head (inflight s) = Some (Subscribe x) ->
    subscribe_cb e (complete is_pubsub s) = Ok s' -> phase_inv s'.
  Proof.
    intros (Hps & Hdisc & Hnd & Hfind & Hcol & Hoid & Hr) Hh Hcb. rewrite pubsub_head_cmds in Hh.
    destruct (pubsub_subscribe_next s x Hps Hh) as [[Hrs Hp]|(Hrs & p' & Hp & Hf)];
    (destruct (Hnd ltac:(by rewrite Hrs)) as [Hng Hfields]);
    (apply subscribe_cb_cases in Hcb as [[Hk Hr']| ->]; [eapply phase_keeps; [|exact Hk|exact Hr']| |by destruct s]);
    unfold phase_inv, complete, fetch, send; cbn; rewrite ?pubsub_cmds_app, pubsub_cmds_remove_pubsub, Hp;
    cbn; rewrite ?Hrs, ?app_nil_r; split_and!; auto with mydb; try congruence;
    try (apply Forall_app; split; auto with mydb; repeat constructor; cbn; congruence).
    all: try (unfold pubsub_ok; by left).
    all: try (intros _; split; [apply Forall_app; split; [auto with mydb | repeat constructor] | done]).
    all: apply Forall_app; split; [auto with mydb|].
    all: constructor; [intros _; unfold fetch_request; by rewrite Hcol, Hfields | constructor].
  Qed.

Lemma phase_unsubscribe_reply s e x s' :
    phase_inv s -> pubsub_head (inflight s) = Some (Unsubscribe x) ->
    unsubscribe_cb e (complete is_pubsub s) = Ok s' -> phase_inv s'.
  Proof.
    intros (Hps & Hdisc & Hnd & Hfind & Hcol & Hoid & Hr) Hh Hcb. rewrite pubsub_head_cmds in Hh.
    destruct (pubsub_unsubscribe_next s x Hps Hh) as [Hrs Hf].
    assert (Hne : readyState s <> Some Discoverying) by (intros E; rewrite E in Hrs; naive_solver).
    destruct (Hnd Hne) as [Hng Hfields].
    assert (Hf' : Forall (fun c => c = Unsubscribe (id s)) (tail (pubsub_cmds (inflight s)))).
    { destruct (pubsub_cmds (inflight s)); [done|]. by apply Forall_cons_1 in Hf as [_ ?]. }
    apply unsubscribe_cb_cases in Hcb as [[Hk Hr']| ->]; [eapply phase_keeps; [|exact Hk|exact Hr']| |by destruct s];
    unfold phase_inv, complete; cbn; rewrite pubsub_cmds_remove_pubsub;
    split_and!; auto with mydb; try congruence.
    unfold pubsub_ok. destruct Hrs as [-> | [-> | ->]]; auto.
  Qed.

Lemma phase_find_reply s r s' :
    phase_inv s -> fetch_cb r (complete is_find s) = Ok s' -> phase_inv s'.
  Proof.
    intros Hp Hcb. pose proof Hp as (Hps & Hdisc & Hnd & Hfind & Hcol & Hoid & Hr).
    apply fetch_cb_keeps in Hcb as [Hk Hr']; [|by destruct s].
    eapply phase_keeps; [|exact Hk|exact Hr']. unfold phase_inv, complete; cbn.
    rewrite (pubsub_cmds_remove_other _ _ is_find_not_pubsub).
    split_and!; auto with mydb.
    - intros Hrs. destruct (Hdisc Hrs) as [-> | ->]; auto.
    - intros Hrs. destruct (Hnd Hrs). auto with mydb.
  Qed.

Lemma phase_message s ch m s' : phase_inv s -> onMessage ch m s = Ok s' -> phase_inv s'.
  Proof.
    intros Hp Hcb. pose proof Hp as (_ & _ & _ & _ & _ & _ & Hr).
    apply onMessage_keeps in Hcb as [Hk Hr']; [|done]. by eapply phase_keeps.
  Qed.

Lemma phase_destroy s : phase_inv s -> phase_inv (destroy s).
  Proof.
    intros Hp. unfold destroy. case_bool_decide as Hrs; [|done].
    destruct Hp as (Hps & Hdisc & Hnd & Hfind & Hcol & Hoid & Hr).
    assert (Hne : readyState s <> Some Discoverying) by (intros E; rewrite E in Hrs; naive_solver).
    destruct (Hnd Hne) as [Hng Hfields].
    unfold phase_inv, regs_ok, send; cbn. rewrite pubsub_cmds_app. cbn.
    split_and!; try congruence; [| | |exact Hr].
    - unfold pubsub_ok in *. destruct Hrs as [Hrs | Hrs]; rewrite Hrs in Hps.
      + destruct Hps as [-> | ->]; [left | right; eexists; split; [done|]]; repeat constructor.
      + left. apply Forall_app. split; [done | repeat constructor].
    - intros _. split; [apply Forall_app; split; [done | repeat constructor] | done].
    - apply Forall_app. split; [done|]. constructor; [by intros | constructor].
  Qed.

Lemma phase_step s i s' : phase_inv s -> step s i = Some (Ok s') -> phase_inv s'.
  Proof.
    intros Hp Hs. destruct i as [e d|e|e|r|ch m|]; simpl in Hs.
    - destruct (existsb _ _) eqn:Hg; [|done]. injection Hs as Hs. by eapply phase_get_reply.
    - destruct (pubsub_head _) as [[]|] eqn:Hh; try done. injection Hs as Hs.
      by eapply phase_subscribe_reply.
    - destruct (pubsub_head _) as [[]|] eqn:Hh; try done. injection Hs as Hs.
      by eapply phase_unsubscribe_reply.
    - destruct (existsb _ _); [|done]. injection Hs as Hs. by eapply phase_find_reply.
    - destruct (listening s); [|done]. injection Hs as Hs. by eapply phase_message.
    - injection Hs as <-. by apply phase_destroy.
  Qed.

Lemma reachable_phase s : reachable s -> phase_inv s.
  Proof. induction 1; eauto using phase_open, phase_step. Qed.
End PhaseSteps.

(** ** Helpers for the lifecycle theorems *)

Lemma regs_ok_caller_only s : regs_ok s -> caller_only (events s).
Proof. intros [-> | ->]; auto with mydb. Qed.

Lemma pubsub_head_in q c : pubsub_head q = Some c -> c ∈ q.
Proof. intros Hf. apply List.find_some in Hf as [Hin _]. by apply list_elem_of_In. Qed.

Lemma pubsub_head_app q q' c : pubsub_head q = Some c -> pubsub_head (q ++ q') = Some c.
Proof.
  induction q as [|c' q IH]; [done|]. simpl. destruct (is_pubsub c'); [done|]. exact IH.
Qed.

Lemma existsb_app_r (p : cmd -> bool) q c : p c = true -> existsb p (q ++ [c]) = true.
Proof. intros Hc. rewrite existsb_app. simpl. rewrite Hc. apply orb_true_r. Qed.

(** In [subscribed], every request in flight is a fetch or an
    unsubscribe. *)
Lemma finds_and_unsubs sid q :
  Forall (fun c => is_get c = false) q -> Forall (fun c => c = Unsubscribe sid) (pubsub_cmds q) ->
  Forall (fun c => is_find c = true \/ is_unsub c = true) q.
Proof.
  induction q as [|c q IH]; intros Hg Hp; [constructor|].
  apply Forall_cons_1 in Hg as [Hc Hg]. unfold pubsub_cmds in Hp. simpl in Hp.
  destruct c; simpl in *; try discriminate.
  - apply Forall_cons_1 in Hp as [[=] _].
  - apply Forall_cons_1 in Hp as [_ Hp]. constructor; auto.
  - constructor; auto.
Qed.

Section Quiet.
  Context `{JsonParse}.

Lemma quiet_step s i r :
    quiet s -> step s i = Some r ->
    exists s', r = Ok s' /\ quiet s' /\
      exists errs, emitted s' = emitted s ++ errs /\ Forall is_error_event errs.
  Proof.
    intros (Hl & Hrs & Hq & Hr) Hs. destruct i as [e d|e|e|rep|ch m|]; simpl in Hs.
    - destruct (existsb _ _) eqn:Hg; [|done]. exfalso.
      apply existsb_exists in Hg as (c & Hin & Hc). rewrite List.Forall_forall in Hq.
      destruct (Hq c Hin) as [Hf|Hu]; destruct c; discriminate.
    - destruct (pubsub_head _) as [[]|] eqn:Hh; try done. exfalso.
      apply pubsub_head_in in Hh. rewrite Forall_forall in Hq. by destruct (Hq _ Hh).
    - destruct (pubsub_head _) as [[]|] eqn:Hh; try done. injection Hs as <-.
      unfold unsubscribe_cb. destruct e as [e|].
      + rewrite js_emit_error by (apply regs_ok_caller_only; by destruct s).
        eexists; split; [done|]. split.
        * unfold quiet, regs_ok. destruct s; cbn in *. split_and!; auto with mydb.
        * exists [EvError (ErrValue e)]. split; [by destruct s | repeat constructor].
      + eexists; split; [done|]. split.
        * unfold quiet, regs_ok. destruct s; cbn in *. split_and!; auto with mydb.
        * exists []. split; [by destruct s; cbn; rewrite app_nil_r | constructor].
    - destruct (existsb _ _); [|done]. injection Hs as <-.
      unfold fetch_cb. rewrite bool_decide_true by (destruct s; cbn in *; naive_solver).
      eexists; split; [done|]. split.
      + unfold quiet, regs_ok. destruct s; cbn in *. split_and!; auto with mydb.
      + exists []. split; [by destruct s; cbn; rewrite app_nil_r | constructor].
    - by rewrite Hl in Hs.
    - injection Hs as <-. unfold destroy. rewrite bool_decide_false by naive_solver.
      eexists; split; [done|]. split; [unfold quiet; auto|].
      exists []. split; [by rewrite app_nil_r | constructor].
  Qed.
End Quiet.

Section LifecycleTheorems.
  Context `{JsonParse}.

Lemma exec_reachable s ins s' : reachable s -> exec s ins = Some (Ok s') -> reachable s'.
  Proof.
    revert s. induction ins as [|i ins IH]; intros s Hr Hx; simpl in Hx.
    - by injection Hx as <-.
    - destruct (step s i) as [[s1|x]|] eqn:Hs; try discriminate. eauto using reachable_step.
  Qed.

Lemma quiet_exec s ins r :
    quiet s -> exec s ins = Some r ->
    exists s', r = Ok s' /\ exists errs, emitted s' = emitted s ++ errs /\ Forall is_error_event errs.
  Proof.
    revert s. induction ins as [|i ins IH]; intros s Hq Hx; simpl in Hx.
    - injection Hx as <-. exists s. split; [done|]. exists []. by rewrite app_nil_r.
    - destruct (step s i) as [r1|] eqn:Hs; [|discriminate].
      destruct (quiet_step s i r1 Hq Hs) as (s1 & -> & Hq1 & errs1 & He1 & Hf1).
      destruct (IH s1 Hq1 Hx) as (s2 & -> & errs2 & He2 & Hf2).
      exists s2. split; [done|]. exists (errs1 ++ errs2).
      rewrite He2, He1, app_assoc. split; [done|]. by apply Forall_app.
  Qed.

  (** C4 (safety). [destroy] in [subscribed] ends the stream: whatever
      arrives afterwards (the fetch reply, the unsubscribe ack, further
      [destroy] calls), the caller receives no [payload] and no [op]
      any more, only possibly [error] events, and nothing throws. *)
Theorem destroy_subscribed_quiet s ins r :
    reachable s -> readyState s = Some Subscribed -> exec (destroy s) ins = Some r ->
    exists s', r = Ok s' /\
      exists errs, emitted s' = emitted s ++ errs /\ Forall is_error_event errs.
  Proof.
    intros Hr Hrs Hx. destruct (reachable_phase s Hr) as (Hps & _ & Hnd & _ & _ & _ & Hro).
    destruct (Hnd ltac:(by rewrite Hrs)) as [Hng _]. rewrite Hrs in Hps.
    assert (Hq : quiet (destroy s)).
    { unfold destroy. rewrite bool_decide_true by auto. unfold quiet, regs_ok, send; cbn.
      split_and!; auto.
      apply Forall_app. split; [by eapply finds_and_unsubs | repeat constructor; by right]. }
    destruct (quiet_exec _ _ _ Hq Hx) as (s' & -> & errs & He & Hf).
    exists s'. split; [done|]. exists errs. split; [|done].
    rewrite He. unfold destroy. by rewrite bool_decide_true by auto.
  Qed.

  (** C6 (invariant; defect). In every reachable state, every mongo
      request in flight is [findById(id, {fields: {}})] on the collection
      [undefined], where [id] is the subscription id. The document id and
      collection of the metadata record are never used, whatever redis
      holds. *)
Theorem fetch_request_shape s c :
    reachable s -> c ∈ inflight s -> is_find c = true -> c = FindById None (id s) (Some (JObj [])).
  Proof.
    intros Hr Hin Hc. destruct (reachable_phase s Hr) as (_ & _ & _ & Hf & _).
    rewrite Forall_forall in Hf. exact (Hf c Hin Hc).
  Qed.

Lemma readyState_complete p s : readyState (complete p s) = readyState s.
  Proof. by destruct s. Qed.

  (** C11 (invariant). Every turn of the loop moves [readyState] along
      [lifecycle]. It moves forward from [discoverying] to [subscribing],
      [subscribed], [unsubscribing] and [unsubscribed]. There is one way
      back: a subscribe ack that arrives after [destroy] moves
      [unsubscribing] to [subscribed]. [readyState] never returns to
      [discoverying]. The code has no [failed] state: an error leaves the
      state where it is. *)
Theorem step_lifecycle s i s' :
    reachable s -> step s i = Some (Ok s') -> lifecycle (readyState s) (readyState s').
  Proof.
    intros Hr Hs. pose proof (reachable_phase s Hr) as (Hps & _ & Hnd & _ & _ & _ & Hro).
    destruct i as [e d|e|e|rep|ch m|]; simpl in Hs.
    - destruct (existsb _ _) eqn:Hg; [|done]. injection Hs as Hs.
      destruct (decide (readyState s = Some Discoverying)) as [Hrs|Hne];
        [|by destruct (existsb_Forall_false _ _ Hg (proj1 (Hnd Hne)))].
      apply get_cb_cases in Hs as [[(_ & -> & _) _]| ->]; [| |by destruct s].
      + rewrite readyState_complete. constructor.
      + rewrite Hrs. constructor.
    - destruct (pubsub_head _) as [[]|] eqn:Hh; try done. injection Hs as Hs.
      rewrite pubsub_head_cmds in Hh.
      apply subscribe_cb_cases in Hs as [[(_ & -> & _) _]| ->]; [| |by destruct s].
      + rewrite readyState_complete. constructor.
      + destruct (pubsub_subscribe_next s _ Hps Hh) as [[-> _]|[-> _]]; constructor.
    - destruct (pubsub_head _) as [[]|] eqn:Hh; try done. injection Hs as Hs.
      rewrite pubsub_head_cmds in Hh.
      apply unsubscribe_cb_cases in Hs as [[(_ & -> & _) _]| ->]; [| |by destruct s].
      + rewrite readyState_complete. constructor.
      + destruct (pubsub_unsubscribe_next s _ Hps Hh) as [[-> | [-> | ->]] _]; constructor.
    - destruct (existsb _ _); [|done]. injection Hs as Hs.
      apply fetch_cb_keeps in Hs as [(_ & -> & _) _]; [|by destruct s].
      rewrite readyState_complete. constructor.
    - destruct (listening s); [|done]. injection Hs as Hs.
      apply onMessage_keeps in Hs as [(_ & -> & _) _]; [constructor | done].
    - injection Hs as <-. unfold destroy. case_bool_decide as Hrs; [|constructor].
      cbn. destruct Hrs as [-> | ->]; constructor.
  Qed.

  (** C12 (invariant). [unsubscribed] is terminal: once the unsubscribe
      ack has arrived, no input changes [readyState] again. The subscribe
      ack, the only input that could, always comes before the unsubscribe
      ack on the same redis connection. *)
Theorem unsubscribed_terminal s i s' :
    reachable s -> readyState s = Some Unsubscribed -> step s i = Some (Ok s') ->
    readyState s' = Some Unsubscribed.
  Proof.
    intros Hr Hrs Hs. pose proof (reachable_phase s Hr) as (Hps & _ & Hnd & _ & _ & _ & Hro).
    destruct (Hnd ltac:(by rewrite Hrs)) as [Hng _]. rewrite Hrs in Hps. cbn in Hps.
    destruct i as [e d|e|e|rep|ch m|]; simpl in Hs.
    - destruct (existsb _ _) eqn:Hg; [|done]. by destruct (existsb_Forall_false _ _ Hg Hng).
    - destruct (pubsub_head _) as [[]|] eqn:Hh; try done. rewrite pubsub_head_cmds in Hh.
      destruct (pubsub_cmds (inflight s)); [done|]. injection Hh as ->.
      by apply Forall_cons_1 in Hps as [? _].
    - destruct (pubsub_head _) as [[]|]; try done. injection Hs as Hs.
      apply unsubscribe_cb_cases in Hs as [[(_ & -> & _) _]| ->]; [|by destruct s|done].
      by rewrite readyState_complete.
    - destruct (existsb _ _); [|done]. injection Hs as Hs.
      apply fetch_cb_keeps in Hs as [(_ & -> & _) _]; [|by destruct s].
      by rewrite readyState_complete.
    - destruct (listening s); [|done]. injection Hs as Hs.
      by apply onMessage_keeps in Hs as [(_ & -> & _) _].
    - injection Hs as <-. unfold destroy. rewrite bool_decide_false; [done|]. rewrite Hrs. naive_solver.
  Qed.

  (** C5 (error; defect). [destroy] while the subscribe ack is pending
      does not stop the subscription. The late ack sets [readyState] back
      to [subscribed] and sends the fetch. When the document arrives, the
      stale-completion guard lets it through. The replay listener then
      reads [this.ops.length] with [this.ops = null] and throws a
      TypeError out of the mongo callback. The spec (section 5) requires
      [destroy] to stop every in-flight completion. *)
Theorem destroy_then_late_ack_crashes s d :
    readyState s = Some Subscribing -> pubsub_head (inflight s) = Some (Subscribe (id s)) ->
    events s = regs_open -> truthy (Some d) = true ->
    exec s [Destroy; SubscribeReply None; FindReply (FindDoc (Some d))] =
    Some (Throw (TypeError null_length)).
  Proof.
    intros Hrs Hh Hev Hd. cbn [exec step]. unfold destroy.
    rewrite bool_decide_true by auto. cbn [id send inflight set_listening set_inflight set_payload
      set_ops set_readyState].
    rewrite (pubsub_head_app _ _ _ Hh). cbn [subscribe_cb].
    unfold fetch, complete, send; cbn [inflight set_inflight set_readyState id].
    rewrite existsb_app_r by done. unfold fetch_cb. cbn [readyState set_inflight set_readyState].
    rewrite bool_decide_false by congruence. rewrite Hd. cbn -[emit].
    unfold emit_fuel. rewrite emit_payload_destroyed; [done | by destruct s | done].
  Qed.

End LifecycleTheorems.

(** ** Witnesses *)
Import MiniJson.

Lemma destroy_subscribed_quiet_witness :
  let pre := [GetReply None (Some "{}"); SubscribeReply None] in
  let s := match exec (open_subscription "doc1") pre with
           | Some (Ok s) => s | _ => open_subscription "doc1" end in
  let ins := [FindReply (FindDoc (Some (JObj []))); Destroy;
              UnsubscribeReply (Some "EPIPE")] in
  let r := match exec (destroy s) ins with Some r => r | None => Ok s end in
  reachable s /\ readyState s = Some Subscribed /\ exec (destroy s) ins = Some r /\
  exists s', r = Ok s' /\
    exists errs, emitted s' = emitted s ++ errs /\ Forall is_error_event errs.
Proof.
  intros pre s ins r.
  assert (Hr : reachable s).
  { apply (exec_reachable (open_subscription "doc1") pre); [constructor | vm_compute; reflexivity]. }
  assert (Hrs : readyState s = Some Subscribed) by (vm_compute; reflexivity).
  assert (Hx : exec (destroy s) ins = Some r) by (vm_compute; reflexivity).
  split_and!; [exact Hr | exact Hrs | exact Hx | exact (destroy_subscribed_quiet s ins r Hr Hrs Hx)].
Defined.

Lemma destroy_then_late_ack_crashes_witness :
  let s := match exec (open_subscription "doc1") [GetReply None (Some "{}")] with
           | Some (Ok s) => s | _ => open_subscription "doc1" end in
  readyState s = Some Subscribing /\ pubsub_head (inflight s) = Some (Subscribe (id s)) /\
  events s = regs_open /\ truthy (Some (JObj [])) = true /\
  exec s [Destroy; SubscribeReply None; FindReply (FindDoc (Some (JObj [])))] =
  Some (Throw (TypeError null_length)).
Proof.
  intros s.
  assert (H1 : readyState s = Some Subscribing) by (vm_compute; reflexivity).
  assert (H2 : pubsub_head (inflight s) = Some (Subscribe (id s))) by (vm_compute; reflexivity).
  assert (H3 : events s = regs_open) by (vm_compute; reflexivity).
  assert (H4 : truthy (Some (JObj [])) = true) by reflexivity.
  split_and!; [exact H1 | exact H2 | exact H3 | exact H4 |].
  exact (destroy_then_late_ack_crashes s (JObj []) H1 H2 H3 H4).
Defined.

Lemma fetch_request_shape_witness :
  let s := match exec (open_subscription "doc1") [GetReply None (Some "{}"); SubscribeReply None] with
           | Some (Ok s) => s | _ => open_subscription "doc1" end in
  let c := FindById None "doc1" (Some (JObj [])) in
  reachable s /\ c ∈ inflight s /\ is_find c = true /\ c = FindById None (id s) (Some (JObj [])).
Proof.
  intros s c.
  assert (Hr : reachable s).
  { apply (exec_reachable (open_subscription "doc1")
             [GetReply None (Some "{}"); SubscribeReply None]); [constructor | vm_compute; reflexivity]. }
  assert (Hin : c ∈ inflight s) by (rewrite list_elem_of_In; vm_compute; left; reflexivity).
  split_and!; [exact Hr | exact Hin | reflexivity | exact (fetch_request_shape s c Hr Hin eq_refl)].
Defined.

Lemma step_lifecycle_witness :
  let s := match exec (open_subscription "doc1") [GetReply None (Some "{}"); Destroy] with
           | Some (Ok s) => s | _ => open_subscription "doc1" end in
  let s' := match step s (SubscribeReply None) with
            | Some (Ok s') => s' | _ => s end in
  reachable s /\ step s (SubscribeReply None) = Some (Ok s') /\
  lifecycle (readyState s) (readyState s') /\
  readyState s = Some Unsubscribing /\ readyState s' = Some Subscribed.
Proof.
  intros s s'.
  assert (Hr : reachable s).
  { apply (exec_reachable (open_subscription "doc1") [GetReply None (Some "{}"); Destroy]);
      [constructor | vm_compute; reflexivity]. }
  assert (Hs : step s (SubscribeReply None) = Some (Ok s')) by (vm_compute; reflexivity).
  split_and!; [exact Hr | exact Hs | exact (step_lifecycle s _ s' Hr Hs) | reflexivity | reflexivity].
Defined.

Lemma unsubscribed_terminal_witness :
  let s := match exec (open_subscription "doc1")
                   [GetReply None (Some "{}"); SubscribeReply None; Destroy; UnsubscribeReply None] with
           | Some (Ok s) => s | _ => open_subscription "doc1" end in
  let i := FindReply (FindDoc (Some (JObj []))) in
  let s' := match step s i with Some (Ok s') => s' | _ => s end in
  reachable s /\ readyState s = Some Unsubscribed /\ step s i = Some (Ok s') /\
  readyState s' = Some Unsubscribed.
Proof.
  intros s i s'.
  assert (Hr : reachable s).
  { apply (exec_reachable (open_subscription "doc1")
             [GetReply None (Some "{}"); SubscribeReply None; Destroy; UnsubscribeReply None]);
      [constructor | vm_compute; reflexivity]. }
  assert (Hrs : readyState s = Some Unsubscribed) by (vm_compute; reflexivity).
  assert (Hs : step s i = Some (Ok s')) by (vm_compute; reflexivity).
  split_and!; [exact Hr | exact Hrs | exact Hs | exact (unsubscribed_terminal s i s' Hr Hrs Hs)].
Defined.

