(* ===== verification/Codec.v ===== *)
(** * Codec: the text of the published ops, printed and parsed back

    The server publishes every change on the document's channel as the
    text of [JSON.stringify(op)]; [onMessage] reads it back with
    [JSON.parse] (src/subscription.js, lines 104-122). The spec (section 6)
    only asks that the encoding round-trip. This file writes
    [JSON.stringify] for compact JSON as [print], and proves that the
    parser [MiniJson.parse] reads back every value whose strings need no
    escape ([printable]). Then it follows a sequence of published ops
    through the event loop: each message goes to [onMessage] and the
    caller's view ([obs]: ops delivered, then ops buffered) gains exactly
    the published ops, in order. *)

From S2P Require Import Prelude Json Emitter Subscription EventLoop Lifecycle.
From Stdlib Require Import Ascii DecimalNat PeanoNat.
Import MiniJson.

(** ** [JSON.stringify], compact

    The printers take the text that follows, so that a value is printed in
    front of the rest of the output without appends. *)

(** The decimal digits of a [Decimal.uint], most significant first. *)
Fixpoint print_uint (u : Decimal.uint) (r : string) : string :=
  match u with
  | Decimal.Nil => r
  | Decimal.D0 u' => String "0" (print_uint u' r)
  | Decimal.D1 u' => String "1" (print_uint u' r)
  | Decimal.D2 u' => String "2" (print_uint u' r)
  | Decimal.D3 u' => String "3" (print_uint u' r)
  | Decimal.D4 u' => String "4" (print_uint u' r)
  | Decimal.D5 u' => String "5" (print_uint u' r)
  | Decimal.D6 u' => String "6" (print_uint u' r)
  | Decimal.D7 u' => String "7" (print_uint u' r)
  | Decimal.D8 u' => String "8" (print_uint u' r)
  | Decimal.D9 u' => String "9" (print_uint u' r)
  end.

Definition print_num (n : Z) (r : string) : string :=
  if Z.ltb n 0 then String "-" (print_uint (Nat.to_uint (Z.to_nat (- n))) r)
  else print_uint (Nat.to_uint (Z.to_nat n)) r.

(** The characters of a string, then its closing quote. *)
Fixpoint print_chars (s r : string) : string :=
  match s with
  | EmptyString => String quote_char r
  | String c s' => String c (print_chars s' r)
  end.

Definition print_str (s r : string) : string := String quote_char (print_chars s r).

Section Sequences.
  Variable p : json -> string -> string.

  (** The elements of an array after the first: each after a comma, then
      the closing bracket. *)
Fixpoint print_seq (l : list json) (r : string) : string :=
    match l with
    | [] => String "]" r
    | y :: l' => String "," (p y (print_seq l' r))
    end.

  (** The members of an object after the first. *)
Fixpoint print_mems (ms : list (string * json)) (r : string) : string :=
    match ms with
    | [] => String "}" r
    | (k, v) :: ms' => String "," (print_str k (String ":" (p v (print_mems ms' r))))
    end.
End Sequences.

Fixpoint print_to (j : json) (r : string) {struct j} : string :=
  match j with
  | JNull => String "n" (String "u" (String "l" (String "l" r)))
  | JBool true => String "t" (String "r" (String "u" (String "e" r)))
  | JBool false => String "f" (String "a" (String "l" (String "s" (String "e" r))))
  | JNum n => print_num n r
  | JStr s => print_str s r
  | JArr [] => String "[" (String "]" r)
  | JArr (x :: l) => String "[" (print_to x (print_seq print_to l r))
  | JObj [] => String "{" (String "}" r)
  | JObj ((k, v) :: ms) =>
      String "{" (print_str k (String ":" (print_to v (print_mems print_to ms r))))
  end.

Definition print (j : json) : string := print_to j EmptyString.

(** Strings that need no escape: no quote and no backslash. *)
Fixpoint plain (s : string) : bool :=
  match s with
  | EmptyString => true
  | String c s' => negb (Ascii.eqb c quote_char) && negb (Ascii.eqb c "\"%char) && plain s'
  end.

Fixpoint printable (j : json) : bool :=
  match j with
  | JStr s => plain s
  | JArr l => forallb printable l
  | JObj ms => forallb (fun kv => plain kv.1 && printable kv.2) ms
  | _ => true
  end.

(** The number of nodes of a value: the nesting and the number of
    elements the parser's fuel has to cover. *)
Fixpoint jsize (j : json) : nat :=
  match j with
  | JArr l => S (list_sum (map jsize l))
  | JObj ms => S (list_sum (map (fun kv => jsize kv.2) ms))
  | _ => 1
  end.

(** The text that may follow a value inside a document. *)
Definition delim (r : string) : bool :=
  match r with
  | EmptyString => true
  | String c _ => Ascii.eqb c "," || Ascii.eqb c "]" || Ascii.eqb c "}"
  end.

(** [value f] reads a value printed in front of any delimiter. *)
Definition reads (f : nat) (j : json) : Prop :=
  forall r, delim r = true -> value f (print_to j r) = Some (j, r).

(** ** Strings and numbers *)

Lemma str_body_print s r : plain s = true -> str_body (print_chars s r) = Some (s, r).
Proof.
  induction s as [|c s IH]; [done|]. cbn -[Ascii.eqb].
  intros [[Hq Hb]%andb_prop Hs]%andb_prop. apply negb_true_iff in Hq, Hb.
  by rewrite Hq, Hb, IH.
Qed.

Lemma digits_delim a r : delim r = true -> digits a r = (a, r).
Proof.
  destruct r as [|c r]; [done|]. cbn -[Ascii.eqb is_digit].
  intros [[E|E]%orb_prop|E]%orb_prop; apply Ascii.eqb_eq in E as ->; reflexivity.
Qed.

Lemma digits_print u acc r :
  delim r = true -> digits (Z.of_nat acc) (print_uint u r) = (Z.of_nat (Nat.of_uint_acc u acc), r).
Proof.
  intros Hr. revert acc. induction u as [|u IH|u IH|u IH|u IH|u IH|u IH|u IH|u IH|u IH|u IH];
    intros acc; [exact (digits_delim _ _ Hr)|..];
    cbn [print_uint digits Nat.of_uint_acc]; rewrite <- IH; f_equal; cbn -[Nat.tail_mul];
    rewrite Nat.tail_mul_spec; simpl Ascii.nat_of_ascii; simpl Nat.sub; lia.
Qed.

Lemma to_uint_not_nil m : Nat.to_uint m <> Decimal.Nil.
Proof.
  intros E. destruct m as [|m]; [discriminate|].
  pose proof (DecimalNat.Unsigned.of_to (S m)) as H. by rewrite E in H.
Qed.

(** A numeral starts with a digit, so the parser reads it as a number. *)
Lemma value_uint f u r :
  u <> Decimal.Nil ->
  value (S f) (print_uint u r) = let '(n, r') := digits 0 (print_uint u r) in Some (JNum n, r').
Proof. destruct u; done || reflexivity. Qed.

Lemma value_neg_uint f u r :
  u <> Decimal.Nil ->
  value (S f) (String "-" (print_uint u r)) =
  let '(n, r') := digits 0 (print_uint u r) in Some (JNum (- n), r').
Proof. destruct u; done || reflexivity. Qed.

Lemma digits_print_nat m r :
  delim r = true -> digits 0 (print_uint (Nat.to_uint m) r) = (Z.of_nat m, r).
Proof.
  intros Hr. pose proof (digits_print (Nat.to_uint m) 0 r Hr) as D. change (Z.of_nat 0) with 0%Z in D.
  rewrite D. f_equal. f_equal. exact (DecimalNat.Unsigned.of_to m).
Qed.

Lemma value_print_num f n r : delim r = true -> value (S f) (print_num n r) = Some (JNum n, r).
Proof.
  intros Hr. unfold print_num. destruct (Z.ltb_spec n 0).
  - rewrite value_neg_uint, digits_print_nat by (apply to_uint_not_nil || done).
    do 3 f_equal. lia.
  - rewrite value_uint, digits_print_nat by (apply to_uint_not_nil || done).
    do 3 f_equal. lia.
Qed.

(** ** Arrays and objects *)

(** [[] followed by anything but []] opens a non-empty array. *)
Lemma value_open_arr f c t :
  c <> "]"%char -> value (S f) (String "[" (String c t)) = items (value f) f (String c t) [].
Proof. intros Hc. destruct c as [[] [] [] [] [] [] [] []]; reflexivity || by contradiction. Qed.

Lemma value_open_obj f k t :
  value (S f) (String "{" (print_str k t)) = members (value f) f (print_str k t) [].
Proof. reflexivity. Qed.

Lemma print_head j r : exists c t, print_to j r = String c t /\ c <> "]"%char.
Proof.
  destruct j as [| [] |n|s|[|x l]|[|[k v] ms]]; try by (eexists _, _; split; [reflexivity|]).
  cbn. unfold print_num. destruct (Z.ltb n 0); [by eexists _, _|].
  pose proof (to_uint_not_nil (Z.to_nat n)).
  destruct (Nat.to_uint (Z.to_nat n)); done || by eexists _, _.
Qed.

Lemma delim_print_seq p l r : delim (print_seq p l r) = true.
Proof. by destruct l. Qed.

Lemma delim_print_mems p ms r : delim (print_mems p ms r) = true.
Proof. by destruct ms as [|[]]. Qed.

#[local] Hint Resolve delim_print_seq delim_print_mems : mydb.

Lemma jsize_pos j : 1 <= jsize j.
Proof. destruct j; cbn; lia. Qed.

Lemma elem_le_sum {A} (g : A -> nat) x l : In x l -> g x <= list_sum (map g l).
Proof. unfold list_sum. induction l as [|y l IH]; [done|]. intros [->|Hx]; cbn; [lia|]. specialize (IH Hx). lia. Qed.

Lemma length_le_sum {A} (g : A -> nat) l : (forall x, 1 <= g x) -> List.length l <= list_sum (map g l).
Proof. unfold list_sum. intros Hg. induction l as [|y l IH]; [done|]. cbn. specialize (Hg y). lia. Qed.

Lemma items_print f x l acc g r :
  (forall y, In y (x :: l) -> reads f y) -> List.length l < g -> delim r = true ->
  items (value f) g (print_to x (print_seq print_to l r)) acc = Some (JArr (acc ++ x :: l), r).
Proof.
  revert x acc g. induction l as [|y l IH]; intros x acc [|g] Hall Hg Hr; try (cbn in Hg; lia).
  - cbn [items]. rewrite (Hall x (or_introl eq_refl)) by auto with mydb. reflexivity.
  - cbn [items]. rewrite (Hall x (or_introl eq_refl)) by auto with mydb. cbn [print_seq].
    rewrite IH; [by rewrite <- app_assoc | intros z Hz; apply Hall; by right | cbn in Hg; lia | done].
Qed.

Lemma members_print f k v ms acc g r :
  (forall kv, In kv ((k, v) :: ms) -> plain kv.1 = true /\ reads f kv.2) ->
  List.length ms < g -> delim r = true ->
  members (value f) g (print_str k (String ":" (print_to v (print_mems print_to ms r)))) acc =
  Some (JObj (acc ++ (k, v) :: ms), r).
Proof.
  revert k v acc g. induction ms as [|[k' v'] ms IH]; intros k v acc [|g] Hall Hg Hr;
    try (cbn in Hg; lia);
    destruct (Hall (k, v) (or_introl eq_refl)) as [Hk Hv]; cbn in Hk, Hv;
    cbn [members print_str]; rewrite str_body_print, Hv by auto with mydb; [reflexivity|].
  cbn [print_mems]. rewrite IH; [by rewrite <- app_assoc | intros z Hz; apply Hall; by right | cbn in Hg; lia | done].
Qed.

(** ** The round trip *)

(** [value] reads back every printable value, in front of any delimiter,
    given fuel for its number of nodes. *)
Lemma value_print f j r :
  jsize j <= f -> printable j = true -> delim r = true -> value f (print_to j r) = Some (j, r).
Proof.
  revert j r. induction f as [|f IH]; intros j r Hs Hp Hr; [pose proof (jsize_pos j); lia|].
  destruct j as [| [] |n|s|[|x l]|[|[k v] ms]]; cbn [print_to]; try reflexivity.
  - by apply value_print_num.
  - unfold print_str. cbn -[str_body]. by rewrite str_body_print.
  - destruct (print_head x (print_seq print_to l r)) as (c & t & E & Hc).
    rewrite E, value_open_arr, <- E by exact Hc. cbn [jsize printable] in Hs, Hp.
    pose proof (length_le_sum jsize (x :: l) jsize_pos).
    apply items_print; [|cbn in *; lia|done].
    intros y Hy r' Hr'. apply IH; [|by apply (proj1 (forallb_forall _ _) Hp)|done].
    pose proof (elem_le_sum jsize y _ Hy). lia.
  - rewrite value_open_obj. cbn [jsize printable] in Hs, Hp.
    pose proof (length_le_sum (fun kv : string * json => jsize kv.2) ((k, v) :: ms) (fun kv => jsize_pos kv.2)).
    apply members_print; [|cbn in *; lia|done].
    intros kv Hkv. pose proof (proj1 (forallb_forall _ _) Hp kv Hkv) as [Hk Hv]%andb_prop. split; [done|]. intros r' Hr'. apply IH; [|done|done].
    pose proof (elem_le_sum (fun kv : string * json => jsize kv.2) kv _ Hkv). lia.
Qed.

(** Every node prints at least one character, so the length of the text,
    the fuel [parse] gives, covers the nodes. *)
Lemma length_print_chars s t : String.length (print_chars s t) = String.length s + S (String.length t).
Proof. induction s as [|c s IH]; cbn; lia. Qed.

Lemma length_print_uint_le u r : String.length r <= String.length (print_uint u r).
Proof. induction u; cbn; lia. Qed.

Lemma length_print_uint u r :
  u <> Decimal.Nil -> String.length r < String.length (print_uint u r).
Proof. intros Hu. destruct u; [done|..]; cbn; pose proof (length_print_uint_le u r); lia. Qed.

Lemma length_print_seq l r :
  (forall y, In y l -> forall t, jsize y + String.length t <= String.length (print_to y t)) ->
  list_sum (map jsize l) + String.length r <= String.length (print_seq print_to l r).
Proof.
  unfold list_sum. induction l as [|y l IH]; intros Hall; cbn; [lia|].
  pose proof (Hall y (or_introl eq_refl) (print_seq print_to l r)).
  assert (fold_right Nat.add 0 (map jsize l) + String.length r <= String.length (print_seq print_to l r))
    by (apply IH; intros z Hz; apply Hall; by right). lia.
Qed.

Lemma length_print_mems ms r :
  (forall kv, In kv ms -> forall t, jsize kv.2 + String.length t <= String.length (print_to kv.2 t)) ->
  list_sum (map (fun kv => jsize kv.2) ms) + String.length r <= String.length (print_mems print_to ms r).
Proof.
  unfold list_sum. induction ms as [|[k v] ms IH]; intros Hall; cbn; [lia|].
  pose proof (Hall (k, v) (or_introl eq_refl) (print_mems print_to ms r)) as Hkv. cbn in Hkv.
  rewrite length_print_chars. cbn.
  assert (fold_right Nat.add 0 (map (fun kv => jsize kv.2) ms) + String.length r <=
          String.length (print_mems print_to ms r)) by (apply IH; intros z Hz; apply Hall; by right).
  lia.
Qed.

Lemma length_print_fuel n j r :
  jsize j <= n -> jsize j + String.length r <= String.length (print_to j r).
Proof.
  revert j r. induction n as [|n IH]; intros j r Hle; [pose proof (jsize_pos j); lia|].
  destruct j as [| [] |n'|s|[|x l]|[|[k v] ms]]; cbn [print_to jsize] in *; try (cbn; lia).
  - unfold print_num.
    pose proof (length_print_uint _ r (to_uint_not_nil (Z.to_nat (- n')))).
    pose proof (length_print_uint _ r (to_uint_not_nil (Z.to_nat n'))).
    destruct (Z.ltb n' 0); cbn; lia.
  - unfold print_str. cbn. rewrite length_print_chars. lia.
  - pose proof (length_print_seq l r) as Hs. cbn in *. unfold list_sum in *.
    assert (Hx := IH x (print_seq print_to l r) ltac:(lia)).
    assert (fold_right Nat.add 0 (map jsize l) + String.length r <= String.length (print_seq print_to l r))
      by (apply Hs; intros y Hy t; apply IH; pose proof (elem_le_sum jsize y l Hy); unfold list_sum in *; lia).
    lia.
  - pose proof (length_print_mems ms r) as Hs. unfold print_str. cbn in *. rewrite length_print_chars.
    unfold list_sum in *. cbn.
    assert (Hv := IH v (print_mems print_to ms r) ltac:(lia)).
    assert (fold_right Nat.add 0 (map (fun kv => jsize kv.2) ms) + String.length r <=
            String.length (print_mems print_to ms r))
      by (apply Hs; intros kv Hkv t; apply IH;
          pose proof (elem_le_sum (fun kv : string * json => jsize kv.2) kv ms Hkv); unfold list_sum in *; lia).
    lia.
Qed.

Lemma length_print j r : jsize j + String.length r <= String.length (print_to j r).
Proof. exact (length_print_fuel (jsize j) j r (le_n _)). Qed.

(** [MiniJson.parse] reads back the text [print] writes. *)
Lemma parse_print j : printable j = true -> parse (print j) = Some j.
Proof.
  intros Hp. unfold parse, print. pose proof (length_print j EmptyString) as Hl.
  rewrite value_print; [done|cbn in Hl; lia|done|done].
Qed.

(** ** Published ops through the event loop *)

Section Messages.
  Context `{JsonParse}.

  (** [onMessage] throws only when the buffer is [null]. *)
Lemma onMessage_ok ch m s : regs_ok s -> is_Some (ops s) -> exists s', onMessage ch m s = Ok s'.
  Proof.
    intros Hr [l Hl]. pose proof (regs_ok_caller_only s Hr) as Hc. unfold onMessage.
    case_bool_decide; [|eauto]. destruct (json_parse m).
    - destruct (truthy (payload s)); [rewrite js_emit_op by done; eauto|]. rewrite Hl. eauto.
    - rewrite js_emit_error by done. eauto.
  Qed.

Lemma onMessage_listening ch m s s' :
    regs_ok s -> onMessage ch m s = Ok s' -> listening s' = listening s.
  Proof. intros Hr Hm. by destruct (onMessage_keeps _ _ _ _ Hr Hm) as [(_ & _ & _ & _ & _ & -> & _) _]. Qed.
End Messages.

Lemma live_regs_ok s : live s -> regs_ok s.
Proof. intros (l & _ & [[_ ?] | (_ & _ & ?)]); [left|right]; done. Qed.

Lemma live_ops s : live s -> is_Some (ops s).
Proof. intros (l & Hl & _). by exists l. Qed.

(** One published op, under [MiniJson]. *)
Lemma publish_one s o :
  live s -> listening s = true -> printable o = true ->
  exists s1, step s (Message (id s) (print o)) = Some (Ok s1) /\
    live s1 /\ obs s1 = obs s ++ [o] /\ id s1 = id s /\ listening s1 = true.
Proof.
  intros Hl Hlis Hp. destruct (onMessage_ok (id s) (print o) s (live_regs_ok s Hl) (live_ops s Hl)) as [s1 Hm].
  exists s1. unfold step. rewrite Hlis, Hm.
  destruct (onMessage_live _ _ _ _ Hl Hm) as (Hl1 & Ho & Hi). split_and!; [done|done| |done|].
  - rewrite Ho. unfold accepted. cbn. rewrite bool_decide_true by done. cbn [json_parse mini_json].
    by rewrite parse_print.
  - by rewrite (onMessage_listening _ _ _ _ (live_regs_ok s Hl) Hm).
Qed.

(** The ops the server publishes reach the caller
    unchanged and in order. On a live subscription whose listener is
    attached, the messages carrying [JSON.stringify] of a sequence of ops
    (strings without escapes) are all accepted without an exception, the
    subscription stays live, and the caller's view ([obs]: ops delivered
    to its [op] listener, then ops still buffered) gains exactly those
    ops. Encoding with [print] and decoding with [JSON.parse] in
    [onMessage] is the identity. *)
Theorem published_ops_delivered s os :
  live s -> listening s = true -> forallb printable os = true ->
  exists s', exec s (map (fun o => Message (id s) (print o)) os) = Some (Ok s') /\
    live s' /\ obs s' = obs s ++ os.
Proof.
  revert s. induction os as [|o os IH]; intros s Hl Hlis Hp.
  { exists s. by rewrite app_nil_r. }
  apply andb_prop in Hp as [Ho Hos].
  destruct (publish_one s o Hl Hlis Ho) as (s1 & Hs & Hl1 & Hob & Hi & Hlis1).
  destruct (IH s1 Hl1 Hlis1 Hos) as (s' & Hx & Hl' & Hob').
  exists s'. cbn [map exec]. rewrite Hs, <- Hi. split_and!; [done|done|].
  by rewrite Hob', Hob, <- app_assoc.
Qed.
