(* ===== verification/Bounds.v ===== *)
(** * Bounds: how often the document is fetched and delivered

    The spec (section 4.1) says [onPayload] fires exactly once. The code
    has no flag for it. What bounds it is the chain of requests: the
    redis [GET] (sent once, by the constructor) leads to at most one
    [SUBSCRIBE], whose ack leads to at most one [findById], whose reply
    leads to at most one [payload]. [budget] counts the links of that
    chain still pending plus the [payload] events delivered. Every turn of
    the loop keeps it at most 1, so the caller receives [payload] at most
    once, and at most one fetch is ever in flight. The invariant holds on
    every path, including a late subscribe ack after [destroy] (which
    sends a second [findById] only in place of the first). *)

From S2P Require Import Prelude Json Emitter Subscription EventLoop Lifecycle.

Definition is_payload (e : event) : bool := match e with EvPayload _ => true | _ => false end.

(** The requests that can lead to a [payload]: all but [UNSUBSCRIBE]. *)
Definition leads_to_payload (c : cmd) : bool := match c with Unsubscribe _ => false | _ => true end.

(** The [payload] events of a trace. *)
Definition payloads (t : list event) : nat := List.length (List.filter is_payload t).

Definition budget (s : subscription) : nat :=
  List.length (List.filter leads_to_payload (inflight s)) + payloads (emitted s).

(** ** Counting lemmas *)

Lemma payloads_app t t' : payloads (t ++ t') = payloads t + payloads t'.
Proof. unfold payloads. by rewrite List.filter_app, length_app. Qed.

Lemma payloads_ops l : payloads (map EvOp l) = 0.
Proof. by induction l. Qed.

#[export] Hint Rewrite payloads_app payloads_ops : mydb_rw.

Lemma existsb_find (p : cmd -> bool) q :
  existsb p q = true -> exists c, List.find p q = Some c /\ p c = true.
Proof.
  induction q as [|x q IH]; [done|]. cbn. destruct (p x) eqn:E; cbn; [eauto|]. exact IH.
Qed.

(** Removing the first request of a kind removes one from every count
    that request belongs to. *)
Lemma count_remove_first (p f : cmd -> bool) q c :
  List.find p q = Some c ->
  List.length (List.filter f q) =
  List.length (List.filter f (remove_first p q)) + (if f c then 1 else 0).
Proof.
  induction q as [|x q IH]; [done|]. cbn. destruct (p x) eqn:Hp.
  - intros [= ->]. destruct (f c); cbn; lia.
  - intros Hf. cbn. destruct (f x); cbn; rewrite (IH Hf); lia.
Qed.

Lemma filter_length_mono (f g : cmd -> bool) q :
  (forall c, f c = true -> g c = true) ->
  List.length (List.filter f q) <= List.length (List.filter g q).
Proof.
  intros Hfg. induction q as [|c q IH]; [done|]. cbn.
  destruct (f c) eqn:Hf; [rewrite (Hfg c Hf); cbn; lia|]. destruct (g c); cbn; lia.
Qed.

(** What the updates of the object do to the budget. *)
Ltac budget_frame :=
  unfold budget, payloads; cbn; rewrite ?List.filter_app, ?length_app; cbn; lia.

Lemma budget_complete p s c :
  List.find p (inflight s) = Some c ->
  budget s = budget (complete p s) + (if leads_to_payload c then 1 else 0).
Proof. intros Hf. unfold budget, complete, payloads. cbn. rewrite (count_remove_first p _ _ c Hf). lia. Qed.

(** Emitting adds one to the budget for [payload] and nothing for the
    other events: the replay delivers only [op] events. *)
Lemma js_emit_emitted e s s' :
  regs_ok s -> js_emit e s = Ok s' ->
  exists l, emitted s' = emitted s ++ map EvOp l ++ [e] /\ inflight s' = inflight s.
Proof.
  unfold emit_fuel. intros [Hr|Hr] He.
  - destruct e as [d|o|x].
    + destruct (ops s) as [l|] eqn:Hops.
      * rewrite emit_payload_open with (l := l) in He by done. injection He as <-.
        exists l. destruct s; cbn. by rewrite <- app_assoc.
      * by rewrite emit_payload_destroyed in He.
    + rewrite emit_op in He by (rewrite Hr; auto with mydb). injection He as <-.
      exists []. by destruct s.
    + rewrite emit_error in He by (rewrite Hr; auto with mydb). injection He as <-.
      exists []. by destruct s.
  - rewrite emit_caller in He by (rewrite Hr; by destruct e). injection He as <-.
    exists []. by destruct s.
Qed.

Lemma budget_emit e s s' :
  regs_ok s -> js_emit e s = Ok s' -> budget s' = budget s + (if is_payload e then 1 else 0).
Proof.
  intros Hr He. destruct (js_emit_emitted e s s' Hr He) as (l & Ht & Hq).
  unfold budget. rewrite Ht, Hq, !payloads_app, payloads_ops.
  assert (payloads [e] = if is_payload e then 1 else 0) as -> by (by destruct e). lia.
Qed.

Lemma regs_ok_complete p s : regs_ok (complete p s) <-> regs_ok s.
Proof. by destruct s. Qed.

(** ** What each callback adds *)
Section Callbacks.
  Context `{JsonParse}.

Lemma budget_get_cb e d s s' : regs_ok s -> get_cb e d s = Ok s' -> budget s' <= budget s + 1.
  Proof.
    intros Hr Hcb. unfold get_cb in Hcb. destruct e as [e|].
    { apply budget_emit in Hcb; [|done]. cbn in Hcb. lia. }
    destruct (json_parse _).
    - destruct d as [d|]; [|discriminate]. res_inv. budget_frame.
    - apply budget_emit in Hcb; [|done]. cbn in Hcb. lia.
  Qed.

Lemma budget_subscribe_cb e s s' : regs_ok s -> subscribe_cb e s = Ok s' -> budget s' <= budget s + 1.
  Proof.
    intros Hr Hcb. unfold subscribe_cb in Hcb. destruct e as [e|].
    - apply budget_emit in Hcb; [|done]. cbn in Hcb. lia.
    - res_inv. budget_frame.
  Qed.

Lemma budget_unsubscribe_cb e s s' : regs_ok s -> unsubscribe_cb e s = Ok s' -> budget s' <= budget s.
  Proof.
    intros Hr Hcb. unfold unsubscribe_cb in Hcb. destruct e as [e|].
    - apply budget_emit in Hcb; [|done]. cbn in Hcb. lia.
    - res_inv. budget_frame.
  Qed.

Lemma budget_fetch_cb r s s' : regs_ok s -> fetch_cb r s = Ok s' -> budget s' <= budget s + 1.
  Proof.
    intros Hr Hcb. unfold fetch_cb in Hcb. case_bool_decide; [res_inv; lia|].
    destruct r as [e|doc].
    { apply budget_emit in Hcb; [|done]. cbn in Hcb. lia. }
    destruct (negb (truthy doc)).
    { apply budget_emit in Hcb; [|done]. cbn in Hcb. lia. }
    destruct doc as [d|]; [|res_inv; lia].
    apply budget_emit in Hcb; [|by destruct s]. cbn in Hcb. rewrite Hcb. budget_frame.
  Qed.

Lemma budget_onMessage ch m s s' : regs_ok s -> onMessage ch m s = Ok s' -> budget s' <= budget s.
  Proof.
    intros Hr Hcb. unfold onMessage in Hcb. case_bool_decide; [|res_inv; lia].
    destruct (json_parse m).
    2: { apply budget_emit in Hcb; [|done]. cbn in Hcb. lia. }
    destruct (truthy (payload s)).
    - apply budget_emit in Hcb; [|done]. cbn in Hcb. lia.
    - destruct (ops s); [|discriminate]. res_inv. budget_frame.
  Qed.

Lemma budget_destroy s : budget (destroy s) = budget s.
  Proof. unfold destroy. case_bool_decide; [|done]. budget_frame. Qed.

  (** No turn of the loop raises the budget. *)
Lemma budget_step s i s' : phase_inv s -> step s i = Some (Ok s') -> budget s' <= budget s.
  Proof.
    intros Hp Hs. pose proof Hp as (_ & _ & _ & _ & _ & _ & Hr).
    assert (Hrc : forall p, regs_ok (complete p s)) by (intros p; by apply regs_ok_complete).
    destruct i as [e d|e|e|rep|ch m|]; simpl in Hs.
    - destruct (existsb _ _) eqn:Hg; [|done]. injection Hs as Hs.
      destruct (existsb_find _ _ Hg) as (c & Hf & Hc). rewrite (budget_complete _ _ _ Hf).
      apply budget_get_cb in Hs; [|done]. destruct c; done || lia.
    - destruct (pubsub_head _) as [[]|] eqn:Hh; try done. injection Hs as Hs.
      rewrite (budget_complete _ _ _ Hh). apply budget_subscribe_cb in Hs; [|done]. cbn [leads_to_payload]. lia.
    - destruct (pubsub_head _) as [[]|] eqn:Hh; try done. injection Hs as Hs.
      rewrite (budget_complete _ _ _ Hh). apply budget_unsubscribe_cb in Hs; [|done]. cbn [leads_to_payload]. lia.
    - destruct (existsb _ _) eqn:Hg; [|done]. injection Hs as Hs.
      destruct (existsb_find _ _ Hg) as (c & Hf & Hc). rewrite (budget_complete _ _ _ Hf).
      apply budget_fetch_cb in Hs; [|done]. destruct c; done || lia.
    - destruct (listening s); [|done]. injection Hs as Hs. by apply budget_onMessage in Hs.
    - injection Hs as <-. by rewrite budget_destroy.
  Qed.

Lemma budget_reachable s : reachable s -> budget s <= 1.
  Proof.
    induction 1 as [sid|s i s' Hr IH Hs]; [reflexivity|].
    pose proof (budget_step s i s' (reachable_phase s Hr) Hs). lia.
  Qed.
End Callbacks.

Section BoundsTheorems.
  Context `{JsonParse}.

  (** C7 (bounds). Under every interleaving of replies, messages and
      [destroy] calls, the caller's [payload] listener is called at most
      once, and at most one [findById] is in flight at any time. The code
      has no flag for this: the bound comes from the chain [GET],
      [SUBSCRIBE], [findById], each sent at most once by the reply to the
      previous one. This is the "at most" half of the spec's
      "[onPayload] fires exactly once". *)
Theorem payload_at_most_once sid ins s :
    exec (open_subscription sid) ins = Some (Ok s) ->
    payloads (emitted s) <= 1 /\ List.length (List.filter is_find (inflight s)) <= 1.
  Proof.
    intros Hx. pose proof (budget_reachable s (exec_reachable _ _ _ (reachable_open sid) Hx)) as Hb.
    pose proof (filter_length_mono is_find leads_to_payload (inflight s)) as Hm.
    unfold budget in Hb. split; [lia|]. etransitivity; [apply Hm|lia]. by intros [].
  Qed.
End BoundsTheorems.

(** ** Witness *)
Import MiniJson.

Lemma payload_at_most_once_witness :
  let ins := [GetReply None (Some "{}"); SubscribeReply None; Message "doc1" "1";
              FindReply (FindDoc (Some (JObj []))); Message "doc1" "2"; Destroy;
              UnsubscribeReply None] in
  let s := match exec (open_subscription "doc1") ins with
           | Some (Ok s) => s | _ => open_subscription "doc1" end in
  exec (open_subscription "doc1") ins = Some (Ok s) /\ (payloads (emitted s) = 1) /\
  (payloads (emitted s) <= 1) /\ (List.length (List.filter is_find (inflight s)) <= 1).
Proof.
  intros ins s.
  assert (Hx : exec (open_subscription "doc1") ins = Some (Ok s)) by (vm_compute; reflexivity).
  split_and!; [exact Hx | vm_compute; reflexivity | ..];
    [exact (proj1 (payload_at_most_once "doc1" ins s Hx))
    | exact (proj2 (payload_at_most_once "doc1" ins s Hx))].
Defined.
