(* ===== verification/Contract.v ===== *)
(** * Contract: the coordinator as the spec describes it, and the refinement

    [c_step] is the abstract machine of spec section 4.1, written from the
    spec and not from the code. Its state is a phase (with the [failed]
    state the code lacks), the snapshot, the pending-op buffer, and the
    events delivered to the caller. Errors carry the kinds of the
    taxonomy of section 7. It reads the same turns of the loop as the code
    ([EventLoop.input]). It does not model requests: the reply to a request
    is an input.

    The refinement theorem [code_refines_contract] compares what the
    caller observes ([payload] with its document, [op] with its change,
    and [error] without its value). The environment is assumed to behave:
    the metadata record is well formed, and redis and mongo answer every
    request without error, with a document. Messages may be malformed,
    and [destroy] may come at any time. Under those assumptions the code
    delivers exactly the contract's events, with one difference: the ops
    buffered before the document come before [payload] instead of after
    it ([reordered]).

    The simulation relation [sim] has two halves. Before [destroy],
    [sim_pre] ties [readyState], the buffer, the payload and the listener
    to the abstract state. After [destroy], [sim_post] says the code can
    no longer emit anything: it is off the channel and its buffer is
    [null]. A late subscribe ack can revive it, but then the document's
    arrival throws, which ends the run. *)

From S2P Require Import Prelude Json Emitter Subscription EventLoop Lifecycle Bounds.

(** ** The abstract machine *)

Inductive phase : Type :=
| PDiscovering | PSubscribing | PSubscribed | PUnsubscribing | PUnsubscribed | PFailed.

#[export] Instance phase_eq_dec : EqDecision phase.
Proof. solve_decision. Defined.

(** The error taxonomy of section 7. *)
Inductive error_kind : Type :=
| ResolutionError | SubscribeError | FetchError | NotFound | MessageParseError | UnsubscribeError.

(** The events of the caller's stream. *)
Inductive out : Type :=
| OPayload (d : json)
| OOp (o : json)
| OError (k : error_kind).

Record cstate : Type := CState {
  c_id : string;
  c_phase : phase;
  c_snapshot : option json;
  c_pending : list json;
  c_out : list out
}.

Definition c_init (sid : string) : cstate := CState sid PDiscovering None [] [].

Definition c_set_phase (p : phase) (a : cstate) : cstate :=
  CState (c_id a) p (c_snapshot a) (c_pending a) (c_out a).

Definition c_emit (o : out) (a : cstate) : cstate :=
  CState (c_id a) (c_phase a) (c_snapshot a) (c_pending a) (c_out a ++ [o]).

(** An error: the stream ends in [failed]. *)
Definition c_fail (k : error_kind) (a : cstate) : cstate := c_set_phase PFailed (c_emit (OError k) a).

(** The member of an object (the last one, as [JSON.parse] keeps it). *)
Fixpoint member (k : string) (ms : list (string * json)) : option json :=
  match ms with
  | [] => None
  | (k', v) :: ms' =>
      match member k ms' with
      | Some v' => Some v'
      | None => if String.eqb k k' then Some v else None
      end
  end.

(** Metadata (section 3): [{i: documentId, f: fieldSelector, c: collection}],
    the field selector being optional. *)
Definition metadata_of (v : json) : option (string * json * string) :=
  match v with
  | JObj ms =>
      match member "i" ms, member "f" ms, member "c" ms with
      | Some (JStr i), None, Some (JStr c) => Some (i, JObj [], c)
      | Some (JStr i), Some (JObj f), Some (JStr c) => Some (i, JObj f, c)
      | _, _, _ => None
      end
  | _ => None
  end.

Section Contract.
  Context `{JsonParse}.

Definition resolve (d : option string) : option (string * json * string) :=
    match d with
    | Some t => match json_parse t with Some v => metadata_of v | None => None end
    | None => None
    end.

  (** One turn of the loop, as section 4.1 says. In [subscribing] and
      [subscribed] a message on the channel is buffered until the
      snapshot, then emitted. The fetch result [payload] comes with the
      buffer drained after it. [destroy] in [subscribing] or [subscribed]
      clears the buffer and the snapshot. Every completion that arrives in
      a phase that does not expect it is discarded. *)
Definition c_step (a : cstate) (i : input) : cstate :=
    match c_phase a, i with
    | PDiscovering, GetReply (Some _) _ => c_fail ResolutionError a
    | PDiscovering, GetReply None d =>
        match resolve d with
        | Some _ => c_set_phase PSubscribing a
        | None => c_fail ResolutionError a
        end
    | PSubscribing, SubscribeReply (Some _) => c_fail SubscribeError a
    | PSubscribing, SubscribeReply None => c_set_phase PSubscribed a
    | PSubscribed, FindReply (FindError _) => c_fail FetchError a
    | PSubscribed, FindReply (FindDoc doc) =>
        match c_snapshot a, doc with
        | None, Some d =>
            if truthy doc
            then CState (c_id a) PSubscribed (Some d) []
                   (c_out a ++ OPayload d :: map OOp (c_pending a))
            else c_fail NotFound a
        | None, None => c_fail NotFound a
        | Some _, _ => a
        end
    | (PSubscribing | PSubscribed), Message ch m =>
        if bool_decide (ch = c_id a) then
          match json_parse m with
          | None => c_emit (OError MessageParseError) a
          | Some o =>
              match c_snapshot a with
              | Some _ => c_emit (OOp o) a
              | None => CState (c_id a) (c_phase a) None (c_pending a ++ [o]) (c_out a)
              end
          end
        else a
    | (PSubscribing | PSubscribed), Destroy => CState (c_id a) PUnsubscribing None [] (c_out a)
    | PUnsubscribing, UnsubscribeReply (Some _) => c_fail UnsubscribeError a
    | PUnsubscribing, UnsubscribeReply None => c_set_phase PUnsubscribed a
    | _, _ => a
    end.

Definition contract (sid : string) (ins : list input) : cstate := fold_left c_step ins (c_init sid).

  (** The environment behaves: the metadata resolves, and every reply is
      a success with a document. *)
Definition ok_input (i : input) : bool :=
    match i with
    | GetReply e d => bool_decide (e = None) && bool_decide (is_Some (resolve d))
    | SubscribeReply e | UnsubscribeReply e => bool_decide (e = None)
    | FindReply (FindError _) => false
    | FindReply (FindDoc doc) => truthy doc
    | Message _ _ | Destroy => true
    end.
End Contract.

(** ** What the caller observes *)

Inductive vis : Type := VPayload (d : json) | VOp (o : json) | VError.

Definition vis_of_event (e : event) : vis :=
  match e with EvPayload d => VPayload d | EvOp o => VOp o | EvError _ => VError end.

Definition vis_of_out (o : out) : vis :=
  match o with OPayload d => VPayload d | OOp o => VOp o | OError _ => VError end.

Definition tr_code (s : subscription) : list vis := map vis_of_event (emitted s).
Definition tr_spec (a : cstate) : list vis := map vis_of_out (c_out a).

(** The code's stream is the contract's, except that the ops replayed
    from the buffer come before the [payload] instead of after it. *)
Definition reordered (t_spec t_code : list vis) : Prop :=
  t_code = t_spec \/
  exists pre d buf post,
    t_spec = pre ++ VPayload d :: map VOp buf ++ post /\
    t_code = pre ++ map VOp buf ++ VPayload d :: post.

(** ** The simulation relation *)

Definition rs_of_phase (p : phase) : option ready_state :=
  match p with
  | PDiscovering => Some Discoverying
  | PSubscribing => Some Subscribing
  | PSubscribed => Some Subscribed
  | PUnsubscribing => Some Unsubscribing
  | PUnsubscribed => Some Unsubscribed
  | PFailed => None
  end.

Definition is_subscribe (c : cmd) : bool := match c with Subscribe _ => true | _ => false end.

(** Before [destroy]: the code's state is the contract's. *)
Definition sim_pre (s : subscription) (a : cstate) : Prop :=
  readyState s = rs_of_phase (c_phase a) /\ live s /\ buffered s = c_pending a /\
  payload s = c_snapshot a /\ listening s = bool_decide (c_phase a <> PDiscovering) /\
  Forall (fun c => is_unsub c = false) (inflight s) /\
  match c_snapshot a with
  | None => tr_code s = tr_spec a
  | Some d =>
      truthy (Some d) = true /\ c_phase a = PSubscribed /\
      Forall (fun c => leads_to_payload c = false) (inflight s) /\ reordered (tr_spec a) (tr_code s)
  end.

(** After [destroy]: the code is off the channel with a [null] buffer; a
    revived subscription still has the replay listener. *)
Definition sim_post (s : subscription) (a : cstate) : Prop :=
  listening s = false /\ ops s = None /\
  (readyState s = Some Subscribed \/ readyState s = Some Unsubscribing \/
   readyState s = Some Unsubscribed) /\
  (readyState s = Some Subscribed \/ existsb is_subscribe (inflight s) = true ->
   events s = regs_open) /\
  reordered (tr_spec a) (tr_code s).

Definition pre_phase (p : phase) : Prop := p = PDiscovering \/ p = PSubscribing \/ p = PSubscribed.

Section Simulation.
  Context `{JsonParse}.

Definition sim (s : subscription) (a : cstate) : Prop :=
    reachable s /\ id s = c_id a /\
    match c_phase a with
    | PDiscovering | PSubscribing | PSubscribed => sim_pre s a
    | PUnsubscribing | PUnsubscribed => sim_post s a
    | PFailed => False
    end.
End Simulation.

(** ** Lemmas on the observed streams *)

Lemma reordered_refl t : reordered t t.
Proof. by left. Qed.

Lemma reordered_snoc t1 t2 x : reordered t1 t2 -> reordered (t1 ++ [x]) (t2 ++ [x]).
Proof.
  intros [-> | (pre & d & buf & post & -> & ->)]; [by left|]. right.
  exists pre, d, buf, (post ++ [x]). split; rewrite <- !app_assoc; cbn; by rewrite <- ?app_assoc.
Qed.

Lemma tr_code_record e s : tr_code (record e s) = tr_code s ++ [vis_of_event e].
Proof. unfold tr_code. destruct s. cbn. by rewrite map_app. Qed.

Lemma tr_spec_emit o a : tr_spec (c_emit o a) = tr_spec a ++ [vis_of_out o].
Proof. unfold tr_spec. destruct a. cbn. by rewrite map_app. Qed.

#[export] Hint Resolve reordered_refl reordered_snoc : mydb.
#[export] Hint Rewrite tr_code_record tr_spec_emit : mydb_rw.

Lemma existsb_remove_first (f p : cmd -> bool) q :
  existsb f (remove_first p q) = true -> existsb f q = true.
Proof.
  induction q as [|c q IH]; [done|]. cbn. destruct (p c); cbn; [intros Hq; rewrite Hq; apply orb_true_r|].
  destruct (f c); [done|]. exact IH.
Qed.

Lemma Forall_remove_first_app (P : cmd -> Prop) p q c :
  Forall P q -> P c -> Forall P (remove_first p q ++ [c]).
Proof. intros Hq Hc. apply Forall_app. split; [auto with mydb | by constructor]. Qed.

#[export] Hint Resolve Forall_remove_first_app : mydb.

Lemma pubsub_head_subscribe q x : pubsub_head q = Some (Subscribe x) -> existsb is_subscribe q = true.
Proof.
  intros Hh. apply pubsub_head_in, list_elem_of_In in Hh. apply existsb_exists. by exists (Subscribe x).
Qed.

(** No [SUBSCRIBE] in flight when the pub/sub queue holds only
    [UNSUBSCRIBE]s. *)
Lemma no_subscribe q sid :
  Forall (fun c => c = Unsubscribe sid) (pubsub_cmds q) -> existsb is_subscribe q = false.
Proof.
  induction q as [|c q IH]; [done|]. unfold pubsub_cmds. cbn.
  destruct c; cbn; intros Hf; try (apply IH; exact Hf).
  - by apply Forall_cons_1 in Hf as [? _].
  - apply Forall_cons_1 in Hf as [_ Hf]. by apply IH.
Qed.

Lemma Forall_count_zero (f : cmd -> bool) q :
  List.length (List.filter f q) = 0 -> Forall (fun c => f c = false) q.
Proof.
  induction q as [|c q IH]; cbn; [constructor|]. destruct (f c) eqn:E; [done|]. constructor; auto.
Qed.

(** The phase of the contract is determined by [readyState] before
    [destroy]. *)
Lemma rs_of_phase_inj p p' : rs_of_phase p = rs_of_phase p' -> p <> PFailed -> p = p'.
Proof. destruct p, p'; cbn; congruence. Qed.

(** ** The simulation, turn by turn *)

Lemma c_step_id `{JsonParse} a i : c_id (c_step a i) = c_id a.
Proof.
  unfold c_step. destruct (c_phase a), i as [[] []|[]|[]|[? | []]|? ?|]; cbn;
    repeat (case_match; cbn); done.
Qed.

Section SimSteps.
  Context `{JsonParse}.

Lemma sim_cases s a :
    sim s a ->
    reachable s /\ id s = c_id a /\
    ((pre_phase (c_phase a) /\ sim_pre s a) \/
     ((c_phase a = PUnsubscribing \/ c_phase a = PUnsubscribed) /\ sim_post s a)).
  Proof.
    intros (Hr & Hid & Hs). split_and!; [done | done |].
    unfold pre_phase. destruct (c_phase a); naive_solver.
  Qed.

Lemma sim_intro s a :
    reachable s -> id s = c_id a ->
    (pre_phase (c_phase a) /\ sim_pre s a) \/
    ((c_phase a = PUnsubscribing \/ c_phase a = PUnsubscribed) /\ sim_post s a) ->
    sim s a.
  Proof.
    intros Hr Hid Hs. split_and!; [done | done |]. unfold pre_phase in Hs.
    destruct (c_phase a); naive_solver.
  Qed.

  (** Before [destroy], the snapshot is set only in [subscribed]. *)
Lemma sim_pre_no_snapshot s a :
    sim_pre s a -> c_phase a <> PSubscribed -> c_snapshot a = None /\ tr_code s = tr_spec a.
  Proof.
    intros (_ & _ & _ & _ & _ & _ & Hsn) Hp. destruct (c_snapshot a); [naive_solver | done].
  Qed.

  (** A redis [GET] reply is accepted only in [discoverying]. *)
Lemma sim_get e d s a s' :
    sim s a -> ok_input (GetReply e d) = true -> step s (GetReply e d) = Some (Ok s') ->
    sim s' (c_step a (GetReply e d)).
  Proof.
    intros Hsim Hok Hs. pose proof (reachable_step _ _ _ (proj1 Hsim) Hs) as Hr'.
    apply sim_cases in Hsim as (Hr & Hid & Hsim).
    cbn in Hok, Hs. apply andb_true_iff in Hok as [He Hd].
    apply bool_decide_eq_true in He, Hd. subst e.
    destruct (existsb is_get (inflight s)) eqn:Hg; [|done]. injection Hs as Hs.
    pose proof (reachable_phase s Hr) as (_ & _ & Hnd & _).
    assert (Hrs : readyState s = Some Discoverying).
    { destruct (decide (readyState s = Some Discoverying)) as [?|Hne]; [done|].
      by destruct (existsb_Forall_false _ _ Hg (proj1 (Hnd Hne))). }
    destruct Hsim as [[Hp Hpre]|[Hp (_ & _ & Hrs' & _)]]; [|rewrite Hrs in Hrs'; naive_solver].
    pose proof Hpre as (Hrs' & Hl & Hb & Hpay & _ & Hnu & _).
    assert (Hph : c_phase a = PDiscovering) by (rewrite Hrs in Hrs'; by destruct (c_phase a)).
    destruct (sim_pre_no_snapshot s a Hpre ltac:(by rewrite Hph)) as [Hsn Htr].
    destruct d as [t|]; [|by destruct Hd]. unfold resolve in Hd.
    destruct (json_parse t) as [v|] eqn:Hv; [|by destruct Hd].
    cbn [get_cb] in Hs. injection Hs as <-.
    unfold c_step. rewrite Hph. unfold resolve. rewrite Hv. destruct (metadata_of v); [|by destruct Hd].
    unfold sim; cbn. split_and!; [done | by destruct s|].
    destruct (live_same_view s (subscribe (set_meta (string_prop t "i")
      (js_or (string_prop t "f") (Some (JObj []))) (string_prop t "c") (complete is_get s))))
      as (Hl' & _); [frame | done |].
    unfold sim_pre, buffered in *; cbn. rewrite Hsn in Hpay |- *. split_and!; try done.
    by apply Forall_remove_first_app.
  Qed.

  (** The subscribe ack: [subscribing] moves to [subscribed]; after
      [destroy], the late ack revives the code, which the contract
      ignores. *)
Lemma sim_subscribe e s a s' :
    sim s a -> ok_input (SubscribeReply e) = true -> step s (SubscribeReply e) = Some (Ok s') ->
    sim s' (c_step a (SubscribeReply e)).
  Proof.
    intros Hsim Hok Hs. pose proof (reachable_step _ _ _ (proj1 Hsim) Hs) as Hr'.
    apply sim_cases in Hsim as (Hr & Hid & Hsim).
    cbn in Hok, Hs. apply bool_decide_eq_true in Hok. subst e.
    destruct (pubsub_head (inflight s)) as [[]|] eqn:Hh; try done. injection Hs as <-.
    apply sim_intro; [done | rewrite c_step_id; by destruct s |].
    pose proof (reachable_phase s Hr) as (Hps & _).
    pose proof Hh as Hh'. rewrite pubsub_head_cmds in Hh'.
    destruct Hsim as [[Hp Hpre]|[Hp Hpost]].
    - pose proof Hpre as (Hrs' & Hl & Hb & Hpay & Hlis & Hnu & _).
      destruct (pubsub_subscribe_next s _ Hps Hh') as [[Hrs _]|[Hrs _]];
        [|rewrite Hrs in Hrs'; by destruct Hp as [E | [E | E]]; rewrite E in Hrs'].
      assert (Hph : c_phase a = PSubscribing) by (rewrite Hrs in Hrs'; by destruct (c_phase a)).
      destruct (sim_pre_no_snapshot s a Hpre ltac:(by rewrite Hph)) as [Hsn Htr].
      unfold c_step. rewrite Hph. cbn. left. split; [unfold pre_phase; auto|].
      destruct (live_same_view s (fetch (set_readyState Subscribed (complete is_pubsub s))))
        as (Hl' & _); [frame | done |].
      unfold sim_pre, buffered in *; cbn. rewrite Hph in Hlis. rewrite Hsn in Hpay |- *.
      split_and!; try done. by apply Forall_remove_first_app.
    - destruct Hpost as (Hlis & Hops & Hrs' & Hreg & Htr).
      destruct (pubsub_subscribe_next s _ Hps Hh') as [[Hrs _]|[Hrs _]];
        [rewrite Hrs in Hrs'; naive_solver|].
      assert (c_step a (SubscribeReply None) = a) as -> by (unfold c_step; by destruct Hp as [-> | ->]).
      right. split; [done|]. unfold sim_post in *; cbn. split_and!; try done; [by left|].
      intros _. apply Hreg. right. by eapply pubsub_head_subscribe.
  Qed.

  (** The unsubscribe ack: only after [destroy]. *)
Lemma sim_unsubscribe e s a s' :
    sim s a -> ok_input (UnsubscribeReply e) = true -> step s (UnsubscribeReply e) = Some (Ok s') ->
    sim s' (c_step a (UnsubscribeReply e)).
  Proof.
    intros Hsim Hok Hs. pose proof (reachable_step _ _ _ (proj1 Hsim) Hs) as Hr'.
    apply sim_cases in Hsim as (Hr & Hid & Hsim).
    cbn in Hok, Hs. apply bool_decide_eq_true in Hok. subst e.
    destruct (pubsub_head (inflight s)) as [[]|] eqn:Hh; try done. injection Hs as <-.
    apply sim_intro; [done | rewrite c_step_id; by destruct s |].
    destruct Hsim as [[Hp Hpre]|[Hp Hpost]].
    { pose proof Hpre as (_ & _ & _ & _ & _ & Hnu & _). apply pubsub_head_in in Hh.
      rewrite Forall_forall in Hnu. by specialize (Hnu _ Hh). }
    destruct Hpost as (Hlis & Hops & _ & Hreg & Htr). right.
    unfold c_step. destruct Hp as [E | E]; rewrite E; cbn; (split; [rewrite ?E; auto|]);
      unfold sim_post; cbn; split_and!; try done; try naive_solver.
    all: intros [? | Hx]; [done | apply Hreg; right; exact (existsb_remove_first _ _ _ Hx)].
  Qed.

  (** Answering a request changes nothing else the relation looks at. *)
Lemma sim_pre_complete p s a : sim_pre s a -> sim_pre (complete p s) a.
  Proof.
    intros (Hrs & Hl & Hb & Hpay & Hlis & Hnu & Hsn).
    destruct (live_complete p s Hl) as (Hl' & _).
    unfold sim_pre, buffered, tr_code in *; cbn. split_and!; auto with mydb.
    destruct (c_snapshot a); [|done]. destruct Hsn as (? & ? & ? & ?). split_and!; auto with mydb.
  Qed.

Lemma sim_post_complete p s a : sim_post s a -> sim_post (complete p s) a.
  Proof.
    intros (Hlis & Hops & Hrs & Hreg & Htr). unfold sim_post, tr_code in *; cbn.
    split_and!; auto. intros [? | Hx]; apply Hreg; [by left | right; exact (existsb_remove_first _ _ _ Hx)].
  Qed.

  (** After the reply to the only fetch, no request that leads to a
      [payload] is left. *)
Lemma no_fetch_left s :
    reachable s -> existsb is_find (inflight s) = true ->
    Forall (fun c => leads_to_payload c = false) (remove_first is_find (inflight s)).
  Proof.
    intros Hr Hg. pose proof (budget_reachable s Hr) as Hb. unfold budget in Hb.
    destruct (existsb_find _ _ Hg) as (c & Hf & Hc).
    rewrite (count_remove_first _ leads_to_payload _ _ Hf) in Hb.
    apply Forall_count_zero. destruct c; cbn in *; try done; lia.
  Qed.

Lemma map_vis_ops l : map vis_of_out (map OOp l) = map VOp l.
  Proof. by induction l as [|o l IH]; [|cbn; rewrite IH]. Qed.

Lemma map_vis_evops l : map vis_of_event (map EvOp l) = map VOp l.
  Proof. by induction l as [|o l IH]; [|cbn; rewrite IH]. Qed.

  (** The document arrives in [subscribed]: the contract emits [payload]
      then the buffer; the code emits the buffer then [payload]. *)
Lemma sim_payload d s a :
    reachable s -> sim_pre s a -> c_phase a = PSubscribed -> c_snapshot a = None ->
    existsb is_find (inflight s) = true -> truthy (Some d) = true ->
    exists s', fetch_cb (FindDoc (Some d)) (complete is_find s) = Ok s' /\
      sim_pre s' (c_step a (FindReply (FindDoc (Some d)))).
  Proof.
    intros Hr (Hrs & (l & Hops & Hl) & Hb & Hpay & Hlis & Hnu & Hsn) Hph Hsn0 Hg Hd.
    rewrite Hsn0 in Hpay, Hsn. rewrite Hph in Hrs, Hlis.
    destruct Hl as [[_ Hev]|[Ht _]]; [|by rewrite Hpay in Ht].
    rewrite fetch_cb_subscribed by (by destruct s). rewrite Hd. cbn -[emit].
    unfold emit_fuel. rewrite emit_payload_open with (l := l) by (by destruct s).
    eexists. split; [done|]. unfold c_step. rewrite Hph, Hsn0, Hd.
    unfold buffered in Hb. rewrite Hops in Hb. cbn in Hb. subst l.
    unfold sim_pre, live, buffered, tr_code, tr_spec in *; cbn. rewrite Hlis.
    split_and!; auto with mydb.
    - exists []. split; [done|]. right. auto.
    - by apply no_fetch_left.
    - right. exists (map vis_of_out (c_out a)), d, (c_pending a), [].
      rewrite !map_app, map_vis_evops. cbn. rewrite map_vis_ops, Hsn, app_nil_r. split; [done|].
      by rewrite <- app_assoc.
  Qed.

  (** The fetch reply. *)
Lemma sim_find r s a s' :
    sim s a -> ok_input (FindReply r) = true -> step s (FindReply r) = Some (Ok s') ->
    sim s' (c_step a (FindReply r)).
  Proof.
    intros Hsim Hok Hs. pose proof (reachable_step _ _ _ (proj1 Hsim) Hs) as Hr'.
    apply sim_cases in Hsim as (Hr & Hid & Hsim).
    destruct r as [e|[d|]]; try done. change (truthy (Some d) = true) in Hok. cbn in Hs.
    destruct (existsb is_find (inflight s)) eqn:Hg; [|done]. injection Hs as Hs.
    pose proof (reachable_phase s Hr) as (_ & _ & _ & _ & _ & _ & Hro).
    pose proof (fetch_cb_keeps _ _ _ (proj2 (regs_ok_complete is_find s) Hro) Hs) as [Hk _].
    apply sim_intro; [done | rewrite c_step_id, (proj1 Hk); by destruct s |].
    destruct Hsim as [[Hp Hpre]|[Hp Hpost]].
    - destruct (decide (c_phase a = PSubscribed)) as [Hph|Hph].
      + destruct (c_snapshot a) eqn:Hsn.
        * pose proof Hpre as (_ & _ & _ & _ & _ & _ & Hsn'). rewrite Hsn in Hsn'.
          destruct Hsn' as (_ & _ & Hf & _). apply existsb_exists in Hg as (c & Hin & Hc).
          rewrite Forall_forall in Hf. apply list_elem_of_In, Hf in Hin.
          destruct c; cbn in *; congruence.
        * destruct (sim_payload d s a Hr Hpre Hph Hsn Hg Hok) as (s1 & Hs1 & Hpre').
          rewrite Hs in Hs1. injection Hs1 as <-. left. split; [|done].
          unfold c_step. rewrite Hph, Hsn. cbn -[truthy]. rewrite Hok. unfold pre_phase. auto.
      + pose proof Hpre as (Hrs & _). unfold fetch_cb in Hs.
        rewrite bool_decide_true in Hs by (cbn; rewrite Hrs; by destruct Hp as [E|[E|E]]; rewrite E).
        injection Hs as <-. left. unfold c_step.
        destruct Hp as [E|[E|E]]; rewrite E; try done; (split; [unfold pre_phase; auto|]);
          by apply sim_pre_complete.
    - pose proof Hpost as (_ & Hops & Hrs & Hreg & _). unfold fetch_cb in Hs.
      destruct (decide (readyState s = Some Subscribed)) as [Hsub|Hsub].
      + rewrite bool_decide_false in Hs by (cbn; rewrite Hsub; auto). rewrite Hok in Hs.
        cbn -[emit] in Hs. unfold emit_fuel in Hs.
        rewrite emit_payload_destroyed in Hs; [done | by cbn; apply Hreg; left | by destruct s].
      + rewrite bool_decide_true in Hs by (cbn; done). injection Hs as <-.
        right. unfold c_step. destruct Hp as [E|E]; rewrite E; cbn; (split; [auto|]);
          by apply sim_post_complete.
  Qed.

Lemma live_record e s : live s -> live (record e s).
  Proof. by destruct s. Qed.

  (** An event delivered by both sides. *)
Lemma sim_pre_record e o s a :
    sim_pre s a -> vis_of_event e = vis_of_out o -> sim_pre (record e s) (c_emit o a).
  Proof.
    intros (Hrs & Hl & Hb & Hpay & Hlis & Hnu & Hsn) Hv. pose proof (live_record e s Hl).
    unfold sim_pre, buffered in *. autorewrite with mydb_rw. rewrite Hv.
    destruct s, a; cbn in *. split_and!; auto.
    destruct c_snapshot0; [destruct Hsn as (? & ? & ? & ?); split_and!; auto with mydb | by rewrite Hsn].
  Qed.

Lemma c_step_message a ch m :
    c_phase a = PSubscribing \/ c_phase a = PSubscribed ->
    c_step a (Message ch m) =
    if bool_decide (ch = c_id a) then
      match json_parse m with
      | None => c_emit (OError MessageParseError) a
      | Some o =>
          match c_snapshot a with
          | Some _ => c_emit (OOp o) a
          | None => CState (c_id a) (c_phase a) None (c_pending a ++ [o]) (c_out a)
          end
      end
    else a.
  Proof. unfold c_step. by intros [-> | ->]. Qed.

  (** A message: only while [this.onMessage] is attached, that is in
      [subscribing] and [subscribed] before [destroy]. *)
Lemma sim_message ch m s a s' :
    sim s a -> step s (Message ch m) = Some (Ok s') -> sim s' (c_step a (Message ch m)).
  Proof.
    intros Hsim Hs. pose proof (reachable_step _ _ _ (proj1 Hsim) Hs) as Hr'.
    apply sim_cases in Hsim as (Hr & Hid & Hsim). cbn in Hs.
    destruct (listening s) eqn:Hlis0; [|done]. injection Hs as Hs.
    destruct Hsim as [[Hp Hpre]|[Hp (Hl & _)]]; [|by rewrite Hl in Hlis0].
    pose proof Hpre as (Hrs & Hl & Hb & Hpay & Hlis & Hnu & Hsn).
    assert (Hph : c_phase a = PSubscribing \/ c_phase a = PSubscribed).
    { destruct Hp as [E|[E|E]]; auto. by rewrite E, Hlis0, bool_decide_false in Hlis. }
    pose proof (onMessage_keeps _ _ _ _ (proj2 (proj2 (proj2 (proj2 (proj2 (proj2
      (reachable_phase s Hr))))))) Hs) as [(Hid' & _) _].
    apply sim_intro; [done | rewrite c_step_id; congruence |]. left.
    rewrite c_step_message by done. unfold onMessage in Hs.
    destruct (decide (ch = c_id a)) as [Hch|Hch].
    2: { rewrite bool_decide_false in Hs by congruence. rewrite bool_decide_false by done.
         injection Hs as <-. auto. }
    rewrite bool_decide_true in Hs by congruence. rewrite bool_decide_true by done.
    destruct (json_parse m) as [o|].
    2: { rewrite js_emit_error in Hs by (by apply live_caller_only). injection Hs as <-.
         split; [done | by apply sim_pre_record]. }
    destruct (c_snapshot a) as [d|] eqn:Hsn0.
    - destruct Hsn as (Hd & _). rewrite Hpay, Hd in Hs.
      rewrite js_emit_op in Hs by (by apply live_caller_only). injection Hs as <-.
      split; [done | by apply sim_pre_record].
    - rewrite Hpay in Hs. destruct Hl as (l & Hops & [[_ Hev]|[Ht _]]); [|by rewrite Hpay in Ht].
      rewrite Hops in Hs. cbn in Hs. injection Hs as <-. split; [done|].
      unfold sim_pre, live, buffered in *; cbn. rewrite Hops in Hb. cbn in Hb. subst l.
      split_and!; try done. exists (c_pending a ++ [o]). rewrite Hpay. auto.
  Qed.

  (** [destroy]: in [subscribing] and [subscribed] both sides tear down. *)
Lemma sim_destroy s a s' : sim s a -> step s Destroy = Some (Ok s') -> sim s' (c_step a Destroy).
  Proof.
    intros Hsim Hs. pose proof (reachable_step _ _ _ (proj1 Hsim) Hs) as Hr'.
    apply sim_cases in Hsim as (Hr & Hid & Hsim). cbn in Hs. injection Hs as <-.
    apply sim_intro; [done | rewrite c_step_id; unfold destroy; case_bool_decide; cbn; done |].
    pose proof (reachable_phase s Hr) as (Hps & _).
    destruct Hsim as [[Hp Hpre]|[Hp Hpost]].
    - pose proof Hpre as (Hrs & Hl & Hb & Hpay & Hlis & Hnu & Hsn).
      destruct Hp as [E|Hp].
      { unfold destroy. rewrite bool_decide_false by (rewrite Hrs, E; naive_solver).
        unfold c_step. rewrite E. left. split; [by left | done]. }
      unfold destroy. rewrite bool_decide_true by (rewrite Hrs; destruct Hp as [-> | ->]; auto).
      right. unfold c_step. destruct Hp as [E|E]; rewrite E; cbn; (split; [auto|]);
        unfold sim_post; cbn; split_and!; try done; auto.
      1,3: intros [? | Hx]; [done|]; rewrite existsb_app, orb_false_r in Hx.
      + destruct (sim_pre_no_snapshot s a Hpre ltac:(by rewrite E)) as [Hsn0 _].
        rewrite Hsn0 in Hpay. destruct Hl as (l & _ & [[_ Hev]|[Ht _]]); [done | by rewrite Hpay in Ht].
      + rewrite Hrs, E in Hps. by rewrite (no_subscribe _ _ Hps) in Hx.
      + destruct (sim_pre_no_snapshot s a Hpre ltac:(by rewrite E)) as [_ Htr]. left. exact Htr.
      + destruct (c_snapshot a); [by destruct Hsn as (_ & _ & _ & ?) | left; exact Hsn].
    - pose proof Hpost as (Hlis & Hops & Hrs & Hreg & Htr). right.
      assert (c_step a Destroy = a) as -> by (unfold c_step; by destruct Hp as [-> | ->]).
      split; [done|]. unfold destroy. case_bool_decide as Hsub; [|done].
      assert (Hs : readyState s = Some Subscribed) by (destruct Hrs as [? | [? | ?]]; naive_solver).
      unfold sim_post; cbn. split_and!; auto.
  Qed.

  (** One turn of the loop. *)
Lemma sim_step s a i s' :
    sim s a -> ok_input i = true -> step s i = Some (Ok s') -> sim s' (c_step a i).
  Proof.
    destruct i; eauto using sim_get, sim_subscribe, sim_unsubscribe, sim_find, sim_message, sim_destroy.
  Qed.

Lemma sim_exec s a ins s' :
    sim s a -> forallb ok_input ins = true -> exec s ins = Some (Ok s') ->
    sim s' (fold_left c_step ins a).
  Proof.
    revert s a. induction ins as [|i ins IH]; intros s a Hsim Hok Hx; cbn in *.
    - by injection Hx as <-.
    - apply andb_true_iff in Hok as [Hi Hok].
      destruct (step s i) as [[s1|x]|] eqn:Hs; try discriminate. eauto using sim_step.
  Qed.

Lemma sim_open sid : sim (open_subscription sid) (c_init sid).
  Proof.
    apply sim_intro; [constructor | done |]. left. split; [by left|].
    unfold sim_pre. cbn. split_and!; try done; [apply live_open | repeat constructor].
  Qed.

Lemma sim_reordered s a : sim s a -> reordered (tr_spec a) (tr_code s).
  Proof.
    intros (_ & _ & Hsim). destruct (c_phase a); try done;
      try (by destruct Hsim as (_ & _ & _ & _ & ?)).
    all: destruct Hsim as (_ & _ & _ & _ & _ & _ & Hsn).
    all: destruct (c_snapshot a); [by destruct Hsn as (_ & _ & _ & ?) | by rewrite Hsn; left].
  Qed.
End SimSteps.

(** Without [destroy], the contract stays in its first three phases (or
    fails). *)
Lemma contract_no_destroy `{JsonParse} ins a :
  Destroy ∉ ins -> pre_phase (c_phase a) \/ c_phase a = PFailed ->
  pre_phase (c_phase (fold_left c_step ins a)) \/ c_phase (fold_left c_step ins a) = PFailed.
Proof.
  revert a. induction ins as [|i ins IH]; intros a Hd Hp; [done|].
  apply not_elem_of_cons in Hd as [Hi Hd]. cbn. apply IH; [done|].
  unfold pre_phase in *. unfold c_step.
  destruct Hp as [[E|[E|E]]|E]; rewrite E;
    destruct i as [[] []|[]|[]|[? | []]|? ?|]; try done; cbn; repeat case_match; cbn; auto.
Qed.

(** ** The refinement theorems *)
Section Refinement.
  Context `{JsonParse}.

  (** C2 (refinement). The code implements the contract of spec section
      4.1, up to the position of [payload]. Take any interleaving of
      replies, messages (malformed ones included) and [destroy] calls
      that the loop accepts without an exception. Assume the metadata
      record is well formed and redis and mongo answer every request
      with success and a document. Then the caller receives exactly the
      contract's [payload], [op] and [error] events, except that the ops
      buffered before the document arrive just before [payload] instead
      of just after it. Only those ops move. Nothing is lost, duplicated
      or added, and nothing reaches the caller after [destroy]. *)
Theorem code_refines_contract sid ins s :
    exec (open_subscription sid) ins = Some (Ok s) -> forallb ok_input ins = true ->
    reordered (tr_spec (contract sid ins)) (tr_code s).
  Proof. intros Hx Hok. apply sim_reordered. exact (sim_exec _ _ _ _ (sim_open sid) Hok Hx). Qed.

  (** C8 (refinement). Before any [destroy], under the same assumptions,
      the code's state is the contract's state. [readyState] is the
      contract's phase, [this.ops] holds the contract's pending buffer,
      and [this.payload] is the contract's snapshot. *)
Theorem state_refines_contract sid ins s :
    exec (open_subscription sid) ins = Some (Ok s) -> forallb ok_input ins = true ->
    Destroy ∉ ins ->
    readyState s = rs_of_phase (c_phase (contract sid ins)) /\
    buffered s = c_pending (contract sid ins) /\ payload s = c_snapshot (contract sid ins).
  Proof.
    intros Hx Hok Hd. pose proof (sim_exec _ _ _ _ (sim_open sid) Hok Hx) as Hsim.
    destruct (contract_no_destroy ins (c_init sid) Hd ltac:(left; by left)) as [Hp|Hp];
      apply sim_cases in Hsim as (_ & _ & [[Hp' Hpre]|[Hp' _]]).
    - by destruct Hpre as (? & _ & ? & ? & _).
    - destruct Hp as [E|[E|E]]; unfold contract in Hp'; rewrite E in Hp'; naive_solver.
    - by destruct Hp' as [E|[E|E]]; unfold contract in Hp; rewrite E in Hp.
    - by destruct Hp' as [E|E]; unfold contract in Hp; rewrite E in Hp.
  Qed.
End Refinement.

(** ** Witnesses

    JSON is parsed by [MiniJson]; the metadata record of [doc1] is
    [{"i":"doc1","f":{},"c":"users"}]. *)
Import MiniJson.

Lemma code_refines_contract_witness :
  let meta := "{" +:+ quoted "i" +:+ ":" +:+ quoted "doc1" +:+ "," +:+ quoted "f" +:+ ":{}," +:+
              quoted "c" +:+ ":" +:+ quoted "users" +:+ "}" in
  let ins := [GetReply None (Some meta); Message "doc1" "1"; SubscribeReply None;
              Message "doc1" "[2"; Message "doc2" "9"; Message "doc1" "2";
              FindReply (FindDoc (Some (JObj [("name", JStr "x")]))); Message "doc1" "3";
              Destroy; UnsubscribeReply None] in
  let s := match exec (open_subscription "doc1") ins with
           | Some (Ok s) => s | _ => open_subscription "doc1" end in
  exec (open_subscription "doc1") ins = Some (Ok s) /\ forallb ok_input ins = true /\
  tr_code s <> tr_spec (contract "doc1" ins) /\
  reordered (tr_spec (contract "doc1" ins)) (tr_code s).
Proof.
  intros meta ins s.
  assert (Hx : exec (open_subscription "doc1") ins = Some (Ok s)) by (vm_compute; reflexivity).
  assert (Hok : forallb ok_input ins = true) by (vm_compute; reflexivity).
  split_and!; [exact Hx | exact Hok | vm_compute; discriminate |].
  exact (code_refines_contract "doc1" ins s Hx Hok).
Defined.

Lemma state_refines_contract_witness :
  let meta := "{" +:+ quoted "i" +:+ ":" +:+ quoted "doc1" +:+ "," +:+ quoted "c" +:+ ":" +:+
              quoted "users" +:+ "}" in
  let ins := [GetReply None (Some meta); SubscribeReply None; Message "doc1" "1";
              Message "doc1" "2"] in
  let s := match exec (open_subscription "doc1") ins with
           | Some (Ok s) => s | _ => open_subscription "doc1" end in
  exec (open_subscription "doc1") ins = Some (Ok s) /\ forallb ok_input ins = true /\
  (Destroy ∉ ins) /\
  readyState s = rs_of_phase (c_phase (contract "doc1" ins)) /\
  buffered s = c_pending (contract "doc1" ins) /\ payload s = c_snapshot (contract "doc1" ins).
Proof.
  intros meta ins s.
  assert (Hx : exec (open_subscription "doc1") ins = Some (Ok s)) by (vm_compute; reflexivity).
  assert (Hok : forallb ok_input ins = true) by (vm_compute; reflexivity).
  assert (Hd : Destroy ∉ ins) by (rewrite list_elem_of_In; simpl; intuition discriminate).
  split_and!; [exact Hx | exact Hok | exact Hd | ..];
    destruct (state_refines_contract "doc1" ins s Hx Hok Hd) as (? & ? & ?); assumption.
Defined.
