(* ===== verification/Progress.v ===== *)
(** * Progress: teardown completes

    Spec section 8: "[destroy()] called while [subscribing] or [subscribed]
    always transitions to [unsubscribed] (assuming unsubscribe succeeds)".
    The redis pub/sub connection answers its commands in order.
    [pubsub_acks] lists the successful replies to the commands in flight
    there, oldest first. This file proves the following. After [destroy]
    in [subscribing] or [subscribed], these replies are accepted one
    after the other without an exception. The last one leaves the
    subscription in [unsubscribed], with nothing pending on the pub/sub
    connection. That includes the subscribe ack that may still be pending
    when [destroy] runs: it revives the subscription for a moment, and
    the unsubscribe ack that follows it ends it. Other inputs are not
    interleaved here. A fetch reply that arrives between the two acks
    crashes the process ([Lifecycle.destroy_then_late_ack_crashes]). *)

From S2P Require Import Prelude Json Emitter Subscription EventLoop Lifecycle.

(** The successful replies of redis to the pub/sub commands in flight. *)
Definition pubsub_acks (q : list cmd) : list input :=
  map (fun c => match c with Subscribe _ => SubscribeReply None | _ => UnsubscribeReply None end)
    (pubsub_cmds q).

Lemma pubsub_cmds_fetch s : pubsub_cmds (inflight (fetch s)) = pubsub_cmds (inflight s).
Proof. unfold fetch, send, pubsub_cmds. cbn. by rewrite List.filter_app, app_nil_r. Qed.

Lemma pubsub_cmds_destroyed s :
  bool_decide (readyState s = Some Subscribing \/ readyState s = Some Subscribed) = true ->
  pubsub_cmds (inflight (destroy s)) = pubsub_cmds (inflight s) ++ [Unsubscribe (id s)].
Proof. intros Hb. unfold destroy. rewrite Hb. cbn. by rewrite pubsub_cmds_app. Qed.

Section Progress.
  Context `{JsonParse}.

  (** The unsubscribe acks, when only [UNSUBSCRIBE]s are pending. *)
Lemma acks_unsubscribe t :
    Forall (fun c => is_unsub c = true) (pubsub_cmds (inflight t)) -> pubsub_cmds (inflight t) <> [] ->
    exists t', exec t (pubsub_acks (inflight t)) = Some (Ok t') /\
      readyState t' = Some Unsubscribed /\ pubsub_cmds (inflight t') = [].
  Proof.
    unfold pubsub_acks. remember (pubsub_cmds (inflight t)) as p eqn:Hp.
    revert t Hp. induction p as [|c p IH]; intros t Hp Hf Hne; [done|].
    apply Forall_cons_1 in Hf as [Hc Hf]. destruct c as [| |x|]; try discriminate. cbn.
    rewrite pubsub_head_cmds, <- Hp. cbn.
    set (t1 := set_readyState Unsubscribed (complete is_pubsub t)).
    assert (Hp1 : pubsub_cmds (inflight t1) = p).
    { unfold t1, complete. cbn. by rewrite pubsub_cmds_remove_pubsub, <- Hp. }
    destruct p as [|c' p'].
    - exists t1. split_and!; [done | done | exact Hp1].
    - exact (IH t1 (eq_sym Hp1) Hf ltac:(done)).
  Qed.

  (** A subscribe ack in front of them revives the subscription first. *)
Lemma acks_subscribe_first t x :
    pubsub_cmds (inflight t) = Subscribe x :: pubsub_cmds (remove_first is_pubsub (inflight t)) ->
    Forall (fun c => is_unsub c = true) (pubsub_cmds (remove_first is_pubsub (inflight t))) ->
    pubsub_cmds (remove_first is_pubsub (inflight t)) <> [] ->
    exists t', exec t (pubsub_acks (inflight t)) = Some (Ok t') /\
      readyState t' = Some Unsubscribed /\ pubsub_cmds (inflight t') = [].
  Proof.
    intros Hp Hf Hne. unfold pubsub_acks at 1. rewrite Hp. cbn.
    rewrite pubsub_head_cmds, Hp. cbn.
    set (t1 := fetch (set_readyState Subscribed (complete is_pubsub t))).
    assert (Hp1 : pubsub_cmds (inflight t1) = pubsub_cmds (remove_first is_pubsub (inflight t)))
      by (unfold t1; rewrite pubsub_cmds_fetch; by destruct t).
    rewrite <- Hp1 in Hf, Hne |- *. exact (acks_unsubscribe t1 Hf Hne).
  Qed.

Lemma Forall_unsub sid p :
    Forall (fun c => c = Unsubscribe sid) p -> Forall (fun c => is_unsub c = true) p.
  Proof. intros Hf. eapply Forall_impl; [exact Hf|]. by intros c ->. Qed.

  (** C9 (liveness). [destroy] in [subscribing] or [subscribed] always
      completes: when redis acknowledges the pub/sub commands in flight
      in order, every ack is accepted without an exception. The
      subscription ends in [unsubscribed] with nothing left pending on the
      pub/sub connection. A subscribe ack still pending at [destroy] is
      among those acks. *)
Theorem destroy_completes s :
    reachable s -> readyState s = Some Subscribing \/ readyState s = Some Subscribed ->
    exists s', exec (destroy s) (pubsub_acks (inflight (destroy s))) = Some (Ok s') /\
      readyState s' = Some Unsubscribed /\ pubsub_cmds (inflight s') = [].
  Proof.
    intros Hr Hrs. pose proof (phase_destroy s (reachable_phase s Hr)) as (Hps & _).
    assert (Hb : bool_decide (readyState s = Some Subscribing \/ readyState s = Some Subscribed) = true)
      by (by apply bool_decide_eq_true).
    assert (Hrs' : readyState (destroy s) = Some Unsubscribing) by (unfold destroy; by rewrite Hb).
    rewrite Hrs' in Hps. cbn in Hps. pose proof (pubsub_cmds_destroyed s Hb) as Hq.
    destruct Hps as [Hf|(p' & Hp & Hf)].
    - apply acks_unsubscribe; [exact (Forall_unsub _ _ Hf)|].
      rewrite Hq. intros Habs. by apply app_eq_nil in Habs as [_ ?].
    - assert (Hp' : pubsub_cmds (remove_first is_pubsub (inflight (destroy s))) = p')
        by (by rewrite pubsub_cmds_remove_pubsub, Hp).
      apply (acks_subscribe_first _ (id (destroy s))); rewrite Hp';
        [exact Hp | exact (Forall_unsub _ _ Hf)|].
      intros ->. rewrite Hq in Hp. by destruct (pubsub_cmds (inflight s)) as [|c [|c' q]].
  Qed.
End Progress.

(** ** Witness *)
Import MiniJson.

Lemma destroy_completes_witness :
  let s := match exec (open_subscription "doc1") [GetReply None (Some "{}")] with
           | Some (Ok s) => s | _ => open_subscription "doc1" end in
  reachable s /\ readyState s = Some Subscribing /\
  pubsub_acks (inflight (destroy s)) = [SubscribeReply None; UnsubscribeReply None] /\
  exists s', exec (destroy s) (pubsub_acks (inflight (destroy s))) = Some (Ok s') /\
    readyState s' = Some Unsubscribed /\ pubsub_cmds (inflight s') = [].
Proof.
  intros s.
  assert (Hr : reachable s).
  { apply (exec_reachable (open_subscription "doc1") [GetReply None (Some "{}")]);
      [constructor | vm_compute; reflexivity]. }
  assert (Hrs : readyState s = Some Subscribing) by (vm_compute; reflexivity).
  split_and!; [exact Hr | exact Hrs | vm_compute; reflexivity |].
  exact (destroy_completes s Hr (or_introl Hrs)).
Defined.
