(* ===== verification/Failures.v ===== *)
(** * Failures: a refused [SUBSCRIBE], and [destroy()] during discovery

    The spec (sections 3 and 7) has a terminal [failed] state: a failed
    subscribe call reports [onError] once, nothing is retried, and no
    event follows. The code has no such state. The callback of
    [sub.subscribe] (src/subscription.js, lines 68-72) emits [error] and
    returns. [readyState] stays ['subscribing'] and the ['message']
    listener attached in [subscribe] (line 73) stays attached. This file
    calls that state [stuck]: nothing is in flight, so no reply can come,
    and the document is never fetched. Every message on the channel is
    still parsed and pushed onto [this.ops], which only grows. A message
    that does not parse emits a second [error]. [destroy()] is not a
    no-op: it unsubscribes a channel that redis never subscribed.

    The second part of the file follows a [destroy()] that arrives while
    the redis [GET] is pending. [destroy] ignores it (lines 146 and 157),
    and nothing records the request, so the happy path runs as if it had
    never been made. The lemmas [step_get_open], [step_subscribe_ack] and
    [step_find_doc] take that path one turn at a time. *)

From S2P Require Import Prelude Json Emitter Subscription EventLoop Lifecycle.

(** The state after a refused [SUBSCRIBE]. *)
Definition stuck (s : subscription) : Prop :=
  readyState s = Some Subscribing /\ inflight s = [] /\ listening s = true /\
  truthy (payload s) = false /\ live s.

Section Stuck.
  Context `{JsonParse}.

Lemma live_regs_open s : live s -> truthy (payload s) = false -> events s = regs_open.
  Proof. intros (l & _ & [[_ ?] | (Hp & _)]) Hf; [done | congruence]. Qed.

Lemma stuck_caller_only s : stuck s -> caller_only (events s).
  Proof. intros (_ & _ & _ & _ & Hl). exact (live_caller_only s Hl). Qed.

Lemma delivered_record_error x s : delivered (record (EvError x) s) = delivered s.
  Proof. unfold delivered. destruct s; cbn. by rewrite omap_app, app_nil_r. Qed.

  (** A message, on a stuck subscription: buffered when it parses, an
      [error] when it does not, nothing delivered. *)
Lemma onMessage_stuck ch m s s' :
    stuck s -> onMessage ch m s = Ok s' ->
    stuck s' /\ delivered s' = delivered s /\ buffered s' = buffered s ++ accepted (id s) [Message ch m] /\
    id s' = id s.
  Proof.
    intros Hs Hm. pose proof (stuck_caller_only s Hs) as Hc.
    destruct (onMessage_live ch m s s' (proj2 (proj2 (proj2 (proj2 Hs)))) Hm) as (Hl' & _ & Hi).
    destruct Hs as (Hrs & Hq & Hlis & Hp & l & Hops & _).
    unfold onMessage in Hm. unfold accepted. cbn [omap list_omap].
    case_bool_decide as Hch; [|res_inv; rewrite bool_decide_false by congruence;
      split_and!; [repeat split; done | done | by rewrite app_nil_r | done]].
    rewrite bool_decide_true by done. destruct (json_parse m) as [o|].
    - rewrite Hp, Hops in Hm. res_inv. unfold stuck, buffered, delivered.
      destruct s; cbn in *; subst. by split_and!.
    - rewrite js_emit_error in Hm by done. res_inv. rewrite delivered_record_error, app_nil_r.
      unfold stuck, buffered. destruct s; cbn in *. by split_and!.
  Qed.

  (** Only messages and [destroy()] can arrive at a stuck subscription. *)
Lemma step_stuck s i s' :
    stuck s -> i <> Destroy -> step s i = Some (Ok s') ->
    stuck s' /\ delivered s' = delivered s /\ buffered s' = buffered s ++ accepted (id s) [i] /\
    id s' = id s.
  Proof.
    intros Hs Hi Hst. pose proof Hs as (_ & Hq & Hlis & _).
    destruct i as [e d|e|e|r|ch m|]; cbn in Hst; rewrite ?Hq in Hst; try done.
    rewrite Hlis in Hst. injection Hst as Hm. exact (onMessage_stuck ch m s s' Hs Hm).
  Qed.

Lemma exec_stuck s ins s' :
    stuck s -> Destroy ∉ ins -> exec s ins = Some (Ok s') ->
    stuck s' /\ delivered s' = delivered s /\ buffered s' = buffered s ++ accepted (id s) ins /\
    id s' = id s.
  Proof.
    revert s. induction ins as [|i ins IH]; intros s Hs Hd Hx; cbn in Hx.
    - injection Hx as <-. by rewrite app_nil_r.
    - apply not_elem_of_cons in Hd as [Hi Hd].
      destruct (step s i) as [[s1|x]|] eqn:Hst; try discriminate.
      destruct (step_stuck s i s1 Hs (not_eq_sym Hi) Hst) as (Hs1 & Hd1 & Hb1 & Hi1).
      destruct (IH s1 Hs1 Hd Hx) as (Hs' & Hd' & Hb' & Hi').
      rewrite accepted_cons, Hb', Hb1, Hd', Hd1, Hi', Hi1, app_assoc. by split_and!.
  Qed.
End Stuck.

Section FailedSubscribe.
  Context `{JsonParse}.

  (** C28 (error; spec divergence). A refused [SUBSCRIBE] is not terminal.
      Take a subscription waiting for its subscribe ack, with its
      listener attached and no document yet. When redis refuses the
      subscribe, the caller gets an [error]. From then on, without
      [destroy()], the subscription never leaves [subscribing] and has no
      request in flight, so it never fetches the document. Its
      ['message'] listener stays attached. It delivers no op, and it
      pushes every message of its channel onto the buffer, which grows
      without bound. [destroy()] is still effective: it moves to
      [unsubscribing] and sends [UNSUBSCRIBE] for a channel that was
      never subscribed. The spec makes [failed] terminal, with no further
      event and [destroy()] a no-op. *)
Theorem failed_subscribe_not_terminal s e :
    readyState s = Some Subscribing -> inflight s = [Subscribe (id s)] -> listening s = true ->
    truthy (payload s) = false -> live s ->
    exists s1, step s (SubscribeReply (Some e)) = Some (Ok s1) /\
      emitted s1 = emitted s ++ [EvError (ErrValue e)] /\
      forall ins s', Destroy ∉ ins -> exec s1 ins = Some (Ok s') ->
        readyState s' = Some Subscribing /\ inflight s' = [] /\ listening s' = true /\
        delivered s' = delivered s /\ buffered s' = buffered s ++ accepted (id s) ins /\
        readyState (destroy s') = Some Unsubscribing /\ inflight (destroy s') = [Unsubscribe (id s)].
  Proof.
    intros Hrs Hq Hlis Hp Hl.
    set (s1 := record (EvError (ErrValue e)) (complete is_pubsub s)).
    assert (Hst : step s (SubscribeReply (Some e)) = Some (Ok s1)).
    { cbn. rewrite Hq. cbn. f_equal. apply js_emit_error. destruct s; exact (live_caller_only _ Hl). }
    destruct (live_complete is_pubsub s Hl) as (Hlc & _ & _).
    destruct (live_record_error (ErrValue e) _ Hlc) as (Hl1 & _ & _).
    assert (Hs1 : stuck s1) by (unfold stuck; destruct s; cbn in *; subst; by split_and!).
    exists s1. split_and!; [exact Hst | by destruct s |].
    intros ins s' Hd Hx. destruct (exec_stuck s1 ins s' Hs1 Hd Hx) as ((Hrs' & Hq' & Hlis' & _) & Hd' & Hb' & Hi').
    assert (Hb : bool_decide (readyState s' = Some Subscribing \/ readyState s' = Some Subscribed) = true)
      by (apply bool_decide_eq_true; by left).
    unfold destroy. rewrite Hb. cbn. rewrite Hq', Hd', Hb', Hi'.
    assert (id s1 = id s /\ delivered s1 = delivered s /\ buffered s1 = buffered s) as (-> & -> & ->)
      by (unfold s1; rewrite delivered_record_error; split_and!; by destruct s).
    by split_and!.
  Qed.
End FailedSubscribe.

(** ** [destroy()] during discovery *)
Section Discovery.
  Context `{JsonParse}.

Lemma destroy_open sid : destroy (open_subscription sid) = open_subscription sid.
  Proof. unfold destroy. rewrite bool_decide_false; [done|]. cbn. intros [?|?]; discriminate. Qed.

Lemma exec_cons_ok s i s' ins : step s i = Some (Ok s') -> exec s (i :: ins) = exec s' ins.
  Proof. intros Hs. cbn [exec]. by rewrite Hs. Qed.

  (** The successful replies of the happy path, one turn at a time. *)
Lemma step_get_open sid d v :
    json_parse d = Some v ->
    step (open_subscription sid) (GetReply None (Some d)) =
    Some (Ok (subscribe (set_meta None (Some (JObj [])) None (complete is_get (open_subscription sid))))).
  Proof. intros Hv. unfold step. simpl existsb. cbv iota. unfold get_cb. rewrite Hv. reflexivity. Qed.

Lemma step_subscribe_ack s :
    pubsub_head (inflight s) = Some (Subscribe (id s)) ->
    step s (SubscribeReply None) = Some (Ok (fetch (set_readyState Subscribed (complete is_pubsub s)))).
  Proof. intros Hh. unfold step. by rewrite Hh. Qed.

Lemma step_find_doc s doc :
    existsb is_find (inflight s) = true -> readyState s = Some Subscribed -> truthy (Some doc) = true ->
    step s (FindReply (FindDoc (Some doc))) =
    Some (js_emit (EvPayload doc) (set_payload (Some doc) (complete is_find s))).
  Proof.
    intros Hf Hrs Hdoc. unfold step. rewrite Hf. unfold fetch_cb.
    rewrite bool_decide_false by (cbn; rewrite Hrs; tauto). by rewrite Hdoc.
  Qed.

  (** C30 (error; spec gap). A [destroy()] that the caller issues while
      the metadata lookup is pending is forgotten. [destroy] is a no-op in
      ['discoverying'] and nothing records the request. Every run that
      starts with it goes exactly as the run without it. When redis and
      mongo then answer, the subscription subscribes, attaches its
      listener and delivers the document to a caller that asked for
      teardown. It stays subscribed until a second [destroy()]. The spec
      (section 9) names this race as an open limitation. *)
Theorem destroy_during_discovery_forgotten sid d doc ins :
    json_parse d <> None -> truthy (Some doc) = true ->
    exec (open_subscription sid) (Destroy :: ins) = exec (open_subscription sid) ins /\
    exists s, exec (open_subscription sid)
                [Destroy; GetReply None (Some d); SubscribeReply None; FindReply (FindDoc (Some doc))] =
              Some (Ok s) /\
      readyState s = Some Subscribed /\ listening s = true /\ emitted s = [EvPayload doc].
  Proof.
    intros Hd Hdoc. destruct (json_parse d) as [v|] eqn:Hv; [|done].
    assert (Hfirst : forall ins', exec (open_subscription sid) (Destroy :: ins') = exec (open_subscription sid) ins')
      by (intros ins'; apply exec_cons_ok; cbn; by rewrite destroy_open).
    split; [apply Hfirst|]. rewrite Hfirst.
    rewrite (exec_cons_ok _ _ _ _ (step_get_open sid d v Hv)).
    rewrite (exec_cons_ok _ _ _ _ (step_subscribe_ack (subscribe (set_meta None (Some (JObj [])) None
      (complete is_get (open_subscription sid)))) ltac:(reflexivity))).
    erewrite exec_cons_ok;
      [|rewrite step_find_doc by (reflexivity || exact Hdoc); unfold emit_fuel;
        rewrite (emit_payload_open 0 doc _ []) by reflexivity; reflexivity].
    eexists. split; [reflexivity|]. split_and!; reflexivity.
  Qed.
End Discovery.

(** ** Witness *)
Import MiniJson.

Lemma failed_subscribe_not_terminal_witness :
  let s := match exec (open_subscription "doc1") [GetReply None (Some "{}")] with
           | Some (Ok s) => s | _ => open_subscription "doc1" end in
  readyState s = Some Subscribing /\ inflight s = [Subscribe (id s)] /\ listening s = true /\
  truthy (payload s) = false /\ live s /\
  exists s1, step s (SubscribeReply (Some "ERR")) = Some (Ok s1) /\
    emitted s1 = emitted s ++ [EvError (ErrValue "ERR")] /\
    forall ins s', Destroy ∉ ins -> exec s1 ins = Some (Ok s') ->
      readyState s' = Some Subscribing /\ inflight s' = [] /\ listening s' = true /\
      delivered s' = delivered s /\ buffered s' = buffered s ++ accepted (id s) ins /\
      readyState (destroy s') = Some Unsubscribing /\ inflight (destroy s') = [Unsubscribe (id s)].
Proof.
  intros s.
  assert (Hrs : readyState s = Some Subscribing) by reflexivity.
  assert (Hq : inflight s = [Subscribe (id s)]) by reflexivity.
  assert (Hlis : listening s = true) by reflexivity.
  assert (Hp : truthy (payload s) = false) by reflexivity.
  assert (Hl : live s) by (exists []; split; [reflexivity | left; split; reflexivity]).
  split_and!; [exact Hrs | exact Hq | exact Hlis | exact Hp | exact Hl |].
  exact (failed_subscribe_not_terminal s "ERR" Hrs Hq Hlis Hp Hl).
Defined.

Lemma destroy_during_discovery_forgotten_witness :
  json_parse "{}" <> None /\ truthy (Some (JObj [])) = true /\
  exec (open_subscription "doc1") [Destroy; GetReply None (Some "{}")] =
  exec (open_subscription "doc1") [GetReply None (Some "{}")] /\
  exists s, exec (open_subscription "doc1")
              [Destroy; GetReply None (Some "{}"); SubscribeReply None; FindReply (FindDoc (Some (JObj [])))] =
            Some (Ok s) /\
    readyState s = Some Subscribed /\ listening s = true /\ emitted s = [EvPayload (JObj [])].
Proof.
  assert (Hd : json_parse "{}" <> None) by discriminate.
  assert (Hdoc : truthy (Some (JObj [])) = true) by reflexivity.
  destruct (destroy_during_discovery_forgotten "doc1" "{}" (JObj []) [GetReply None (Some "{}")] Hd Hdoc)
    as [Hf Hs].
  split_and!; [exact Hd | exact Hdoc | exact Hf | exact Hs].
Defined.
