(* ===== verification/Reentrant.v ===== *)
(** * Reentrant: a caller that calls [destroy()] from its [op] listener

    Node's [emit] calls listeners synchronously, so a listener of the
    caller runs in the middle of [emitOps]'s [for] loop (src/subscription.js,
    lines 130-137). Everywhere else the model's caller only records what
    it receives. This file takes a caller whose [op] listener calls
    [destroy()] when an op satisfies [stop]. [call_destroying] is that
    caller; [emit_destroying] is node's [emit] with it, built from the
    same [emit_with] dispatch and the same [emitOps], [emit_ops_loop] and
    [destroy] as the rest of the development. [destroy] sets [this.ops = null].
    The loop then tests [i < this.ops.length] again and throws a
    [TypeError] out of the [findById] callback. *)

From S2P Require Import Prelude Json Emitter Subscription.

(** The caller's listeners: [op] records the op, then calls [destroy()]
    when [stop] holds; the other events are recorded. *)
Definition call_destroying (stop : json -> bool) (emit : event -> subscription -> res exn subscription)
    (l : listener) (e : event) (s : subscription) : res exn subscription :=
  match l, e with
  | Caller, EvOp o => if stop o then Ok (destroy (record e s)) else Ok (record e s)
  | _, _ => call_listener emit l e s
  end.

Fixpoint emit_destroying (stop : json -> bool) (fuel : nat) (e : event) (s : subscription)
    : res exn subscription :=
  match fuel with
  | O => Throw RangeError
  | S f => emit_with event_name Unhandled (call_destroying stop (emit_destroying stop f)) e s
  end.

Section Reentrant.
  Variable stop : json -> bool.

  (** An [op] with the caller's registry: recorded, then [destroy()] when
      [stop] holds. *)
Lemma emit_destroying_op f o s :
    events s = regs_caller ->
    emit_destroying stop (S f) (EvOp o) s =
    Ok (if stop o then destroy (record (EvOp o) s) else record (EvOp o) s).
  Proof.
    intros Hr. cbn [emit_destroying]. unfold emit_with. cbn [regs_of subscription_registry].
    rewrite Hr. cbn [event_name]. rewrite (proj1 caller_only_caller), dispatch_cons.
    cbn [reg_once reg_fn call_destroying dispatch]. by destruct (stop o).
  Qed.

  (** The loop reaches an op that triggers [destroy()]: the next test of
      [i < this.ops.length] reads [null.length]. *)
Lemma loop_destroying f n i s l :
    ops s = Some l -> events s = regs_caller ->
    (readyState s = Some Subscribing \/ readyState s = Some Subscribed) ->
    (exists j o, i <= j /\ l !! j = Some o /\ stop o = true) ->
    List.length l < i + n ->
    emit_ops_loop (emit_destroying stop (S f)) n i s = Throw (TypeError null_length).
  Proof.
    revert i s. induction n as [|n IH]; intros i s Hops Hr Hrs (j & o' & Hij & Hj & Hs) Hlen.
    { apply lookup_lt_Some in Hj. lia. }
    cbn [emit_ops_loop]. rewrite Hops.
    destruct (l !! i) as [o|] eqn:Hi; [|apply lookup_ge_None_1 in Hi; apply lookup_lt_Some in Hj; lia].
    rewrite emit_destroying_op by done. cbn [res_bind]. destruct (stop o) eqn:Ho.
    - destruct n as [|n]; [apply lookup_lt_Some in Hi; lia|].
      unfold destroy. rewrite bool_decide_true by (destruct s; cbn in *; tauto). reflexivity.
    - apply IH; [by destruct s | by destruct s | by destruct s | | lia].
      exists j, o'. split_and!; [|done|done]. destruct (decide (i = j)) as [->|]; [congruence | lia].
  Qed.
End Reentrant.

Section ReentrantTheorem.
  Variable stop : json -> bool.

  (** C29 (error; defect). A caller that calls [destroy()] from its [op]
      listener during the replay crashes the process. The document
      arrives while ops are buffered and the subscription is [subscribed],
      so [payload] runs [emitOps] first. If any buffered op makes the
      caller destroy the subscription, [destroy] sets [this.ops = null]
      in the middle of the [for] loop. The next test [i < this.ops.length]
      throws a [TypeError], which leaves the [findById] callback
      uncaught. This holds whatever the position of that op, the last
      one included. *)
Theorem destroy_in_replay_throws f d s l :
    events s = regs_open -> ops s = Some l ->
    readyState s = Some Subscribed -> existsb stop l = true ->
    emit_destroying stop (S (S f)) (EvPayload d) s = Throw (TypeError null_length).
  Proof.
    intros Hev Hops Hrs Hex. apply existsb_exists in Hex as (o & Ho & Hs).
    apply list_elem_of_In, list_elem_of_lookup in Ho as [j Hj].
    cbn [emit_destroying]. unfold emit_with. cbn [regs_of subscription_registry].
    rewrite Hev. cbn [event_name]. rewrite listeners_payload_open, dispatch_cons.
    cbn [reg_once reg_fn reg_name regs_of set_regs subscription_registry call_destroying call_listener].
    rewrite Hev, removeListener_open. unfold emitOps. cbn [ops set_events]. rewrite Hops.
    destruct l as [|o0 l']; [done|].
    rewrite (loop_destroying stop f _ 0 _ (o0 :: l')); cbn [ops events readyState set_events];
      [done | done | done | by right | exists j, o; split_and!; [lia|done|done] | cbn; lia].
  Qed.
End ReentrantTheorem.

(** ** Witness *)

Lemma destroy_in_replay_throws_witness :
  let stop := fun o : json => match o with JNum 2 => true | _ => false end in
  let s := mkSub "doc1" (Some Subscribed) None (Some (JObj [])) None (Some [JNum 1; JNum 2])
             None regs_open true [] [] in
  events s = regs_open /\ ops s = Some [JNum 1; JNum 2] /\ readyState s = Some Subscribed /\
  existsb stop [JNum 1; JNum 2] = true /\
  emit_destroying stop 2 (EvPayload (JObj [])) s = Throw (TypeError null_length).
Proof.
  intros stop s.
  assert (Hev : events s = regs_open) by reflexivity.
  assert (Hops : ops s = Some [JNum 1; JNum 2]) by reflexivity.
  assert (Hrs : readyState s = Some Subscribed) by reflexivity.
  assert (Hex : existsb stop [JNum 1; JNum 2] = true) by reflexivity.
  split_and!; [exact Hev | exact Hops | exact Hrs | exact Hex |].
  exact (destroy_in_replay_throws stop 0 (JObj []) s _ Hev Hops Hrs Hex).
Defined.
