(* ===== verification/Hub.v ===== *)
(** * Hub: several subscriptions on one server

    A mydb server creates one [Subscription] per subscription id and
    passes itself as [server]. Every subscription uses the same redis
    connection [server.redisSub] (line 20). The connection is shared in
    three ways:
    - the pub/sub commands of all subscriptions go down one connection,
      and redis answers them in order: [pq] records whose command each
      pending reply answers;
    - the connection is subscribed to a set of channels ([chans]). A
      published message reaches the client only on a channel of that set.
      [SUBSCRIBE] adds its channel when acknowledged, [UNSUBSCRIBE] removes
      it;
    - ['message'] is one event of one emitter. Each subscription attaches
      its bound [onMessage] (line 73) and detaches it in [destroy]
      (line 155). [lis] lists the attached subscriptions in attach order.
      A message runs every attached [onMessage], in that order. Each one
      filters on its own id (line 105).
    The server itself is not part of this repository: [hub_step] models
    it from the spec (section 4.1, message filtering; section 5, one
    thread). The subscriptions are the objects of [Subscription], and
    each of their turns is [EventLoop.step].

    The theorems: every subscription of a hub run is a run of the
    single-subscription model ([hub_projects]), so every theorem of
    [EventLoop], [Lifecycle], [Bounds] and [Contract] holds of each
    subscription of a server. Delivering a message never throws
    ([publish_never_throws]): [destroy] detaches [onMessage] in the same
    turn in which it nulls [this.ops]. *)

From S2P Require Import Prelude Json Emitter Subscription EventLoop Lifecycle Codec.

Record hub : Type := Hub {
  subs : list subscription;
  chans : list string;
  pq : list nat;
  lis : list nat
}.

Definition hub_empty : hub := Hub [] [] [] [].

(** The turns of the server's event loop. *)
Inductive hinput : Type :=
| HOpen (sid : string)                  (** the server creates a subscription *)
| HTurn (k : nat) (i : input)           (** a redis [GET] or mongo reply, or [destroy()], for the [k]-th *)
| HPubSubReply (error : option string)  (** the next reply on [redisSub] *)
| HPublish (channel body : string).     (** a message published on redis *)

(** The pub/sub commands sent during a turn that started from [base]. *)
Definition new_pubsub (base s' : subscription) : list cmd :=
  drop (List.length (pubsub_cmds (inflight base))) (pubsub_cmds (inflight s')).

(** [sub.on('message', ...)] and [sub.removeListener('message', ...)]. *)
Definition relisten (k : nat) (before after : bool) (l : list nat) : list nat :=
  match before, after with
  | false, true => l ++ [k]
  | true, false => List.filter (fun j => negb (Nat.eqb j k)) l
  | _, _ => l
  end.

(** The subscription [k] went from [s] to [s']; its turn started from
    [base]. *)
Definition hub_update (k : nat) (s base s' : subscription) (cs : list string) (q : list nat)
    (h : hub) : hub :=
  Hub (<[k := s']> (subs h)) cs (q ++ repeat k (List.length (new_pubsub base s')))
    (relisten k (listening s) (listening s') (lis h)).

(** What redis does to the connection's channels when it acknowledges a
    command. *)
Definition chan_update (c : cmd) (e : option string) (cs : list string) : list string :=
  match c, e with
  | Subscribe ch, None => if bool_decide (ch ∈ cs) then cs else cs ++ [ch]
  | Unsubscribe ch, None => List.filter (fun x => negb (String.eqb x ch)) cs
  | _, _ => cs
  end.

(** The requests in flight when a turn's callback starts: the reply's
    request is gone. *)
Definition step_base (s : subscription) (i : input) : subscription :=
  match i with
  | GetReply _ _ => complete is_get s
  | SubscribeReply _ | UnsubscribeReply _ => complete is_pubsub s
  | FindReply _ => complete is_find s
  | Message _ _ | Destroy => s
  end.

(** The pub/sub replies. *)
Definition is_pubsub_reply (i : input) : bool :=
  match i with SubscribeReply _ | UnsubscribeReply _ => true | _ => false end.

(** How many pending pub/sub replies are owed to [k]. *)
Definition count (k : nat) (q : list nat) : nat := List.length (List.filter (Nat.eqb k) q).

(** [onMessage] is attached or [get] is pending only while the buffer
    is an array: [destroy] detaches the listener and nulls the buffer in
    the same turn, and is a no-op in [discoverying]. *)
Definition attached_ok (s : subscription) : Prop :=
  readyState s = Some Discoverying \/ listening s = true -> is_Some (ops s).

Section Hub.
  Context `{JsonParse}.

  (** The ['message'] event of [redisSub]: each attached [onMessage] in
      turn; an exception stops the dispatch. *)
Fixpoint deliver (ch m : string) (ks : list nat) (ss : list subscription)
      : res exn (list subscription) :=
    match ks with
    | [] => Ok ss
    | k :: ks' =>
        match ss !! k with
        | Some s => s' <- onMessage ch m s ;; deliver ch m ks' (<[k := s']> ss)
        | None => deliver ch m ks' ss
        end
    end.

  (** The reply that a pub/sub command of the subscription gets. *)
Definition pubsub_input (c : cmd) (e : option string) : input :=
    match c with Subscribe _ => SubscribeReply e | _ => UnsubscribeReply e end.

Definition hub_step (h : hub) (hi : hinput) : option (res exn hub) :=
    match hi with
    | HOpen sid => Some (Ok (Hub (subs h ++ [open_subscription sid]) (chans h) (pq h) (lis h)))
    | HTurn k i =>
        match i, subs h !! k with
        | (GetReply _ _ | FindReply _ | Destroy), Some s =>
            match step s i with
            | Some (Ok s') => Some (Ok (hub_update k s s s' (chans h) (pq h) h))
            | Some (Throw x) => Some (Throw x)
            | None => None
            end
        | _, _ => None
        end
    | HPubSubReply e =>
        match pq h with
        | k :: q =>
            match subs h !! k with
            | Some s =>
                match pubsub_head (inflight s) with
                | Some c =>
                    match step s (pubsub_input c e) with
                    | Some (Ok s') =>
                        Some (Ok (hub_update k s (complete is_pubsub s) s'
                                    (chan_update c e (chans h)) q h))
                    | Some (Throw x) => Some (Throw x)
                    | None => None
                    end
                | None => None
                end
            | None => None
            end
        | [] => None
        end
    | HPublish ch m =>
        if bool_decide (ch ∈ chans h) then
          match deliver ch m (lis h) (subs h) with
          | Ok ss => Some (Ok (Hub ss (chans h) (pq h) (lis h)))
          | Throw x => Some (Throw x)
          end
        else Some (Ok h)
    end.

Fixpoint hub_exec (h : hub) (his : list hinput) : option (res exn hub) :=
    match his with
    | [] => Some (Ok h)
    | hi :: his' =>
        match hub_step h hi with
        | Some (Ok h') => hub_exec h' his'
        | Some (Throw x) => Some (Throw x)
        | None => None
        end
    end.
  (** Each subscription is a state of the single-subscription model; the
      replies owed to it on the pub/sub connection are its pub/sub
      commands in flight; it is a ['message'] listener exactly when its
      [onMessage] is attached. *)
Definition sub_ok (h : hub) (k : nat) : Prop :=
    match subs h !! k with
    | Some s =>
        reachable s /\ count k (pq h) = List.length (pubsub_cmds (inflight s)) /\
        (k ∈ lis h <-> listening s = true)
    | None => count k (pq h) = 0 /\ k ∉ lis h
    end.

Definition hub_inv (h : hub) : Prop := forall k, sub_ok h k.

  (** What delivering a message leaves of each subscription: a later
      state of the model, with the same requests and listener. *)
Definition sub_frame (s s' : subscription) : Prop :=
    (reachable s -> reachable s') /\ inflight s' = inflight s /\ listening s' = listening s.

Definition subs_frame (ss ss' : list subscription) : Prop :=
    forall k, match ss !! k, ss' !! k with
              | Some s, Some s' => sub_frame s s'
              | None, None => True
              | _, _ => False
              end.

End Hub.

(** ** Callbacks only append requests *)


Lemma keeps_appends t s' : keeps t s' -> exists l, inflight s' = inflight t ++ l.
Proof. intros (_ & _ & _ & _ & _ & _ & ->). exists []. by rewrite app_nil_r. Qed.

Lemma send_appends c t : exists l, inflight (send c t) = inflight t ++ l.
Proof. by exists [c]. Qed.

#[export] Hint Resolve keeps_appends send_appends : mydb.

Section Appends.
  Context `{JsonParse}.

Lemma step_appends s i s' :
    regs_ok s -> step s i = Some (Ok s') -> exists l, inflight s' = inflight (step_base s i) ++ l.
  Proof.
    intros Hr Hs. assert (Hrc : forall p, regs_ok (complete p s)) by (intros p; by destruct s).
    destruct i as [e d|e|e|r|ch m|]; cbn in Hs; cbn [step_base].
    - destruct (existsb _ _); [|done]. injection Hs as Hs.
      apply get_cb_cases in Hs as [[Hk _]| ->]; eauto with mydb.
    - destruct (pubsub_head _) as [[]|]; try done. injection Hs as Hs.
      apply subscribe_cb_cases in Hs as [[Hk _]| ->]; eauto with mydb.
      all: exists [FindById (col s) (id s) (fields s)]; reflexivity.
    - destruct (pubsub_head _) as [[]|]; try done. injection Hs as Hs.
      apply unsubscribe_cb_cases in Hs as [[Hk _]| ->]; eauto with mydb.
      all: exists []; by destruct s; rewrite app_nil_r.
    - destruct (existsb _ _); [|done]. injection Hs as Hs.
      apply fetch_cb_keeps in Hs as [Hk _]; eauto with mydb.
    - destruct (listening s); [|done]. injection Hs as Hs.
      apply onMessage_keeps in Hs as [Hk _]; eauto with mydb.
    - injection Hs as <-. unfold destroy. case_bool_decide.
      + exists [Unsubscribe (id s)]. reflexivity.
      + exists []. by rewrite app_nil_r.
  Qed.
End Appends.

(** The requests of the pub/sub connection at the start of a turn that
    is not a pub/sub reply are those before it. *)
Lemma pubsub_step_base s i :
  is_pubsub_reply i = false -> pubsub_cmds (inflight (step_base s i)) = pubsub_cmds (inflight s).
Proof. destruct i; cbn; try done; intros _; apply pubsub_cmds_remove_other; by intros []. Qed.

Lemma new_pubsub_eq t s' L :
  pubsub_cmds (inflight s') = pubsub_cmds (inflight t) ++ L ->
  pubsub_cmds (inflight s') = pubsub_cmds (inflight t) ++ new_pubsub t s'.
Proof. intros Hl. unfold new_pubsub. rewrite Hl. by rewrite drop_app_length. Qed.

(** ** Counting the owners of the pub/sub replies *)

Lemma count_app k q q' : count k (q ++ q') = count k q + count k q'.
Proof. unfold count. by rewrite List.filter_app, length_app. Qed.

Lemma count_repeat k j n : count k (repeat j n) = if Nat.eqb k j then n else 0.
Proof. unfold count. induction n as [|n IH]; cbn; [by destruct (Nat.eqb k j)|]. destruct (Nat.eqb k j) eqn:E; cbn; lia. Qed.

Lemma count_cons k j q : count k (j :: q) = (if Nat.eqb k j then 1 else 0) + count k q.
Proof. unfold count. cbn. by destruct (Nat.eqb k j). Qed.

Lemma elem_of_relisten_self k b b' l :
  (k ∈ l <-> b = true) -> (k ∈ relisten k b b' l <-> b' = true).
Proof.
  intros Hk. unfold relisten. destruct b, b'; try done.
  - rewrite list_elem_of_In, List.filter_In, Nat.eqb_refl. naive_solver.
  - rewrite elem_of_app, list_elem_of_singleton. naive_solver.
Qed.

Lemma elem_of_relisten_other j k b b' l : j <> k -> (j ∈ relisten k b b' l <-> j ∈ l).
Proof.
  intros Hjk. unfold relisten. destruct b, b'; try done.
  - rewrite !list_elem_of_In, List.filter_In. apply Nat.eqb_neq in Hjk. rewrite Hjk. naive_solver.
  - rewrite elem_of_app, list_elem_of_singleton. naive_solver.
Qed.

(** ** The invariant of a hub *)

Section HubInv.
  Context `{JsonParse}.

Lemma hub_inv_empty : hub_inv hub_empty.
  Proof. intros k. unfold sub_ok. cbn. rewrite lookup_nil. split; [done | apply not_elem_of_nil]. Qed.

Lemma hub_inv_open h sid : hub_inv h -> hub_inv (Hub (subs h ++ [open_subscription sid]) (chans h) (pq h) (lis h)).
  Proof.
    intros Hinv k. specialize (Hinv k). unfold sub_ok in *. cbn.
    destruct (decide (k < List.length (subs h))) as [Hlt|Hge].
    - by rewrite lookup_app_l by done.
    - rewrite lookup_app_r by lia. rewrite lookup_ge_None_2 in Hinv by lia.
      destruct Hinv as [Hc Hl]. destruct (decide (k - List.length (subs h) = 0)) as [E|E].
      + rewrite E. cbn. split_and!; [constructor | done | split; [done | by intros ?]].
      + rewrite lookup_ge_None_2 by (cbn; lia). done.
  Qed.

  (** Replacing the [k]-th subscription after one of its turns. *)
Lemma hub_inv_update h k s base s' cs q :
    hub_inv h -> subs h !! k = Some s -> reachable s' ->
    count k q = List.length (pubsub_cmds (inflight base)) ->
    (forall j, j <> k -> count j q = count j (pq h)) ->
    pubsub_cmds (inflight s') = pubsub_cmds (inflight base) ++ new_pubsub base s' ->
    hub_inv (hub_update k s base s' cs q h).
  Proof.
    intros Hinv Hk Hr' Hq Hother Hp j. pose proof (Hinv j) as Hj. pose proof (Hinv k) as Hk'.
    unfold sub_ok in *. rewrite Hk in Hk'. destruct Hk' as (_ & _ & Hlk).
    unfold hub_update; cbn [subs pq lis chans].
    destruct (decide (j = k)) as [->|Hne].
    - rewrite list_lookup_insert_eq by (by apply lookup_lt_Some in Hk).
      rewrite count_app, count_repeat, Nat.eqb_refl, Hq, Hp, length_app.
      split_and!; [done | done |]. by apply elem_of_relisten_self.
    - rewrite list_lookup_insert_ne by congruence. rewrite count_app, count_repeat.
      apply Nat.eqb_neq in Hne as Hne'. rewrite Hne', Hother by done.
      destruct (subs h !! j); rewrite elem_of_relisten_other, Nat.add_0_r by done; exact Hj.
  Qed.

Lemma sub_ok_some h k s :
    hub_inv h -> subs h !! k = Some s ->
    reachable s /\ count k (pq h) = List.length (pubsub_cmds (inflight s)) /\
    (k ∈ lis h <-> listening s = true).
  Proof. intros Hinv Hk. specialize (Hinv k). unfold sub_ok in Hinv. by rewrite Hk in Hinv. Qed.

  (** The pub/sub commands after a turn: those at its start, then the
      ones it sent. *)
Lemma step_pubsub s i s' :
    reachable s -> step s i = Some (Ok s') ->
    pubsub_cmds (inflight s') = pubsub_cmds (inflight (step_base s i)) ++ new_pubsub (step_base s i) s'.
  Proof.
    intros Hr Hs. pose proof (reachable_phase s Hr) as (_ & _ & _ & _ & _ & _ & Hro).
    destruct (step_appends s i s' Hro Hs) as (l & Hl). apply (new_pubsub_eq _ _ (pubsub_cmds l)).
    by rewrite Hl, pubsub_cmds_app.
  Qed.

  (** A redis [GET] reply, a mongo reply or [destroy()]. *)
Lemma hub_inv_turn h k s i s' cs :
    hub_inv h -> subs h !! k = Some s -> is_pubsub_reply i = false -> step s i = Some (Ok s') ->
    hub_inv (hub_update k s s s' cs (pq h) h).
  Proof.
    intros Hinv Hk Hi Hs. destruct (sub_ok_some h k s Hinv Hk) as (Hr & Hc & _).
    apply (hub_inv_update h k s s s' cs (pq h)); eauto using reachable_step.
    pose proof (step_pubsub s i s' Hr Hs) as Hp. rewrite pubsub_step_base in Hp by done.
    by apply (new_pubsub_eq _ _ (new_pubsub (step_base s i) s')).
  Qed.

  (** The next reply on the pub/sub connection goes to the subscription
      that sent the oldest command there. *)
Lemma hub_inv_pubsub h k q s c e s' cs :
    hub_inv h -> pq h = k :: q -> subs h !! k = Some s -> pubsub_head (inflight s) = Some c ->
    step s (pubsub_input c e) = Some (Ok s') ->
    hub_inv (hub_update k s (complete is_pubsub s) s' cs q h).
  Proof.
    intros Hinv Hq Hk Hh Hs. destruct (sub_ok_some h k s Hinv Hk) as (Hr & Hc & _).
    apply (hub_inv_update h k s (complete is_pubsub s) s' cs q); eauto using reachable_step.
    - rewrite Hq, count_cons, Nat.eqb_refl in Hc. unfold complete. cbn.
      rewrite pubsub_cmds_remove_pubsub. rewrite pubsub_head_cmds in Hh.
      destruct (pubsub_cmds (inflight s)); [done|]. cbn in *. lia.
    - intros j Hj. rewrite Hq, count_cons. apply Nat.eqb_neq in Hj. by rewrite Hj.
    - pose proof (step_pubsub s _ s' Hr Hs) as Hp. by destruct c.
  Qed.

Lemma subs_frame_refl ss : subs_frame ss ss.
  Proof. intros k. destruct (ss !! k); [unfold sub_frame; auto | done]. Qed.

Lemma subs_frame_trans ss1 ss2 ss3 : subs_frame ss1 ss2 -> subs_frame ss2 ss3 -> subs_frame ss1 ss3.
  Proof.
    intros H12 H23 k. specialize (H12 k). specialize (H23 k).
    destruct (ss1 !! k), (ss2 !! k), (ss3 !! k); try done. unfold sub_frame in *. intuition congruence.
  Qed.

Lemma subs_frame_insert ss k s s' :
    ss !! k = Some s -> sub_frame s s' -> subs_frame ss (<[k := s']> ss).
  Proof.
    intros Hk Hf j. destruct (decide (j = k)) as [->|Hne].
    - rewrite Hk, list_lookup_insert_eq by (by apply lookup_lt_Some in Hk). done.
    - rewrite list_lookup_insert_ne by congruence. destruct (ss !! j); [unfold sub_frame; auto | done].
  Qed.

  (** [onMessage] on an attached subscription is one of its turns. *)
Lemma onMessage_frame ch m s s' :
    reachable s -> listening s = true -> onMessage ch m s = Ok s' -> sub_frame s s'.
  Proof.
    intros Hr Hl Hm. pose proof (reachable_phase s Hr) as (_ & _ & _ & _ & _ & _ & Hro).
    destruct (onMessage_keeps _ _ _ _ Hro Hm) as [(_ & _ & _ & _ & _ & Hl' & Hq) _].
    split_and!; [|done|done]. intros _. apply (reachable_step s (Message ch m)); [done|]. unfold step. by rewrite Hl, Hm.
  Qed.

Lemma deliver_frame ch m ks ss ss' :
    (forall k s, k ∈ ks -> ss !! k = Some s -> reachable s /\ listening s = true) ->
    deliver ch m ks ss = Ok ss' -> subs_frame ss ss'.
  Proof.
    revert ss. induction ks as [|k ks IH]; intros ss Hks Hd; cbn in Hd.
    - injection Hd as <-. apply subs_frame_refl.
    - destruct (ss !! k) as [s|] eqn:Hk; [|apply IH; [intros j t Hj; apply Hks; rewrite elem_of_cons; by right | done]].
      destruct (onMessage ch m s) as [s1|x] eqn:Hm; [|done]. cbn in Hd.
      destruct (Hks k s ltac:(rewrite elem_of_cons; by left) Hk) as [Hr Hl].
      pose proof (onMessage_frame ch m s s1 Hr Hl Hm) as Hf.
      apply (subs_frame_trans _ (<[k := s1]> ss)); [by apply (subs_frame_insert ss k s)|].
      apply IH; [|done]. intros j t Hj Ht. destruct (decide (j = k)) as [->|Hne].
      + rewrite list_lookup_insert_eq in Ht by (by apply lookup_lt_Some in Hk). injection Ht as <-.
        destruct Hf as (Hr' & _ & ->). auto.
      + rewrite list_lookup_insert_ne in Ht by congruence. apply (Hks j); [rewrite elem_of_cons; by right | done].
  Qed.

  (** A published message. *)
Lemma hub_inv_publish h ch m ss :
    hub_inv h -> deliver ch m (lis h) (subs h) = Ok ss -> hub_inv (Hub ss (chans h) (pq h) (lis h)).
  Proof.
    intros Hinv Hd. assert (Hf : subs_frame (subs h) ss).
    { apply (deliver_frame ch m (lis h)); [|done]. intros k s Hk Hs.
      destruct (sub_ok_some h k s Hinv Hs) as (Hr & _ & Hl). split; [done | by apply Hl]. }
    intros k. specialize (Hinv k). specialize (Hf k). unfold sub_ok in *. cbn.
    destruct (subs h !! k), (ss !! k); try done. destruct Hf as (Hr & -> & ->). naive_solver.
  Qed.

Lemma hub_inv_step h hi h' : hub_inv h -> hub_step h hi = Some (Ok h') -> hub_inv h'.
  Proof.
    intros Hinv Hs. destruct hi as [sid|k i|e|ch m]; cbn in Hs.
    - injection Hs as <-. by apply hub_inv_open.
    - destruct (subs h !! k) as [s|] eqn:Hk; [|by destruct i; cbv beta iota in Hs].
      destruct i; cbv beta iota in Hs; try done; destruct (step s _) as [[s'|x]|] eqn:Hst; try done;
        injection Hs as <-; refine (hub_inv_turn h k s _ s' _ Hinv Hk _ Hst); reflexivity.
    - destruct (pq h) as [|k q] eqn:Hq; [done|]. destruct (subs h !! k) as [s|] eqn:Hk; [|done].
      destruct (pubsub_head _) as [c|] eqn:Hh; [|done].
      destruct (step s _) as [[s'|x]|] eqn:Hst; try done. injection Hs as <-. by eapply hub_inv_pubsub.
    - case_bool_decide; [|by injection Hs as <-].
      destruct (deliver _ _ _ _) as [ss|x] eqn:Hd; [|done]. injection Hs as <-. by eapply hub_inv_publish.
  Qed.

Lemma hub_inv_exec h his h' : hub_inv h -> hub_exec h his = Some (Ok h') -> hub_inv h'.
  Proof.
    revert h. induction his as [|hi his IH]; intros h Hinv Hx; cbn in Hx; [by injection Hx as <-|].
    destruct (hub_step h hi) as [[h1|x]|] eqn:Hs; try done. eauto using hub_inv_step.
  Qed.
End HubInv.

(** ** A subscription whose [onMessage] is attached has a buffer *)

Lemma emit_ops_some f e s s' :
  regs_ok s -> emit f e s = Ok s' -> is_Some (ops s) -> is_Some (ops s').
Proof.
  intros Hr He Ho. refine (proj2 (emit_inv (fun t => regs_ok t /\ is_Some (ops t)) _ _ _ _ f e s s' _ He)).
  - intros e' t [Hr' Ho']. by destruct t.
  - intros t [Hr' _]. split; [by destruct t | done].
  - intros t [_ Ho'] _. split; [right; done | by destruct t].
  - by intros t [? _].
  - done.
Qed.

Ltac emit_some := eapply emit_ops_some; [|eassumption|]; [auto | cbn; assumption].

Section Attached.
  Context `{JsonParse}.

Lemma onMessage_ops_some ch m s s' :
    regs_ok s -> onMessage ch m s = Ok s' -> is_Some (ops s) -> is_Some (ops s').
  Proof.
    intros Hr Hm Ho. unfold onMessage in Hm. case_bool_decide; [|by injection Hm as <-].
    destruct (json_parse m); [|emit_some].
    destruct (truthy (payload s)); [emit_some|].
    destruct (ops s); [|done]. by injection Hm as <-.
  Qed.

  (** A turn other than [destroy] keeps the buffer an array. *)
Lemma step_ops_some s i s' :
    phase_inv s -> i <> Destroy -> step s i = Some (Ok s') -> is_Some (ops s) -> is_Some (ops s').
  Proof.
    intros Hp Hi Hs Ho. pose proof Hp as (_ & _ & _ & _ & _ & _ & Hr).
    assert (Hrc : forall p, regs_ok (complete p s)) by (intros p; by destruct s).
    destruct i as [e d|e|e|r|ch m|]; cbn in Hs; try done.
    - destruct (existsb _ _); [|done]. injection Hs as Hs. unfold get_cb in Hs.
      destruct e; [emit_some|]. destruct (json_parse _); [|emit_some].
      destruct d; [|done]. by injection Hs as <-.
    - destruct (pubsub_head _) as [[]|]; try done. injection Hs as Hs. unfold subscribe_cb in Hs.
      destruct e; [emit_some | by injection Hs as <-].
    - destruct (pubsub_head _) as [[]|]; try done. injection Hs as Hs. unfold unsubscribe_cb in Hs.
      destruct e; [emit_some | by injection Hs as <-].
    - destruct (existsb _ _); [|done]. injection Hs as Hs. unfold fetch_cb in Hs.
      case_bool_decide; [by injection Hs as <-|]. destruct r as [e|doc]; [emit_some|].
      destruct (negb (truthy doc)); [emit_some|].
      destruct doc; [|by injection Hs as <-]. eapply emit_ops_some; [|exact Hs|]; by destruct s.
    - destruct (listening s); [|done]. injection Hs as Hs. by eapply onMessage_ops_some.
  Qed.

Lemma attached_step s i s' : phase_inv s -> attached_ok s -> step s i = Some (Ok s') -> attached_ok s'.
  Proof.
    intros Hp Ha Hs Hpre.
    assert (Hi : i = Destroy \/ i <> Destroy) by (destruct i; auto; right; discriminate).
    destruct Hi as [->|Hi].
    { cbn in Hs. injection Hs as <-. revert Hpre. unfold destroy. case_bool_decide as Hb.
      - cbn. intros [? | ?]; done.
      - exact Ha. }
    apply (step_ops_some s i s' Hp Hi Hs). apply Ha.
    pose proof Hp as (_ & _ & Hnd & _ & _ & _ & Hr).
    assert (Hrc : forall p, regs_ok (complete p s)) by (intros p; by destruct s).
    destruct i as [e d|e|e|r|ch m|]; cbn in Hs; try done.
    - destruct (existsb _ _) eqn:Hg; [|done]. injection Hs as Hs. left.
      destruct (decide (readyState s = Some Discoverying)) as [?|Hne]; [done|].
      by destruct (existsb_Forall_false _ _ Hg (proj1 (Hnd Hne))).
    - destruct (pubsub_head _) as [[]|]; try done. injection Hs as Hs.
      apply subscribe_cb_cases in Hs as [[(_ & Hrs & _ & _ & _ & Hl & _) _]| ->]; [| |done].
      + rewrite Hrs, Hl in Hpre. exact Hpre.
      + destruct Hpre as [Hd | Hl]; [done | right; by destruct s].
    - destruct (pubsub_head _) as [[]|]; try done. injection Hs as Hs.
      apply unsubscribe_cb_cases in Hs as [[(_ & Hrs & _ & _ & _ & Hl & _) _]| ->]; [| |done].
      + rewrite Hrs, Hl in Hpre. exact Hpre.
      + destruct Hpre as [Hd | Hl]; [done | right; by destruct s].
    - destruct (existsb _ _); [|done]. injection Hs as Hs.
      apply fetch_cb_keeps in Hs as [(_ & Hrs & _ & _ & _ & Hl & _) _]; [|done].
      rewrite Hrs, Hl in Hpre. exact Hpre.
    - destruct (listening s) eqn:Hl; [by right|done].
  Qed.

Lemma reachable_attached s : reachable s -> attached_ok s.
  Proof.
    induction 1 as [sid|s i s' Hr IH Hs]; [by intros _; eexists|].
    exact (attached_step s i s' (reachable_phase s Hr) IH Hs).
  Qed.

  (** [onMessage] throws only on a [null] buffer. *)
Lemma deliver_ok ch m ks ss :
    (forall k s, k ∈ ks -> ss !! k = Some s -> reachable s /\ listening s = true) ->
    exists ss', deliver ch m ks ss = Ok ss'.
  Proof.
    revert ss. induction ks as [|k ks IH]; intros ss Hks; cbn; [eauto|].
    assert (Hks' : forall j t, j ∈ ks -> ss !! j = Some t -> reachable t /\ listening t = true)
      by (intros j t Hj; apply Hks; rewrite elem_of_cons; by right).
    destruct (ss !! k) as [s|] eqn:Hk; [|by apply IH].
    destruct (Hks k s ltac:(rewrite elem_of_cons; by left) Hk) as [Hr Hl].
    pose proof (reachable_phase s Hr) as (_ & _ & _ & _ & _ & _ & Hro).
    destruct (onMessage_ok ch m s Hro (reachable_attached s Hr (or_intror Hl))) as [s1 Hm].
    rewrite Hm. cbn. apply IH. intros j t Hj Ht. destruct (decide (j = k)) as [->|Hne].
    - rewrite list_lookup_insert_eq in Ht by (by apply lookup_lt_Some in Hk). injection Ht as <-.
      destruct (onMessage_frame ch m s s1 Hr Hl Hm) as (Hr' & _ & ->). auto.
    - rewrite list_lookup_insert_ne in Ht by congruence. by apply (Hks' j).
  Qed.

End Attached.

(** ** Theorems of the server *)
Section HubTheorems.
  Context `{JsonParse}.

  (** Composition: in every run of a server with any
      number of subscriptions on one redis connection, each subscription
      is in a state of the single-subscription model ([reachable]). This
      holds however their turns interleave and whichever subscription
      redis answers next on the shared connection. The pub/sub replies it
      receives are its own, in the order it sent the commands. It
      receives messages only while its [onMessage] is attached. So every
      theorem proved of [reachable] states holds of each subscription of
      a server. *)
Theorem hub_projects his h k s :
    hub_exec hub_empty his = Some (Ok h) -> subs h !! k = Some s -> reachable s.
  Proof.
    intros Hx Hk. pose proof (hub_inv_exec _ _ _ hub_inv_empty Hx) as Hinv.
    by destruct (sub_ok_some h k s Hinv Hk).
  Qed.

  (** C10 (safety). A published message never crashes the server: every
      attached [onMessage] returns normally, whatever the body (a
      malformed body becomes an [error] event of the subscription). The
      single-subscription model alone does not show this: it needs that an
      attached [onMessage] always finds the buffer an array ([attached_ok]).
      The reason is that [destroy] detaches the listener in the same turn
      in which it nulls the buffer. *)
Theorem publish_never_throws his h ch m :
    hub_exec hub_empty his = Some (Ok h) -> exists h', hub_step h (HPublish ch m) = Some (Ok h').
  Proof.
    intros Hx. pose proof (hub_inv_exec _ _ _ hub_inv_empty Hx) as Hinv.
    unfold hub_step. case_bool_decide; [|eauto].
    destruct (deliver_ok ch m (lis h) (subs h)) as [ss ->]; [|eauto].
    intros j t Hj Ht. destruct (sub_ok_some h j t Hinv Ht) as (Hr & _ & Hl). split; [done | by apply Hl].
  Qed.
End HubTheorems.

(** ** Witness *)
Import MiniJson.

Lemma publish_never_throws_witness :
  let his := [HOpen "a"; HTurn 0 (GetReply None (Some "{}")); HPubSubReply None;
              HTurn 0 Destroy] in
  let h := match hub_exec hub_empty his with Some (Ok h) => h | _ => hub_empty end in
  hub_exec hub_empty his = Some (Ok h) /\ ("a" ∈ chans h) /\
  exists h', hub_step h (HPublish "a" "[") = Some (Ok h').
Proof.
  intros his h.
  assert (Hx : hub_exec hub_empty his = Some (Ok h)) by (vm_compute; reflexivity).
  assert (Hc : "a" ∈ chans h) by (vm_compute; left).
  split_and!; [exact Hx | exact Hc | exact (publish_never_throws his h "a" "[" Hx)].
Defined.

