(* ===== verification/Types.v ===== *)
(** * Types: the JS values the fields of the object hold

    The code relies on the types of its fields without checking them:
    [onMessage] tests [this.payload] for truthiness and pushes on
    [this.ops]; [emitOps] reads [this.ops.length]; [fetch] passes
    [{fields: this.fields}] to mongo. [typed] states the type each field
    has in every reachable state: [readyState] is one of the five state
    strings; [fields] is [undefined] until the redis reply and [{}] after
    it ([data.f || {}] on a string); [col] and [oid] stay [undefined];
    [payload] is [undefined], [null] (after [destroy]) or a truthy
    document (the [if (!doc)] guard of the [findById] callback); [ops] is
    an array while the ['message'] listener is attached, and [null] only
    after [destroy] removed it; the registry is one of the two the object
    can have. *)

From S2P Require Import Prelude Json Emitter Subscription EventLoop Lifecycle Codec Hub.

(** The values [this.payload] can hold: [undefined], [null], or a value
    that passes [if (this.payload)]. *)
Definition payload_typed (v : jsval) : bool :=
  match v with
  | None | Some JNull => true
  | _ => truthy v
  end.

Definition typed (s : subscription) : Prop :=
  readyState s <> None /\
  (fields s = Some (JObj []) \/ (fields s = None /\ readyState s = Some Discoverying)) /\
  col s = None /\ oid s = None /\
  payload_typed (payload s) = true /\
  (ops s = None -> listening s = false /\ readyState s <> Some Discoverying) /\
  regs_ok s.

(** The invariant on [fields] the type needs besides [phase_inv]. *)
Definition fields_inv (s : subscription) : Prop :=
  readyState s = Some Discoverying -> fields s = None.

(** ** Frames *)

Lemma emit_payload f e s s' : regs_ok s -> emit f e s = Ok s' -> payload s' = payload s /\ regs_ok s'.
Proof.
  intros Hr He. refine (emit_inv (fun t => payload t = payload s /\ regs_ok t) _ _ _ _ f e s s' _ He).
  - intros e' t [Hp Hr']. unfold regs_ok in *. by destruct t.
  - intros t [Hp Hr']. unfold regs_ok in *. by destruct t.
  - intros t [Hp _] _. split; [by destruct t | right; by destruct t].
  - by intros t [_ Hr'].
  - done.
Qed.

Ltac payload_emit :=
  match goal with
  | H : js_emit _ _ = Ok _ |- _ =>
      apply emit_payload in H as [-> _]; [|unfold regs_ok in *; cbn; assumption]
  end.

Lemma keeps_discoverying s s' :
  keeps s s' -> readyState s' = Some Discoverying -> readyState s = Some Discoverying /\ fields s' = fields s.
Proof. intros (_ & Hrs & _ & Hf & _) Hd. by rewrite <- Hrs. Qed.

Section Steps.
  Context `{JsonParse}.

  (** A turn keeps [payload], or stores [null] ([destroy]) or a truthy
      document ([findById]). *)
Lemma step_payload s i s' :
    phase_inv s -> step s i = Some (Ok s') -> payload_typed (payload s) = true ->
    payload_typed (payload s') = true.
  Proof.
    intros Hp Hs Ht. pose proof Hp as (_ & _ & _ & _ & _ & _ & Hr).
    destruct i as [e d|e|e|r|ch m|]; cbn in Hs.
    - destruct (existsb _ _); [|done]. injection Hs as Hs. unfold get_cb in Hs.
      destruct e; [payload_emit; by destruct s|]. destruct (json_parse _); [|payload_emit; by destruct s].
      destruct d; [|done]. injection Hs as <-. by destruct s.
    - destruct (pubsub_head _) as [[]|]; try done. injection Hs as Hs. unfold subscribe_cb in Hs.
      destruct e; [payload_emit; by destruct s | injection Hs as <-; by destruct s].
    - destruct (pubsub_head _) as [[]|]; try done. injection Hs as Hs. unfold unsubscribe_cb in Hs.
      destruct e; [payload_emit; by destruct s | injection Hs as <-; by destruct s].
    - destruct (existsb _ _); [|done]. injection Hs as Hs. unfold fetch_cb in Hs.
      case_bool_decide; [injection Hs as <-; by destruct s|].
      destruct r as [e|doc]; [payload_emit; by destruct s|].
      destruct (negb (truthy doc)) eqn:Hd; [payload_emit; by destruct s|].
      destruct doc as [d|]; [|injection Hs as <-; by destruct s].
      payload_emit. apply negb_false_iff in Hd. cbn. by destruct d.
    - destruct (listening s); [|done]. injection Hs as Hs. unfold onMessage in Hs.
      case_bool_decide; [|by injection Hs as <-]. destruct (json_parse m); [|by payload_emit].
      destruct (truthy (payload s)); [by payload_emit|].
      destruct (ops s); [|done]. by injection Hs as <-.
    - injection Hs as <-. unfold destroy. by case_bool_decide.
  Qed.

  (** No turn enters [discoverying]; the turns that stay there keep
      [fields]. *)
Lemma step_fields s i s' : phase_inv s -> step s i = Some (Ok s') -> fields_inv s -> fields_inv s'.
  Proof.
    intros Hp Hs Hf Hd. pose proof Hp as (_ & _ & _ & _ & _ & _ & Hr).
    assert (Hrc : forall p, regs_ok (complete p s)) by (intros p; by destruct s).
    assert (Hk : forall p, keeps (complete p s) s' -> fields s' = None).
    { intros p Hk. destruct (keeps_discoverying _ _ Hk Hd) as [Hd' ->]. destruct s; by apply Hf. }
    destruct i as [e d|e|e|r|ch m|]; cbn in Hs.
    - destruct (existsb _ _); [|done]. injection Hs as Hs.
      apply get_cb_cases in Hs as [[? _]| ->]; [eauto | | done]. done.
    - destruct (pubsub_head _) as [[]|]; try done. injection Hs as Hs.
      apply subscribe_cb_cases in Hs as [[? _]| ->]; [eauto | | done]. done.
    - destruct (pubsub_head _) as [[]|]; try done. injection Hs as Hs.
      apply unsubscribe_cb_cases in Hs as [[? _]| ->]; [eauto | | done]. done.
    - destruct (existsb _ _); [|done]. injection Hs as Hs.
      apply fetch_cb_keeps in Hs as [? _]; eauto.
    - destruct (listening s); [|done]. injection Hs as Hs.
      apply onMessage_keeps in Hs as [Hk' _]; [|done].
      destruct (keeps_discoverying _ _ Hk' Hd) as [Hd' ->]. by apply Hf.
    - injection Hs as <-. revert Hd. unfold destroy. case_bool_decide; [done|]. exact Hf.
  Qed.

Lemma reachable_payload_fields s : reachable s -> payload_typed (payload s) = true /\ fields_inv s.
  Proof.
    induction 1 as [sid|s i s' Hr [IHp IHf] Hs]; [done|].
    pose proof (reachable_phase s Hr) as Hp. split; [exact (step_payload s i s' Hp Hs IHp)|].
    exact (step_fields s i s' Hp Hs IHf).
  Qed.
End Steps.

Section TypeTheorem.
  Context `{JsonParse}.

  (** C27 (type). Every reachable state is well typed. [readyState] is
      one of the five state strings. [fields] is [undefined] only in
      [discoverying], and [{}] afterwards. [col] and [oid] stay
      [undefined]. [payload] is [undefined], [null] or a truthy document,
      never a falsy value that [if (this.payload)] would take for a missing
      one. [ops] is [null] only once [destroy] has removed the ['message']
      listener, so [this.ops.push] is never reached on [null] through a
      message. The registry is one of the two the object can have. *)
Theorem reachable_typed s : reachable s -> typed s.
  Proof.
    intros Hr. pose proof (reachable_phase s Hr) as (Hps & _ & Hnd & _ & Hc & Ho & Hro).
    destruct (reachable_payload_fields s Hr) as [Hp Hf].
    pose proof (reachable_attached s Hr) as Ha. unfold attached_ok in Ha.
    split_and!; [intros E; by rewrite E in Hps | | done | done | done | | done].
    - destruct (decide (readyState s = Some Discoverying)) as [Hd|Hd].
      + right. split; [by apply Hf | done].
      + left. by apply Hnd.
    - intros Hn. split.
      + destruct (listening s); [|done]. by destruct (Ha (or_intror eq_refl)) as [? Hx]; rewrite Hn in Hx.
      + intros Hd. by destruct (Ha (or_introl Hd)) as [? Hx]; rewrite Hn in Hx.
  Qed.
End TypeTheorem.

(** ** Witness *)
Import MiniJson.

Lemma reachable_typed_witness :
  let ins := [GetReply None (Some "{}"); SubscribeReply None; Destroy] in
  let s := match exec (open_subscription "doc1") ins with
           | Some (Ok s) => s | _ => open_subscription "doc1" end in
  reachable s /\ ops s = None /\ payload s = Some JNull /\ typed s.
Proof.
  intros ins s.
  assert (Hr : reachable s).
  { apply (exec_reachable (open_subscription "doc1") ins); [constructor | vm_compute; reflexivity]. }
  split_and!; [exact Hr | reflexivity | reflexivity | exact (reachable_typed s Hr)].
Defined.
